(** * kctl: a shallow embedding of the scan pipeline

    The development follows the Go sources of kctl:
    - [config/risk.go]: risk tiers, their order, the quick lookup tables;
    - [internal/rbac/risk.go]: [CalculateRiskLevel], [IsClusterAdmin];
    - [pkg/token]: [Parse];
    - [internal/client/kubelet]: [readExecOutput], [extractSensitiveVolumes];
    - [internal/security/pod.go]: [GetSecurityFlags];
    - [internal/console/commands/scan.go]: [scanPodToken], [saveResults];
    - [internal/db/serviceaccounts.go]: [SaveBatch].

    Go strings are byte strings and are modelled by [string]; Go maps by
    stdpp's [gmap]; library calls whose code is not part of the repository
    (base64, encoding/json, the clock, database/sql) are Section variables
    or explicit oracles. *)

From Stdlib Require Import ZArith QArith Ascii String Lia.
From stdpp Require Import gmap strings list fin_maps.

Set Warnings "-register-all".

Local Open Scope string_scope.
Local Open Scope Z_scope.
Local Open Scope list_scope.

(** ** config/risk.go *)

Module Config.

(** [type RiskLevel string] *)
Definition RiskLevel := string.

Definition RiskAdmin    : RiskLevel := "ADMIN".
Definition RiskCritical : RiskLevel := "CRITICAL".
Definition RiskHigh     : RiskLevel := "HIGH".
Definition RiskMedium   : RiskLevel := "MEDIUM".
Definition RiskLow      : RiskLevel := "LOW".
Definition RiskNone     : RiskLevel := "NONE".

(** [var RiskLevelOrder = map[RiskLevel]int{...}] *)
Definition RiskLevelOrder : gmap string Z :=
  list_to_map
    [ (RiskAdmin, 0); (RiskCritical, 1); (RiskHigh, 2);
      (RiskMedium, 3); (RiskLow, 4); (RiskNone, 5) ].

(** Indexing a Go map: a missing key reads as the zero value. *)
Definition riskLevelOrder (l : RiskLevel) : Z :=
  default 0 (RiskLevelOrder !! l).

Definition CriticalPermissions : gmap string (list string) :=
  list_to_map
    [ ("*",                   ["*"]);
      ("secrets",             ["get"; "list"; "watch"; "create"; "*"]);
      ("pods",                ["create"; "*"]);
      ("pods/exec",           ["create"; "*"]);
      ("clusterroles",        ["create"; "update"; "patch"; "bind"; "escalate"; "*"]);
      ("clusterrolebindings", ["create"; "update"; "patch"; "*"]);
      ("roles",               ["create"; "update"; "patch"; "bind"; "escalate"; "*"]);
      ("rolebindings",        ["create"; "update"; "patch"; "*"]);
      ("serviceaccounts",     ["create"; "impersonate"; "*"]);
      ("nodes",               ["proxy"; "*"]);
      ("nodes/proxy",         ["create"; "get"; "*"]) ].

Definition HighPermissions : gmap string (list string) :=
  list_to_map
    [ ("configmaps",             ["get"; "list"; "create"; "update"; "*"]);
      ("deployments",            ["create"; "update"; "patch"; "*"]);
      ("daemonsets",             ["create"; "update"; "patch"; "*"]);
      ("cronjobs",               ["create"; "update"; "*"]);
      ("jobs",                   ["create"; "*"]);
      ("pods/log",               ["get"; "*"]);
      ("persistentvolumeclaims", ["create"; "*"]);
      ("persistentvolumes",      ["create"; "*"]);
      ("serviceaccounts/token",  ["create"; "*"]) ].

Definition MediumPermissions : gmap string (list string) :=
  list_to_map
    [ ("services",        ["create"; "update"; "*"]);
      ("endpoints",       ["create"; "update"; "*"]);
      ("ingresses",       ["create"; "update"; "*"]);
      ("networkpolicies", ["create"; "update"; "delete"; "*"]) ].

End Config.

(** ** pkg/types: permission probes *)

Record PermissionCheck := mkPermissionCheck {
  Resource    : string;
  Verb        : string;
  Allowed     : bool;
  Group       : string;
  Subresource : string
}.

(** ** internal/rbac/risk.go *)

Module Rbac.
Import Config.

(** The lookup key built in each loop body:
    [resource := p.Resource; if p.Subresource != "" { resource += "/" + sub }] *)
Definition probeResource (p : PermissionCheck) : string :=
  if (Subresource p =? "")%string then Resource p
  else Resource p +:+ "/" +:+ Subresource p.

(** [for _, v := range verbs { if v == p.Verb || v == "*" { return ... } }] *)
Fixpoint verbsHit (verbs : list string) (verb : string) : bool :=
  match verbs with
  | [] => false
  | v :: rest =>
      if (v =? verb)%string || (v =? "*")%string then true
      else verbsHit rest verb
  end.

(** [if verbs, ok := table[resource]; ok { ... }] *)
Definition tableHit (table : gmap string (list string))
    (p : PermissionCheck) : bool :=
  match table !! probeResource p with
  | Some verbs => verbsHit verbs (Verb p)
  | None => false
  end.

(** First loop of [CalculateRiskLevel]; also the whole of [IsClusterAdmin]. *)
Fixpoint IsClusterAdmin (permissions : list PermissionCheck) : bool :=
  match permissions with
  | [] => false
  | p :: rest =>
      if Allowed p && (Resource p =? "*")%string && (Verb p =? "*")%string
      then true
      else IsClusterAdmin rest
  end.

(** Second loop: the CRITICAL table, then the wildcard resource. *)
Fixpoint criticalLoop (permissions : list PermissionCheck) : bool :=
  match permissions with
  | [] => false
  | p :: rest =>
      if negb (Allowed p) then criticalLoop rest
      else if tableHit CriticalPermissions p then true
      else if (Resource p =? "*")%string then true
      else criticalLoop rest
  end.

(** Third and fourth loops share their shape; only the table differs. *)
Fixpoint tableLoop (table : gmap string (list string))
    (permissions : list PermissionCheck) : bool :=
  match permissions with
  | [] => false
  | p :: rest =>
      if negb (Allowed p) then tableLoop table rest
      else if tableHit table p then true
      else tableLoop table rest
  end.

(** Fifth loop. *)
Fixpoint anyAllowedLoop (permissions : list PermissionCheck) : bool :=
  match permissions with
  | [] => false
  | p :: rest => if Allowed p then true else anyAllowedLoop rest
  end.

Definition CalculateRiskLevel (permissions : list PermissionCheck)
    : RiskLevel :=
  if IsClusterAdmin permissions then RiskAdmin
  else if criticalLoop permissions then RiskCritical
  else if tableLoop HighPermissions permissions then RiskHigh
  else if tableLoop MediumPermissions permissions then RiskMedium
  else if anyAllowedLoop permissions then RiskLow
  else RiskNone.

(** *** The loops as searches

    Each loop with its early return is a search over the allowed subset;
    the proofs about the classifier go through this form. *)

Definition allowedSubset (permissions : list PermissionCheck)
    : list PermissionCheck :=
  List.filter Allowed permissions.

Definition isWildcardAdmin (p : PermissionCheck) : bool :=
  (Resource p =? "*")%string && (Verb p =? "*")%string.

Definition matchesCritical (p : PermissionCheck) : bool :=
  tableHit CriticalPermissions p || (Resource p =? "*")%string.

Definition classifySpec (permissions : list PermissionCheck) : RiskLevel :=
  let allowed := allowedSubset permissions in
  if existsb isWildcardAdmin allowed then RiskAdmin
  else if existsb matchesCritical allowed then RiskCritical
  else if existsb (tableHit HighPermissions) allowed then RiskHigh
  else if existsb (tableHit MediumPermissions) allowed then RiskMedium
  else if negb (Nat.eqb (length allowed) 0) then RiskLow
  else RiskNone.

End Rbac.

(** ** Go prelude: results, time, strings, JSON values *)

(** A Go [(T, error)] return: the value, or the error's message. *)
Inductive result (A : Type) : Type :=
  | Ok (a : A)
  | Err (msg : string).
Arguments Ok {A} a.
Arguments Err {A} msg.

(** [time.Time] as nanoseconds since the Unix epoch. *)
Definition Time := Z.

Definition time_Unix (sec nsec : Z) : Time := sec * 1000000000 + nsec.

(** [t.After(u)] *)
Definition time_After (t u : Time) : bool := u <? t.

(** The zero [time.Time] is January 1, year 1, 00:00:00 UTC. *)
Definition zeroTime : Time := time_Unix (-62135596800) 0.

Definition time_IsZero (t : Time) : bool := t =? zeroTime.

(** [strings.Split(s, sep)] for a one-byte separator: [n] occurrences of
    the separator give [n+1] pieces, and the empty string gives [[""]]. *)
Fixpoint Split (s : string) (sep : ascii) : list string :=
  match s with
  | EmptyString => [""]
  | String c rest =>
      if Ascii.eqb c sep then "" :: Split rest sep
      else match Split rest sep with
           | piece :: pieces => String c piece :: pieces
           | [] => [String c ""]
           end
  end.

(** What [json.Unmarshal] stores in an [interface{}]: JSON numbers become
    [float64], of which only the rational value matters here. *)
Inductive JSON : Type :=
  | JNull
  | JBool (b : bool)
  | JNumber (q : Q)
  | JString (s : string)
  | JArray (items : list JSON)
  | JObject (fields : gmap string JSON).

(** The conversion [int64(f)] of a [float64]: truncation toward zero; a
    value outside the [int64] range gives the smallest [int64], as on
    amd64. *)
Definition int64_of_float64 (f : Q) : Z :=
  let t := Z.quot (Qnum f) (Z.pos (Qden f)) in
  if (- 2 ^ 63 <=? t) && (t <? 2 ^ 63) then t else - 2 ^ 63.

(** ** pkg/types: TokenInfo *)

Record TokenInfo := mkTokenInfo {
  ServiceAccount : string;
  Namespace      : string;
  Issuer         : string;
  Expiration     : Time;
  IsExpired      : bool
}.

(** ** pkg/token *)

Module Token.

(** [&types.TokenInfo{}] *)
Definition emptyInfo : TokenInfo := mkTokenInfo "" "" "" zeroTime false.

Definition withIssuer (iss : string) (i : TokenInfo) : TokenInfo :=
  mkTokenInfo (ServiceAccount i) (Namespace i) iss (Expiration i) (IsExpired i).

Definition withExpiry (t : Time) (expired : bool) (i : TokenInfo) : TokenInfo :=
  mkTokenInfo (ServiceAccount i) (Namespace i) (Issuer i) t expired.

Definition withNamespace (ns : string) (i : TokenInfo) : TokenInfo :=
  mkTokenInfo (ServiceAccount i) ns (Issuer i) (Expiration i) (IsExpired i).

Definition withServiceAccount (sa : string) (i : TokenInfo) : TokenInfo :=
  mkTokenInfo sa (Namespace i) (Issuer i) (Expiration i) (IsExpired i).

Section Parse.

(** [base64.RawURLEncoding.DecodeString], [base64.StdEncoding.DecodeString],
    [json.Unmarshal] into a [map[string]interface{}], and [time.Now()]. *)
Variable RawURLDecode : string -> result string.
Variable StdDecode : string -> result string.
Variable UnmarshalClaims : string -> result (gmap string JSON).
Variable now : Time.

(** The payload segment: URL-safe unpadded base64 first, standard base64
    as the fallback. *)
Definition decodePayload (segment : string) : result string :=
  match RawURLDecode segment with
  | Ok payload => Ok payload
  | Err _ =>
      match StdDecode segment with
      | Ok payload => Ok payload
      | Err e => Err ("解码 Token payload 失败: " +:+ e)
      end
  end.

(** [if iss, ok := claims["iss"].(string); ok { info.Issuer = iss }] *)
Definition readIssuer (claims : gmap string JSON) (i : TokenInfo) : TokenInfo :=
  match claims !! "iss" with
  | Some (JString iss) => withIssuer iss i
  | _ => i
  end.

(** [if exp, ok := claims["exp"].(float64); ok { ... }] *)
Definition readExpiry (claims : gmap string JSON) (i : TokenInfo) : TokenInfo :=
  match claims !! "exp" with
  | Some (JNumber exp) =>
      let expiration := time_Unix (int64_of_float64 exp) 0 in
      withExpiry expiration (time_After now expiration) i
  | _ => i
  end.

(** The [kubernetes.io] claim tree. *)
Definition readKubernetesClaim (claims : gmap string JSON) (i : TokenInfo)
    : TokenInfo :=
  match claims !! "kubernetes.io" with
  | Some (JObject k8s) =>
      let i :=
        match k8s !! "namespace" with
        | Some (JString ns) => withNamespace ns i
        | _ => i
        end in
      match k8s !! "serviceaccount" with
      | Some (JObject sa) =>
          match sa !! "name" with
          | Some (JString name) => withServiceAccount name i
          | _ => i
          end
      | _ => i
      end
  | _ => i
  end.

(** The fallback on [sub = "system:serviceaccount:namespace:name"]. *)
Definition readSubject (claims : gmap string JSON) (i : TokenInfo) : TokenInfo :=
  if (ServiceAccount i =? "")%string then
    match claims !! "sub" with
    | Some (JString sub) =>
        let parts := Split sub ":" in
        if (4 <=? length parts)%nat
           && (nth 0 parts "" =? "system")%string
           && (nth 1 parts "" =? "serviceaccount")%string
        then withServiceAccount (nth 3 parts "")
               (withNamespace (nth 2 parts "") i)
        else i
    | _ => i
    end
  else i.

Definition Parse (token : string) : result TokenInfo :=
  let parts := Split token "." in
  if negb (length parts =? 3)%nat then Err "无效的 JWT Token 格式"
  else
    match decodePayload (nth 1 parts "") with
    | Err e => Err e
    | Ok payload =>
        match UnmarshalClaims payload with
        | Err e => Err ("解析 Token claims 失败: " +:+ e)
        | Ok claims =>
            Ok (readSubject claims
                  (readKubernetesClaim claims
                     (readExpiry claims
                        (readIssuer claims emptyInfo))))
        end
    end.

End Parse.

End Token.

(** [strings.Contains(s, substr)] *)
Fixpoint Contains (s substr : string) : bool :=
  if String.prefix substr s then true
  else match s with
       | EmptyString => false
       | String _ rest => Contains rest substr
       end.

(** The double quote, for JSON text written out in full. *)
Definition dq : string := String "034"%char "".

(** ** internal/client/kubelet: exec output demultiplexing *)

(** [pkg/types] is not among the sources; the records below carry the
    fields that the modelled functions read or write. *)
Record ExecResult := mkExecResult {
  Stdout    : string;
  Stderr    : string;
  execError : string   (* field [Error] *)
}.

Record ExecStatus := mkExecStatus {
  Status  : string;
  Message : string
}.

(** What [conn.ReadMessage] reports when it stops delivering frames: a
    websocket close frame with its code, or any other error; both carry
    the text of [err.Error()]. *)
Inductive ReadError : Type :=
  | CloseError (code : Z) (text : string)
  | OtherError (text : string).

Module Kubelet.

Definition StreamStdin  : nat := 0.
Definition StreamStdout : nat := 1.
Definition StreamStderr : nat := 2.
Definition StreamError  : nat := 3.
Definition StreamResize : nat := 4.

Definition CloseNormalClosure : Z := 1000.
Definition CloseGoingAway     : Z := 1001.

(** [websocket.IsCloseError(err, codes...)] *)
Definition IsCloseError (err : ReadError) (codes : list Z) : bool :=
  match err with
  | CloseError code _ => existsb (Z.eqb code) codes
  | OtherError _ => false
  end.

Definition errorText (err : ReadError) : string :=
  match err with
  | CloseError _ text => text
  | OtherError text => text
  end.

Definition withStdout (out : string) (r : ExecResult) : ExecResult :=
  mkExecResult out (Stderr r) (execError r).

Definition withStderr (err : string) (r : ExecResult) : ExecResult :=
  mkExecResult (Stdout r) err (execError r).

Definition withError (e : string) (r : ExecResult) : ExecResult :=
  mkExecResult (Stdout r) (Stderr r) e.

Section ReadExecOutput.

(** [json.Unmarshal] into a [types.ExecStatus]. *)
Variable UnmarshalExecStatus : string -> result ExecStatus.

(** The body of [case StreamError]. *)
Definition onErrorChannel (data : string) (r : ExecResult) : ExecResult :=
  match UnmarshalExecStatus data with
  | Ok execStatus =>
      if negb (Status execStatus =? "Success")%string then
        let r := withError (Message execStatus) r in
        if (execError r =? "")%string then withError data r else r
      else r
  | Err _ => withError data r
  end.

(** One received frame: the first byte selects the stream. *)
Definition onMessage (message : string) (r : ExecResult) : ExecResult :=
  match message with
  | EmptyString => r
  | String channel data =>
      match nat_of_ascii channel with
      | 1%nat => withStdout (Stdout r +:+ data) r
      | 2%nat => withStderr (Stderr r +:+ data) r
      | 3%nat => onErrorChannel data r
      | _ => r
      end
  end.

(** The read loop: [frames] are the messages that [ReadMessage] delivers,
    in arrival order, before it fails with [closing]. *)
Fixpoint readLoop (frames : list string) (closing : ReadError)
    (r : ExecResult) : ExecResult :=
  match frames with
  | [] =>
      if IsCloseError closing [CloseNormalClosure; CloseGoingAway] then r
      else if (execError r =? "")%string
              && negb (Contains (errorText closing) "close")
           then withError (errorText closing) r
           else r
  | message :: rest => readLoop rest closing (onMessage message r)
  end.

(** [readExecOutput] never returns a Go error of its own. *)
Definition readExecOutput (frames : list string) (closing : ReadError)
    : result ExecResult :=
  Ok (readLoop frames closing (mkExecResult "" "" "")).

End ReadExecOutput.

(** The payloads of one stream, as the specification words it: keep the
    frames whose first byte is [channel], drop that byte, concatenate. *)
Definition onChannel (channel : nat) (message : string) : bool :=
  match message with
  | EmptyString => false
  | String c _ => Nat.eqb (nat_of_ascii c) channel
  end.

Definition payload (message : string) : string :=
  match message with
  | EmptyString => ""
  | String _ data => data
  end.

Definition channelBytes (channel : nat) (frames : list string) : string :=
  foldr String.append "" (payload <$> List.filter (onChannel channel) frames).

End Kubelet.

(** ** internal/client/kubelet: the pod extractor *)

(** The pod snapshot types of [pkg/types], by the fields that
    [extractSensitiveVolumes] reads. *)
Record VolumeMount := mkVolumeMount {
  vmName      : string;   (* [Name] *)
  vmMountPath : string    (* [MountPath] *)
}.

Record ContainerSpec := mkContainerSpec {
  csName         : string;             (* [Name] *)
  csVolumeMounts : list VolumeMount    (* [VolumeMounts] *)
}.

(** A projected source: [ServiceAccountToken] is a pointer that is only
    tested against nil; [Secret] points to a struct with [SecretName]. *)
Record ProjectedSource := mkProjectedSource {
  psServiceAccountToken : bool;           (* [ServiceAccountToken != nil] *)
  psSecret              : option string   (* [Secret], its [SecretName] *)
}.

Record VolumeSpec := mkVolumeSpec {
  vsName      : string;                          (* [Name] *)
  vsSecret    : option string;                   (* [Secret], its [SecretName] *)
  vsHostPath  : option string;                   (* [HostPath], its [Path] *)
  vsProjected : option (list ProjectedSource)    (* [Projected], its [Sources] *)
}.

Record SensitiveVolume := mkSensitiveVolume {
  svName       : string;   (* [Name] *)
  svType       : string;   (* [Type] *)
  svSecretName : string;   (* [SecretName] *)
  svHostPath   : string;   (* [HostPath] *)
  svMountPath  : string    (* [MountPath] *)
}.

Module Extract.

(** [mountPaths[vm.Name] = vm.MountPath] over every mount of every
    container, in order: a later mount of a name replaces an earlier one. *)
Definition addMounts (mountPaths : gmap string string)
    (mounts : list VolumeMount) : gmap string string :=
  fold_left (fun m vm => <[vmName vm := vmMountPath vm]> m) mounts mountPaths.

Definition buildMountPaths (containers : list ContainerSpec)
    : gmap string string :=
  fold_left (fun m c => addMounts m (csVolumeMounts c)) containers ∅.

(** The loop over [v.Projected.Sources], with its two [break]s. *)
Fixpoint projectedLoop (name : string) (sources : list ProjectedSource)
    : option SensitiveVolume :=
  match sources with
  | [] => None
  | src :: rest =>
      if psServiceAccountToken src then
        Some (mkSensitiveVolume name "projected-sa-token" "" "" "")
      else
        match psSecret src with
        | Some secretName =>
            Some (mkSensitiveVolume name "projected-secret" secretName "" "")
        | None => projectedLoop name rest
        end
  end.

(** The [if / else if / else if] that types one volume; [None] is the
    nil [sv]. *)
Definition sensitiveOf (v : VolumeSpec) : option SensitiveVolume :=
  match vsSecret v with
  | Some secretName => Some (mkSensitiveVolume (vsName v) "secret" secretName "" "")
  | None =>
      match vsHostPath v with
      | Some path => Some (mkSensitiveVolume (vsName v) "hostPath" "" path "")
      | None =>
          match vsProjected v with
          | Some sources => projectedLoop (vsName v) sources
          | None => None
          end
      end
  end.

Definition withMountPath (mp : string) (sv : SensitiveVolume) : SensitiveVolume :=
  mkSensitiveVolume (svName sv) (svType sv) (svSecretName sv) (svHostPath sv) mp.

Fixpoint volumesLoop (mountPaths : gmap string string)
    (volumes : list VolumeSpec) (sensitiveVols : list SensitiveVolume)
    : list SensitiveVolume :=
  match volumes with
  | [] => sensitiveVols
  | v :: rest =>
      match sensitiveOf v with
      | Some sv =>
          let sv := match mountPaths !! vsName v with
                    | Some mp => withMountPath mp sv
                    | None => sv
                    end in
          volumesLoop mountPaths rest (sensitiveVols ++ [sv])
      | None => volumesLoop mountPaths rest sensitiveVols
      end
  end.

Definition extractSensitiveVolumes (volumes : list VolumeSpec)
    (containers : list ContainerSpec) : list SensitiveVolume :=
  volumesLoop (buildMountPaths containers) volumes [].

(** Every mount of the pod, in container order then mount order, and the
    path of the last one that names a given volume. *)
Definition allMounts (containers : list ContainerSpec) : list VolumeMount :=
  concat (csVolumeMounts <$> containers).

Definition lastMountPath (name : string) (containers : list ContainerSpec)
    : option string :=
  vmMountPath <$>
    last (List.filter (fun vm => (vmName vm =? name)%string)
            (allMounts containers)).

End Extract.

(** ** internal/security/pod.go *)

(** [types.PodRecord], by the two JSON columns that the flag functions
    search, and [types.SecurityFlags]. *)
Record PodRecord := mkPodRecord {
  prName       : string;   (* [Name] *)
  prNamespace  : string;   (* [Namespace] *)
  prContainers : string;   (* [Containers], JSON text *)
  prVolumes    : string    (* [Volumes], JSON text *)
}.

Record SecurityFlags := mkSecurityFlags {
  Privileged               : bool;
  AllowPrivilegeEscalation : bool;
  HasHostPath              : bool;
  HasSecretMount           : bool;
  HasSATokenMount          : bool
}.

Module Security.

(** [strings.Contains(containersJSON, `"privileged":true`)] *)
Definition CheckPrivileged (containersJSON : string) : bool :=
  Contains containersJSON (dq +:+ "privileged" +:+ dq +:+ ":true").

Definition CheckAllowPrivilegeEscalation (containersJSON : string) : bool :=
  Contains containersJSON (dq +:+ "allowPrivilegeEscalation" +:+ dq +:+ ":true").

Definition CheckHostPath (volumesJSON : string) : bool :=
  Contains volumesJSON (dq +:+ "type" +:+ dq +:+ ":" +:+ dq +:+ "hostPath" +:+ dq).

Definition CheckSecretMount (volumesJSON : string) : bool :=
  Contains volumesJSON (dq +:+ "type" +:+ dq +:+ ":" +:+ dq +:+ "secret" +:+ dq)
  || Contains volumesJSON
       (dq +:+ "type" +:+ dq +:+ ":" +:+ dq +:+ "projected-secret" +:+ dq).

(** The struct literal names four fields; [HasSATokenMount] is left at
    its zero value. *)
Definition GetSecurityFlags (record : PodRecord) : SecurityFlags :=
  {| Privileged               := CheckPrivileged (prContainers record);
     AllowPrivilegeEscalation := CheckAllowPrivilegeEscalation (prContainers record);
     HasHostPath              := CheckHostPath (prVolumes record);
     HasSecretMount           := CheckSecretMount (prVolumes record);
     HasSATokenMount          := false |}.

End Security.

(** ** pkg/types: the ServiceAccount repository row and its JSON parts *)

Record ServiceAccountRecord := mkServiceAccountRecord {
  saID              : Z;        (* [ID] *)
  saName            : string;   (* [Name] *)
  saNamespace       : string;   (* [Namespace] *)
  saToken           : string;   (* [Token] *)
  saTokenExpiration : string;   (* [TokenExpiration] *)
  saIsExpired       : bool;     (* [IsExpired] *)
  saRiskLevel       : string;   (* [RiskLevel] *)
  saPermissions     : string;   (* [Permissions], JSON text *)
  saIsClusterAdmin  : bool;     (* [IsClusterAdmin] *)
  saSecurityFlags   : string;   (* [SecurityFlags], JSON text *)
  saPods            : string;   (* [Pods], JSON text *)
  saCollectedAt     : Time;     (* [CollectedAt] *)
  saKubeletIP       : string    (* [KubeletIP] *)
}.

Record SAPermission := mkSAPermission {
  spResource    : string;
  spVerb        : string;
  spGroup       : string;
  spSubresource : string;
  spAllowed     : bool
}.

Record SASecurityFlags := mkSASecurityFlags {
  sfPrivileged               : bool;
  sfAllowPrivilegeEscalation : bool;
  sfHasHostPath              : bool;
  sfHasSecretMount           : bool;
  sfHasSATokenMount          : bool
}.

Record SAPodInfo := mkSAPodInfo {
  piName      : string;
  piNamespace : string;
  piContainer : string
}.

(** ** internal/db/serviceaccounts.go *)

Module DB.

(** The [service_accounts] table: rows keyed by the [UNIQUE(name,
    namespace)] constraint, and the AUTOINCREMENT counter that hands out
    [id]s. *)
Record Store := mkStore {
  rows : gmap (string * string) ServiceAccountRecord;
  seq  : Z
}.

Definition withID (id : Z) (r : ServiceAccountRecord) : ServiceAccountRecord :=
  mkServiceAccountRecord id (saName r) (saNamespace r) (saToken r)
    (saTokenExpiration r) (saIsExpired r) (saRiskLevel r) (saPermissions r)
    (saIsClusterAdmin r) (saSecurityFlags r) (saPods r) (saCollectedAt r)
    (saKubeletIP r).

(** [INSERT OR REPLACE INTO service_accounts (name, namespace, ...)]: a
    row with the same (name, namespace) is replaced; the new row takes a
    fresh [id]. *)
Definition insertOrReplace (record : ServiceAccountRecord) (st : Store) : Store :=
  mkStore (<[(saName record, saNamespace record) := withID (seq st + 1) record]>
             (rows st))
          (seq st + 1).

(** A [database/sql] transaction on the connection: the store that was
    current at [Begin], the store as the transaction sees it, and whether
    the transaction already ended. A statement that fails changes
    nothing; [Commit] publishes the transaction's store or fails and
    publishes nothing; [Rollback] discards it, and is a no-op after the
    transaction ended. *)
Record Tx := mkTx {
  txCommitted : Store;
  txWorking   : Store;
  txDone      : bool
}.

(** Which calls into the driver fail, and with what message. Statement
    executions are numbered from 0 in call order. *)
Record Faults := mkFaults {
  beginErr   : option string;
  prepareErr : option string;
  execErr    : nat -> option string;
  commitErr  : option string
}.

Definition txBegin (f : Faults) (conn : Store) : result Tx :=
  match beginErr f with
  | Some e => Err e
  | None => Ok (mkTx conn conn false)
  end.

Definition stmtExec (f : Faults) (n : nat) (record : ServiceAccountRecord)
    (tx : Tx) : Tx * option string :=
  match execErr f n with
  | Some e => (tx, Some e)
  | None =>
      (mkTx (txCommitted tx) (insertOrReplace record (txWorking tx)) (txDone tx),
       None)
  end.

Definition txCommit (f : Faults) (tx : Tx) : Tx * option string :=
  if txDone tx then (tx, Some "sql: transaction has already been committed or rolled back")
  else
    match commitErr f with
    | Some e => (mkTx (txCommitted tx) (txCommitted tx) true, Some e)
    | None => (mkTx (txWorking tx) (txWorking tx) true, None)
    end.

(** [tx.Rollback()], returning the store the connection holds afterwards. *)
Definition txRollback (tx : Tx) : Store := txCommitted tx.

(** The loop of [SaveBatch]: stop at the first failing statement. *)
Fixpoint execLoop (f : Faults) (records : list ServiceAccountRecord)
    (saved : nat) (tx : Tx) : Tx * nat * option string :=
  match records with
  | [] => (tx, saved, None)
  | record :: rest =>
      match stmtExec f saved record tx with
      | (tx, Some e) =>
          (tx, saved,
           Some ("保存 SA " +:+ saNamespace record +:+ "/" +:+ saName record
                 +:+ " 失败: " +:+ e))
      | (tx, None) => execLoop f rest (S saved) tx
      end
  end.

(** [SaveBatch]: the store afterwards, the returned count and the
    returned error. The deferred [tx.Rollback()] runs on every path after
    [Begin] succeeded. *)
Definition SaveBatch (f : Faults) (conn : Store)
    (records : list ServiceAccountRecord) : Store * nat * option string :=
  match txBegin f conn with
  | Err e => (conn, 0%nat, Some ("开始事务失败: " +:+ e))
  | Ok tx =>
      match prepareErr f with
      | Some e => (txRollback tx, 0%nat, Some ("准备语句失败: " +:+ e))
      | None =>
          match execLoop f records 0 tx with
          | (tx, saved, Some e) => (txRollback tx, saved, Some e)
          | (tx, saved, None) =>
              match txCommit f tx with
              | (tx, Some e) =>
                  (txRollback tx, saved, Some ("提交事务失败: " +:+ e))
              | (tx, None) => (txRollback tx, saved, None)
              end
          end
      end
  end.

(** All records written, in order. *)
Definition writeAll (records : list ServiceAccountRecord) (st : Store) : Store :=
  fold_left (fun st r => insertOrReplace r st) records st.

End DB.

(** ** internal/console/commands/scan.go *)

(** [types.PodContainerInfo] and [types.ExecOptions], by the fields the
    scan reads or sets; [pcContainers] lists the containers by [Name]. *)
Record PodContainerInfo := mkPodContainerInfo {
  pcNamespace     : string;          (* [Namespace] *)
  pcPodName       : string;          (* [PodName] *)
  pcStatus        : string;          (* [Status] *)
  pcContainers    : list string;     (* [Containers], each by [Name] *)
  pcSecurityFlags : SecurityFlags    (* [SecurityFlags] *)
}.

Record ExecOptions := mkExecOptions {
  eoNamespace : string;
  eoPod       : string;
  eoContainer : string;
  eoCommand   : list string;
  eoStdin     : bool;
  eoStdout    : bool;
  eoStderr    : bool;
  eoTTY       : bool
}.

Record SATokenResult := mkSATokenResult {
  resNamespace      : string;                 (* [Namespace] *)
  resPodName        : string;                 (* [PodName] *)
  resContainer      : string;                 (* [Container] *)
  resServiceAccount : string;                 (* [ServiceAccount] *)
  resToken          : string;                 (* [Token] *)
  resTokenInfo      : option TokenInfo;       (* [TokenInfo], a pointer *)
  resPermissions    : list PermissionCheck;   (* [Permissions] *)
  resSecurityFlags  : SecurityFlags;          (* [SecurityFlags] *)
  resRiskLevel      : Config.RiskLevel;       (* [RiskLevel] *)
  resIsClusterAdmin : bool;                   (* [IsClusterAdmin] *)
  resError          : string                  (* [Error] *)
}.

Module Scan.
Import Config.

Definition withResError (e : string) (r : SATokenResult) : SATokenResult :=
  mkSATokenResult (resNamespace r) (resPodName r) (resContainer r)
    (resServiceAccount r) (resToken r) (resTokenInfo r) (resPermissions r)
    (resSecurityFlags r) (resRiskLevel r) (resIsClusterAdmin r) e.

Definition withContainer (c : string) (r : SATokenResult) : SATokenResult :=
  mkSATokenResult (resNamespace r) (resPodName r) c
    (resServiceAccount r) (resToken r) (resTokenInfo r) (resPermissions r)
    (resSecurityFlags r) (resRiskLevel r) (resIsClusterAdmin r) (resError r).

Definition withToken (t : string) (r : SATokenResult) : SATokenResult :=
  mkSATokenResult (resNamespace r) (resPodName r) (resContainer r)
    (resServiceAccount r) t (resTokenInfo r) (resPermissions r)
    (resSecurityFlags r) (resRiskLevel r) (resIsClusterAdmin r) (resError r).

Definition withTokenInfo (ti : TokenInfo) (r : SATokenResult) : SATokenResult :=
  mkSATokenResult (resNamespace r) (resPodName r) (resContainer r)
    (ServiceAccount ti) (resToken r) (Some ti) (resPermissions r)
    (resSecurityFlags r) (resRiskLevel r) (resIsClusterAdmin r) (resError r).

Definition withAssessment (perms : list PermissionCheck) (admin : bool)
    (level : RiskLevel) (r : SATokenResult) : SATokenResult :=
  mkSATokenResult (resNamespace r) (resPodName r) (resContainer r)
    (resServiceAccount r) (resToken r) (resTokenInfo r) perms
    (resSecurityFlags r) level admin (resError r).

Section ScanPodToken.

(** The kubelet's [Exec], [strings.TrimSpace], [token.Parse] with the
    library calls it makes, and [sess.GetK8sClient]: the client it
    returns is modelled by its [CheckCommonPermissions] method. *)
Variable kubeletExec : ExecOptions -> result ExecResult.
Variable TrimSpace : string -> string.
Variable RawURLDecode : string -> result string.
Variable StdDecode : string -> result string.
Variable UnmarshalClaims : string -> result (gmap string JSON).
Variable now : Time.
Variable GetK8sClient :
  string -> result (string -> result (list PermissionCheck)).

Definition scanPodToken (pod : PodContainerInfo) : SATokenResult :=
  let result :=
    mkSATokenResult (pcNamespace pod) (pcPodName pod) "" "" "" None []
      (pcSecurityFlags pod) RiskNone false "" in
  match pcContainers pod with
  | [] => withResError "Pod 没有容器" result
  | first :: _ =>
      let result := withContainer first result in
      let opts :=
        mkExecOptions (pcNamespace pod) (pcPodName pod) (resContainer result)
          ["cat"; "/var/run/secrets/kubernetes.io/serviceaccount/token"]
          false true true false in
      match kubeletExec opts with
      | Err e => withResError ("exec 失败: " +:+ e) result
      | Ok execResult =>
          if negb (execError execResult =? "")%string then
            withResError ("读取 Token 失败: " +:+ execError execResult) result
          else
            let result := withToken (TrimSpace (Stdout execResult)) result in
            if (resToken result =? "")%string then
              withResError "Token 为空" result
            else
              match Token.Parse RawURLDecode StdDecode UnmarshalClaims now
                      (resToken result) with
              | Err e => withResError ("解析 Token 失败: " +:+ e) result
              | Ok tokenInfo =>
                  let result := withTokenInfo tokenInfo result in
                  match GetK8sClient (resToken result) with
                  | Err e =>
                      withResError ("创建 K8s 客户端失败: " +:+ e) result
                  | Ok CheckCommonPermissions =>
                      match CheckCommonPermissions (Namespace tokenInfo) with
                      | Err e => withResError ("检查权限失败: " +:+ e) result
                      | Ok permissions =>
                          let admin := Rbac.IsClusterAdmin permissions in
                          withAssessment permissions admin
                            (if admin then RiskAdmin
                             else Rbac.CalculateRiskLevel permissions)
                            result
                      end
                  end
              end
      end
  end.

End ScanPodToken.

Section SaveResults.

(** [json.Marshal] of the three JSON columns; the slice that
    [json.Unmarshal] leaves in [pods] (its error is discarded); the
    RFC 3339 rendering of a time; [time.Now()] as read while the [i]-th
    result is handled; [sess.Config.KubeletIP]. *)
Variable MarshalPods : list SAPodInfo -> string.
Variable UnmarshalPods : string -> list SAPodInfo.
Variable MarshalPermissions : list SAPermission -> string.
Variable MarshalSecurityFlags : SASecurityFlags -> string.
Variable FormatRFC3339 : Time -> string.
Variable clock : nat -> Time.
Variable kubeletIP : string.

Definition podInfoOf (result : SATokenResult) : SAPodInfo :=
  mkSAPodInfo (resPodName result) (resNamespace result) (resContainer result).

(** [fmt.Sprintf("%s/%s", result.TokenInfo.Namespace, result.ServiceAccount)] *)
Definition keyOf (tokenInfo : TokenInfo) (result : SATokenResult) : string :=
  Namespace tokenInfo +:+ "/" +:+ resServiceAccount result.

(** The allowed probes, converted field by field. *)
Fixpoint allowedPermissions (perms : list PermissionCheck) : list SAPermission :=
  match perms with
  | [] => []
  | p :: rest =>
      if Allowed p then
        mkSAPermission (Resource p) (Verb p) (Group p) (Subresource p) (Allowed p)
          :: allowedPermissions rest
      else allowedPermissions rest
  end.

(** The [else] branch: the record built from the first result of a key. *)
Definition newRecord (i : nat) (tokenInfo : TokenInfo) (result : SATokenResult)
    : ServiceAccountRecord :=
  let stamped := negb (time_IsZero (Expiration tokenInfo)) in
  mkServiceAccountRecord
    0
    (resServiceAccount result)
    (Namespace tokenInfo)
    (resToken result)
    (if stamped then FormatRFC3339 (Expiration tokenInfo) else "")
    (if stamped then IsExpired tokenInfo else false)
    (if resIsClusterAdmin result then RiskAdmin else resRiskLevel result)
    (MarshalPermissions (allowedPermissions (resPermissions result)))
    (resIsClusterAdmin result)
    (MarshalSecurityFlags
       (let flags := resSecurityFlags result in
        mkSASecurityFlags (Privileged flags) (AllowPrivilegeEscalation flags)
          (HasHostPath flags) (HasSecretMount flags) (HasSATokenMount flags)))
    (MarshalPods [podInfoOf result])
    (clock i)
    kubeletIP.

(** The [if existing, ok := saMap[key]; ok] branch: only [Pods] changes. *)
Definition appendPod (result : SATokenResult) (existing : ServiceAccountRecord)
    : ServiceAccountRecord :=
  let pods := if (saPods existing =? "")%string then []
              else UnmarshalPods (saPods existing) in
  let pods := (pods ++ [podInfoOf result])%list in
  mkServiceAccountRecord (saID existing) (saName existing)
    (saNamespace existing) (saToken existing) (saTokenExpiration existing)
    (saIsExpired existing) (saRiskLevel existing) (saPermissions existing)
    (saIsClusterAdmin existing) (saSecurityFlags existing)
    (MarshalPods pods) (saCollectedAt existing) (saKubeletIP existing).

(** The first loop of [saveResults], building [saMap]. [None] stands for
    the panic of reading [result.TokenInfo.Namespace] through a nil
    [TokenInfo]. *)
Fixpoint coalesceLoop (i : nat) (results : list SATokenResult)
    (saMap : gmap string ServiceAccountRecord)
    : option (gmap string ServiceAccountRecord) :=
  match results with
  | [] => Some saMap
  | result :: rest =>
      if negb (resError result =? "")%string
         || (resServiceAccount result =? "")%string
      then coalesceLoop (S i) rest saMap
      else
        match resTokenInfo result with
        | None => None
        | Some tokenInfo =>
            let key := keyOf tokenInfo result in
            match saMap !! key with
            | Some existing =>
                coalesceLoop (S i) rest
                  (<[key := appendPod result existing]> saMap)
            | None =>
                coalesceLoop (S i) rest
                  (<[key := newRecord i tokenInfo result]> saMap)
            end
        end
  end.

(** [saveResults]: the returned count and, when the session has a
    repository, its store afterwards. The records leave [saMap] in the
    map's iteration order. *)
Definition saveResults (SADB : option (DB.Faults * DB.Store))
    (results : list SATokenResult) : option (nat * option DB.Store) :=
  match coalesceLoop 0 results ∅ with
  | None => None
  | Some saMap =>
      let records := (map_to_list saMap).*2 in
      match SADB with
      | Some (faults, conn) =>
          match DB.SaveBatch faults conn records with
          | (conn, count, _) => Some (count, Some conn)
          end
      | None => Some (length records, None)
      end
  end.

End SaveResults.

End Scan.

(** ** Vocabulary of the properties *)

(** Closed comparisons of two tier ranks are settled by evaluation. *)
Ltac order_le := apply Z.leb_le; vm_compute; reflexivity.

Module Spec.
Import Config Rbac Extract Scan.

(** A record whose volumes column lists a projected ServiceAccount token. *)
Definition tokenPod : PodRecord :=
  mkPodRecord "web" "default" ""
    ("[{" +:+ dq +:+ "name" +:+ dq +:+ ":" +:+ dq +:+ "kube-api-access" +:+ dq
     +:+ "," +:+ dq +:+ "type" +:+ dq +:+ ":" +:+ dq +:+ "projected-sa-token"
     +:+ dq +:+ "}]").

(** A sensitive volume with its mount path looked up in the table. *)
Definition resolved (mountPaths : gmap string string) (v : VolumeSpec)
    (sv : SensitiveVolume) : SensitiveVolume :=
  match mountPaths !! vsName v with
  | Some mp => withMountPath mp sv
  | None => sv
  end.

(** The claim as worded: every mount of a sensitive volume shows in the
    list under its own mount path. *)
Definition reflectsEveryMount (volumes : list VolumeSpec)
    (containers : list ContainerSpec) : Prop :=
  forall c vm v,
    c ∈ containers -> vm ∈ csVolumeMounts c ->
    v ∈ volumes -> vsName v = vmName vm -> is_Some (sensitiveOf v) ->
    exists sv,
      sv ∈ extractSensitiveVolumes volumes containers /\
      svName sv = vmName vm /\ svMountPath sv = vmMountPath vm.

(** What one scan task guarantees about its result. *)
Definition assessed (r : SATokenResult) : Prop :=
  (resIsClusterAdmin r = true <-> resRiskLevel r = RiskAdmin) /\
  (resIsClusterAdmin r = true <->
   exists p, p ∈ resPermissions r /\
     Allowed p = true /\ Resource p = "*" /\ Verb p = "*").

(** The results that the loop does not skip, and those among them that
    carry a given key, in encounter order. *)
Definition counted (r : SATokenResult) : bool :=
  (resError r =? "")%string && negb (resServiceAccount r =? "")%string.

Definition hasKey (k : string) (r : SATokenResult) : bool :=
  match resTokenInfo r with
  | Some tokenInfo => (keyOf tokenInfo r =? k)%string
  | None => false
  end.

Definition hits (k : string) (results : list SATokenResult)
    : list SATokenResult :=
  List.filter (fun r => counted r && hasKey k r) results.

Definition withPods (pods : string) (r : ServiceAccountRecord)
    : ServiceAccountRecord :=
  mkServiceAccountRecord (saID r) (saName r) (saNamespace r) (saToken r)
    (saTokenExpiration r) (saIsExpired r) (saRiskLevel r) (saPermissions r)
    (saIsClusterAdmin r) (saSecurityFlags r) pods (saCollectedAt r)
    (saKubeletIP r).

Section SaveResults.

Variable MarshalPods : list SAPodInfo -> string.
Variable MarshalPermissions : list SAPermission -> string.
Variable MarshalSecurityFlags : SASecurityFlags -> string.
Variable FormatRFC3339 : Time -> string.
Variable clock : nat -> Time.
Variable kubeletIP : string.

Local Abbreviation newRecord :=
  (newRecord MarshalPods MarshalPermissions MarshalSecurityFlags FormatRFC3339
     clock kubeletIP).

(** A stored record that stems from an assessed result. *)
Definition stemsFrom (rec : ServiceAccountRecord) (r : SATokenResult) : Prop :=
  saIsClusterAdmin rec = resIsClusterAdmin r /\
  saRiskLevel rec =
    (if resIsClusterAdmin r then RiskAdmin else resRiskLevel r) /\
  saPermissions rec =
    MarshalPermissions (allowedPermissions (resPermissions r)).

(** The record of a key after its results [rs] were handled: the record
    of the first of them, with the pods of all of them. *)
Definition merged (rs : list SATokenResult) (rec : ServiceAccountRecord) : Prop :=
  match rs with
  | [] => False
  | first :: _ =>
      exists i tokenInfo,
        resTokenInfo first = Some tokenInfo /\
        rec = withPods (MarshalPods (podInfoOf <$> rs))
                (newRecord i tokenInfo first)
  end.

Definition coalesced (done : list SATokenResult)
    (saMap : gmap string ServiceAccountRecord) : Prop :=
  forall k,
    match hits k done with
    | [] => saMap !! k = None
    | rs => exists rec, saMap !! k = Some rec /\ merged rs rec
    end.

End SaveResults.

End Spec.

(** ** Sample data and stand-ins for the library calls

    Concrete inputs on which the properties are exercised: stand-ins for
    the decoders and encoders, a two-pod node, probe lists, a batch with a
    failing statement. *)

Module Fixture.
Import Config Scan.

(** A self-delimiting text encoding, standing in for JSON: every byte is
    announced by [+], the end by [.]. *)
Fixpoint encodeText (s rest : string) : string :=
  match s with
  | EmptyString => String "." rest
  | String c s' => String "+" (String c (encodeText s' rest))
  end.

Fixpoint decodeText (s : string) : option (string * string) :=
  match s with
  | EmptyString => None
  | String tag rest =>
      if Ascii.eqb tag "." then Some ("", rest)
      else
        match rest with
        | EmptyString => None
        | String c s' =>
            match decodeText s' with
            | Some (text, rest') => Some (String c text, rest')
            | None => None
            end
        end
  end.

Fixpoint encodePods (pods : list SAPodInfo) : string :=
  match pods with
  | [] => "]"
  | p :: pods' =>
      String ","
        (encodeText (piName p)
           (encodeText (piNamespace p)
              (encodeText (piContainer p) (encodePods pods'))))
  end.

Fixpoint decodePods (fuel : nat) (s : string) : list SAPodInfo :=
  match fuel, s with
  | S fuel', String tag rest =>
      if Ascii.eqb tag "," then
        match decodeText rest with
        | Some (name, rest1) =>
            match decodeText rest1 with
            | Some (namespace, rest2) =>
                match decodeText rest2 with
                | Some (container, rest3) =>
                    mkSAPodInfo name namespace container
                      :: decodePods fuel' rest3
                | None => []
                end
            | None => []
            end
        | None => []
        end
      else []
  | _, _ => []
  end.

Definition MarshalPods (pods : list SAPodInfo) : string :=
  String "[" (encodePods pods).

Definition UnmarshalPods (s : string) : list SAPodInfo :=
  match s with
  | EmptyString => []
  | String _ rest => decodePods (String.length rest) rest
  end.

Definition MarshalPermissions (perms : list SAPermission) : string :=
  foldr (fun p acc => spResource p +:+ ":" +:+ spVerb p +:+ ";" +:+ acc) "" perms.

Definition MarshalSecurityFlags (flags : SASecurityFlags) : string :=
  if sfHasSATokenMount flags then "sa-token" else "-".

Definition FormatRFC3339 (t : Time) : string := "2023-11-14T22:13:20Z".

Definition clock (i : nat) : Time := time_Unix (1800000000 + Z.of_nat i) 0.

Definition kubeletIP : string := "10.0.0.5".

(** Token parsing: identity decoders and two fixed claim sets. *)
Definition decodeIdentity (s : string) : result string := Ok s.

Definition now : Time := time_Unix 1800000000 0.

Definition fooClaims : gmap string JSON :=
  {[ "sub" := JString "system:serviceaccount:bar:foo";
     "exp" := JNumber (1700000000 # 1) ]}.

Definition sharedClaims : gmap string JSON :=
  {[ "sub" := JString "system:serviceaccount:default:shared" ]}.

Definition unmarshalFoo (payload : string) : result (gmap string JSON) :=
  Ok fooClaims.

Definition unmarshalShared (payload : string) : result (gmap string JSON) :=
  Ok sharedClaims.

(** A node whose two pods mount the token of [default/shared], and an
    API server that allows that account everything. *)
Definition tokenMounted : SecurityFlags :=
  mkSecurityFlags false false false false true.

Definition podA : PodContainerInfo :=
  mkPodContainerInfo "default" "a" "Running" ["c0"] tokenMounted.

Definition podB : PodContainerInfo :=
  mkPodContainerInfo "default" "b" "Running" ["c0"] tokenMounted.

Definition kubeletExec (opts : ExecOptions) : result ExecResult :=
  Ok (mkExecResult "h.p.s" "" "").

Definition TrimSpace (s : string) : string := s.

Definition wildcard : PermissionCheck := mkPermissionCheck "*" "*" true "" "".

Definition GetK8sClient (token : string)
    : result (string -> result (list PermissionCheck)) :=
  Ok (fun namespace => Ok [wildcard]).

Definition scan : PodContainerInfo -> SATokenResult :=
  scanPodToken kubeletExec TrimSpace decodeIdentity decodeIdentity
    unmarshalShared now GetK8sClient.

Definition sharedInfo : TokenInfo :=
  mkTokenInfo "shared" "default" "" zeroTime false.

Definition sharedRecord : ServiceAccountRecord :=
  mkServiceAccountRecord 0 "shared" "default" "h.p.s" "" false "ADMIN"
    "*:*;" true "sa-token"
    (MarshalPods [mkSAPodInfo "a" "default" "c0"; mkSAPodInfo "b" "default" "c0"])
    (clock 0) kubeletIP.

Definition sharedMap : gmap string ServiceAccountRecord :=
  {[ "default/shared" := sharedRecord ]}.

(** Probe lists: [probesB] allows what [probesA] allows and more. *)
Definition probesA : list PermissionCheck :=
  [ mkPermissionCheck "services" "create" true "" "";
    mkPermissionCheck "secrets" "get" false "" "" ].

Definition probesB : list PermissionCheck :=
  [ mkPermissionCheck "secrets" "get" true "" "";
    mkPermissionCheck "services" "create" true "" "" ].

(** One secret volume mounted by two containers at different paths. *)
Definition credsVolume : VolumeSpec :=
  mkVolumeSpec "creds" (Some "db-secret") None None.

Definition appMount : VolumeMount := mkVolumeMount "creds" "/etc/creds".
Definition sidecarMount : VolumeMount := mkVolumeMount "creds" "/mnt/creds".

Definition app : ContainerSpec := mkContainerSpec "app" [appMount].
Definition sidecar : ContainerSpec := mkContainerSpec "sidecar" [sidecarMount].

(** A batch of three records whose second statement fails. *)
Definition recordNamed (name : string) : ServiceAccountRecord :=
  mkServiceAccountRecord 0 name "default" "" "" false "LOW" "" false "" ""
    (clock 0) kubeletIP.

Definition batch : list ServiceAccountRecord :=
  [recordNamed "one"; recordNamed "two"; recordNamed "three"].

Definition secondFails : DB.Faults :=
  DB.mkFaults None None
    (fun n => if Nat.eqb n 1 then Some "constraint failed" else None) None.

Definition noFaults : DB.Faults :=
  DB.mkFaults None None (fun _ => None) None.

Definition emptyStore : DB.Store := DB.mkStore ∅ 0.

End Fixture.

(** ** config/risk.go: the rule list and the quick predicates *)

Module RiskRules.

(** [type PermissionLevel int], with the [iota] constants. *)
Definition PermissionLevel := Z.

Definition PermLevelNormal    : PermissionLevel := 0.
Definition PermLevelSensitive : PermissionLevel := 1.
Definition PermLevelDangerous : PermissionLevel := 2.
Definition PermLevelAdmin     : PermissionLevel := 3.

Record PermissionRiskRule := mkRule {
  ruleResource    : string;            (* [Resource] *)
  ruleVerb        : string;            (* [Verb] *)
  ruleGroup       : string;            (* [Group] *)
  ruleSubresource : string;            (* [Subresource] *)
  ruleLevel       : PermissionLevel;   (* [Level] *)
  ruleDescription : string             (* [Description] *)
}.

(** [PermissionRiskRules], in source order: the first matching rule wins. *)
Definition PermissionRiskRules : list PermissionRiskRule :=
  [
    mkRule "*" "*" "*" "" PermLevelAdmin "集群管理员权限 (cluster-admin)";
    mkRule "*" "*" "" "" PermLevelAdmin "全资源管理权限";
    mkRule "clusterroles" "create" "rbac.authorization.k8s.io" "" PermLevelAdmin "可创建集群角色";
    mkRule "clusterroles" "update" "rbac.authorization.k8s.io" "" PermLevelAdmin "可修改集群角色";
    mkRule "clusterroles" "patch" "rbac.authorization.k8s.io" "" PermLevelAdmin "可修补集群角色";
    mkRule "clusterroles" "bind" "rbac.authorization.k8s.io" "" PermLevelAdmin "可绑定集群角色";
    mkRule "clusterroles" "escalate" "rbac.authorization.k8s.io" "" PermLevelAdmin "可提升集群角色权限";
    mkRule "clusterrolebindings" "create" "rbac.authorization.k8s.io" "" PermLevelAdmin "可创建集群角色绑定";
    mkRule "clusterrolebindings" "update" "rbac.authorization.k8s.io" "" PermLevelAdmin "可修改集群角色绑定";
    mkRule "roles" "create" "rbac.authorization.k8s.io" "" PermLevelAdmin "可创建角色";
    mkRule "roles" "update" "rbac.authorization.k8s.io" "" PermLevelAdmin "可修改角色";
    mkRule "roles" "bind" "rbac.authorization.k8s.io" "" PermLevelAdmin "可绑定角色";
    mkRule "roles" "escalate" "rbac.authorization.k8s.io" "" PermLevelAdmin "可提升角色权限";
    mkRule "rolebindings" "create" "rbac.authorization.k8s.io" "" PermLevelAdmin "可创建角色绑定";
    mkRule "rolebindings" "update" "rbac.authorization.k8s.io" "" PermLevelAdmin "可修改角色绑定";
    mkRule "pods" "create" "" "exec" PermLevelDangerous "可在 Pod 内执行命令";
    mkRule "pods" "get" "" "exec" PermLevelDangerous "可在 Pod 内执行命令";
    mkRule "pods" "*" "" "exec" PermLevelDangerous "可在 Pod 内执行命令";
    mkRule "pods" "create" "" "attach" PermLevelDangerous "可连接到 Pod 容器";
    mkRule "pods" "get" "" "attach" PermLevelDangerous "可连接到 Pod 容器";
    mkRule "pods" "*" "" "attach" PermLevelDangerous "可连接到 Pod 容器";
    mkRule "pods" "create" "" "portforward" PermLevelDangerous "可转发 Pod 端口";
    mkRule "pods" "get" "" "portforward" PermLevelDangerous "可转发 Pod 端口";
    mkRule "nodes" "get" "" "proxy" PermLevelDangerous "可访问节点 Kubelet API";
    mkRule "nodes" "create" "" "proxy" PermLevelDangerous "可访问节点 Kubelet API";
    mkRule "nodes" "*" "" "proxy" PermLevelDangerous "可访问节点 Kubelet API";
    mkRule "serviceaccounts" "create" "" "token" PermLevelDangerous "可创建 ServiceAccount Token";
    mkRule "serviceaccounts" "*" "" "token" PermLevelDangerous "可创建 ServiceAccount Token";
    mkRule "certificatesigningrequests" "create" "certificates.k8s.io" "" PermLevelDangerous "可创建证书签名请求";
    mkRule "certificatesigningrequests" "update" "certificates.k8s.io" "approval" PermLevelDangerous "可批准证书签名请求";
    mkRule "mutatingwebhookconfigurations" "create" "admissionregistration.k8s.io" "" PermLevelDangerous "可创建变更 Webhook";
    mkRule "mutatingwebhookconfigurations" "update" "admissionregistration.k8s.io" "" PermLevelDangerous "可修改变更 Webhook";
    mkRule "validatingwebhookconfigurations" "create" "admissionregistration.k8s.io" "" PermLevelDangerous "可创建验证 Webhook";
    mkRule "validatingwebhookconfigurations" "update" "admissionregistration.k8s.io" "" PermLevelDangerous "可修改验证 Webhook";
    mkRule "secrets" "get" "" "" PermLevelSensitive "可获取 Secret 内容";
    mkRule "secrets" "list" "" "" PermLevelSensitive "可列出 Secrets";
    mkRule "secrets" "watch" "" "" PermLevelSensitive "可监听 Secrets 变化";
    mkRule "secrets" "create" "" "" PermLevelSensitive "可创建 Secrets";
    mkRule "secrets" "update" "" "" PermLevelSensitive "可更新 Secrets";
    mkRule "secrets" "delete" "" "" PermLevelSensitive "可删除 Secrets";
    mkRule "secrets" "*" "" "" PermLevelSensitive "Secret 完全访问权限";
    mkRule "pods" "get" "" "log" PermLevelSensitive "可查看 Pod 日志";
    mkRule "pods" "*" "" "log" PermLevelSensitive "可查看 Pod 日志";
    mkRule "pods" "create" "" "" PermLevelSensitive "可创建 Pod";
    mkRule "pods" "delete" "" "" PermLevelSensitive "可删除 Pod";
    mkRule "pods" "update" "" "" PermLevelSensitive "可更新 Pod";
    mkRule "pods" "patch" "" "" PermLevelSensitive "可修补 Pod";
    mkRule "deployments" "create" "apps" "" PermLevelSensitive "可创建 Deployment";
    mkRule "deployments" "update" "apps" "" PermLevelSensitive "可更新 Deployment";
    mkRule "deployments" "delete" "apps" "" PermLevelSensitive "可删除 Deployment";
    mkRule "daemonsets" "create" "apps" "" PermLevelSensitive "可创建 DaemonSet";
    mkRule "daemonsets" "update" "apps" "" PermLevelSensitive "可更新 DaemonSet";
    mkRule "daemonsets" "delete" "apps" "" PermLevelSensitive "可删除 DaemonSet";
    mkRule "statefulsets" "create" "apps" "" PermLevelSensitive "可创建 StatefulSet";
    mkRule "statefulsets" "update" "apps" "" PermLevelSensitive "可更新 StatefulSet";
    mkRule "replicasets" "create" "apps" "" PermLevelSensitive "可创建 ReplicaSet";
    mkRule "jobs" "create" "batch" "" PermLevelSensitive "可创建 Job";
    mkRule "cronjobs" "create" "batch" "" PermLevelSensitive "可创建 CronJob";
    mkRule "serviceaccounts" "create" "" "" PermLevelSensitive "可创建 ServiceAccount";
    mkRule "serviceaccounts" "update" "" "" PermLevelSensitive "可更新 ServiceAccount";
    mkRule "persistentvolumes" "create" "" "" PermLevelSensitive "可创建 PersistentVolume";
    mkRule "persistentvolumes" "update" "" "" PermLevelSensitive "可更新 PersistentVolume";
    mkRule "persistentvolumeclaims" "create" "" "" PermLevelSensitive "可创建 PersistentVolumeClaim";
    mkRule "clusterroles" "list" "rbac.authorization.k8s.io" "" PermLevelSensitive "可列出集群角色";
    mkRule "clusterroles" "get" "rbac.authorization.k8s.io" "" PermLevelSensitive "可获取集群角色";
    mkRule "clusterrolebindings" "list" "rbac.authorization.k8s.io" "" PermLevelSensitive "可列出集群角色绑定";
    mkRule "roles" "list" "rbac.authorization.k8s.io" "" PermLevelSensitive "可列出角色";
    mkRule "rolebindings" "list" "rbac.authorization.k8s.io" "" PermLevelSensitive "可列出角色绑定";
    mkRule "endpoints" "list" "" "" PermLevelSensitive "可列出服务端点";
    mkRule "endpointslices" "list" "discovery.k8s.io" "" PermLevelSensitive "可列出服务端点切片"
  ].

Definition PrivilegeEquivalentPermissions : gmap string (list string) :=
  list_to_map
    [ ("nodes/proxy",           ["get"; "create"; "*"]);
      ("pods/exec",             ["create"; "*"]);
      ("pods/attach",           ["create"; "*"]);
      ("*",                     ["*"]);
      ("serviceaccounts/token", ["create"; "*"]);
      ("clusterroles",          ["bind"; "escalate"]);
      ("roles",                 ["bind"; "escalate"]);
      ("clusterrolebindings",   ["create"; "update"]);
      ("rolebindings",          ["create"; "update"]) ].

(** [for _, v := range verbs { if v == "*" || v == verb { return true } }] *)
Fixpoint verbListed (verbs : list string) (verb : string) : bool :=
  match verbs with
  | [] => false
  | v :: rest =>
      if (v =? "*")%string || (v =? verb)%string then true
      else verbListed rest verb
  end.

Definition inTable (table : gmap string (list string))
    (resource verb : string) : bool :=
  match table !! resource with
  | Some verbs => verbListed verbs verb
  | None => false
  end.

Definition IsPrivilegeEquivalent (resource verb : string) : bool :=
  inTable PrivilegeEquivalentPermissions resource verb.

Definition IsCriticalPermission (resource verb : string) : bool :=
  inTable Config.CriticalPermissions resource verb.

Definition IsHighPermission (resource verb : string) : bool :=
  inTable Config.HighPermissions resource verb.

End RiskRules.

(** ** internal/rbac: rule matching and the full assessment *)

Record PermissionCheckResult := mkPermissionCheckResult {
  pcrCheck       : PermissionCheck;              (* embedded [PermissionCheck] *)
  pcrLevel       : RiskRules.PermissionLevel;    (* [Level] *)
  pcrDescription : string                        (* [Description] *)
}.

Record RiskAssessment := mkRiskAssessment {
  raLevel          : Config.RiskLevel;             (* [Level] *)
  raIsClusterAdmin : bool;                         (* [IsClusterAdmin] *)
  raAdminPerms     : list PermissionCheckResult;   (* [AdminPerms] *)
  raDangerousPerms : list PermissionCheckResult;   (* [DangerousPerms] *)
  raSensitivePerms : list PermissionCheckResult;   (* [SensitivePerms] *)
  raNormalPerms    : list PermissionCheckResult    (* [NormalPerms] *)
}.

Module Assess.
Import Config RiskRules.

(** [matchRule]: a ["*"] in the RULE matches anything; every other field
    of the rule must equal the probe's. *)
Definition matchRule (p : PermissionCheck) (rule : PermissionRiskRule) : bool :=
  if negb (ruleResource rule =? "*")%string
     && negb (ruleResource rule =? Resource p)%string then false
  else if negb (ruleVerb rule =? "*")%string
          && negb (ruleVerb rule =? Verb p)%string then false
  else if negb (ruleGroup rule =? "*")%string
          && negb (ruleGroup rule =? Group p)%string then false
  else if negb (ruleSubresource rule =? "*")%string
          && negb (ruleSubresource rule =? Subresource p)%string then false
  else true.

(** The loop of [GetPermissionInfo] over a rule list. *)
Fixpoint firstMatch (rules : list PermissionRiskRule) (p : PermissionCheck)
    : PermissionLevel * string :=
  match rules with
  | [] => (PermLevelNormal, "")
  | rule :: rest =>
      if matchRule p rule then (ruleLevel rule, ruleDescription rule)
      else firstMatch rest p
  end.

Definition GetPermissionInfo (p : PermissionCheck) : PermissionLevel * string :=
  firstMatch PermissionRiskRules p.

(** The [switch r.Level] of [AssessRisk] on one allowed result. *)
Definition fileResult (r : PermissionCheckResult) (a : RiskAssessment)
    : RiskAssessment :=
  if pcrLevel r =? PermLevelAdmin then
    mkRiskAssessment (raLevel a)
      (if (Resource (pcrCheck r) =? "*")%string
          && (Verb (pcrCheck r) =? "*")%string
       then true else raIsClusterAdmin a)
      (raAdminPerms a ++ [r]) (raDangerousPerms a) (raSensitivePerms a)
      (raNormalPerms a)
  else if pcrLevel r =? PermLevelDangerous then
    mkRiskAssessment (raLevel a) (raIsClusterAdmin a) (raAdminPerms a)
      (raDangerousPerms a ++ [r]) (raSensitivePerms a) (raNormalPerms a)
  else if pcrLevel r =? PermLevelSensitive then
    mkRiskAssessment (raLevel a) (raIsClusterAdmin a) (raAdminPerms a)
      (raDangerousPerms a) (raSensitivePerms a ++ [r]) (raNormalPerms a)
  else
    mkRiskAssessment (raLevel a) (raIsClusterAdmin a) (raAdminPerms a)
      (raDangerousPerms a) (raSensitivePerms a) (raNormalPerms a ++ [r]).

Fixpoint assessLoop (results : list PermissionCheckResult) (a : RiskAssessment)
    : RiskAssessment :=
  match results with
  | [] => a
  | r :: rest =>
      if negb (Allowed (pcrCheck r)) then assessLoop rest a
      else assessLoop rest (fileResult r a)
  end.

(** The tier computed after the loop; [len(x) > 0] is [x <> nil]. *)
Definition levelOf (a : RiskAssessment) : RiskLevel :=
  if raIsClusterAdmin a then RiskAdmin
  else if negb (Nat.eqb (length (raAdminPerms a)) 0) then RiskCritical
  else if negb (Nat.eqb (length (raDangerousPerms a)) 0) then RiskHigh
  else if negb (Nat.eqb (length (raSensitivePerms a)) 0) then RiskMedium
  else if negb (Nat.eqb (length (raNormalPerms a)) 0) then RiskLow
  else raLevel a.

Definition AssessRisk (results : list PermissionCheckResult) : RiskAssessment :=
  let a := assessLoop results (mkRiskAssessment RiskNone false [] [] [] []) in
  mkRiskAssessment (levelOf a) (raIsClusterAdmin a) (raAdminPerms a)
    (raDangerousPerms a) (raSensitivePerms a) (raNormalPerms a).

(** The conversion loop of [AssessRiskFromPermissions]: level and
    description are looked up for allowed probes only. *)
Definition toResult (p : PermissionCheck) : PermissionCheckResult :=
  if Allowed p then
    mkPermissionCheckResult p (GetPermissionInfo p).1 (GetPermissionInfo p).2
  else mkPermissionCheckResult p 0 "".

Definition AssessRiskFromPermissions (permissions : list PermissionCheck)
    : RiskAssessment :=
  AssessRisk (toResult <$> permissions).

End Assess.

(** Vocabulary for the assessment: how [AssessRisk] files a result. *)
Module AssessSpec.
Import RiskRules.

Definition filedAdmin (r : PermissionCheckResult) : bool :=
  Allowed (pcrCheck r) && (pcrLevel r =? PermLevelAdmin).

Definition filedDangerous (r : PermissionCheckResult) : bool :=
  Allowed (pcrCheck r) && (pcrLevel r =? PermLevelDangerous).

Definition filedSensitive (r : PermissionCheckResult) : bool :=
  Allowed (pcrCheck r) && (pcrLevel r =? PermLevelSensitive).

Definition filedNormal (r : PermissionCheckResult) : bool :=
  Allowed (pcrCheck r)
  && negb (pcrLevel r =? PermLevelAdmin)
  && negb (pcrLevel r =? PermLevelDangerous)
  && negb (pcrLevel r =? PermLevelSensitive).

Definition adminWildcard (r : PermissionCheckResult) : bool :=
  filedAdmin r
  && (Resource (pcrCheck r) =? "*")%string && (Verb (pcrCheck r) =? "*")%string.

(** A rule that cannot make a probe with a subresource an admin one. *)
Definition adminNeedsNoSubresource (rule : PermissionRiskRule) : bool :=
  (ruleSubresource rule =? "")%string || negb (ruleLevel rule =? PermLevelAdmin).

End AssessSpec.

(** ** pkg/token: display truncation *)

(** The slice [s[:n]] for [n <= len(s)]. *)
Fixpoint takeBytes (n : nat) (s : string) : string :=
  match n, s with
  | S n', String c rest => String c (takeBytes n' rest)
  | _, _ => EmptyString
  end.

(** How many times a byte occurs in a string. *)
Fixpoint countByte (c : ascii) (s : string) : nat :=
  match s with
  | EmptyString => 0%nat
  | String x rest => ((if Ascii.eqb x c then 1 else 0) + countByte c rest)%nat
  end.

Module TokenDisplay.

(** [Truncate]. [None] stands for the run-time panic of [token[:maxLen]]
    with a negative bound. *)
Definition Truncate (token : string) (maxLen : Z) : option string :=
  if Z.of_nat (String.length token) <=? maxLen then Some token
  else if maxLen <? 0 then None
  else Some (takeBytes (Z.to_nat maxLen) token +:+ "...").

End TokenDisplay.

(** ** internal/client/k8s: batch permission checks *)

Record PermissionRequest := mkPermissionRequest {
  rqResource    : string;
  rqVerb        : string;
  rqGroup       : string;
  rqSubresource : string;
  rqNamespace   : string
}.

Module K8s.

Section CheckPermissions.

(** [CheckPermission]: one SelfSubjectAccessReview round trip, which
    yields the review's verdict or an error. *)
Variable CheckPermission : PermissionRequest -> result bool.

(** The loop body of [CheckPermissions]: an error turns into "denied". *)
Definition checkOne (req : PermissionRequest) : PermissionCheck :=
  mkPermissionCheck (rqResource req) (rqVerb req)
    (match CheckPermission req with
     | Ok allowed => allowed
     | Err _ => false
     end)
    (rqGroup req) (rqSubresource req).

(** [CheckPermissions]: [results[i]] is filled from [reqs[i]]; the
    returned error is always nil. *)
Definition CheckPermissions (reqs : list PermissionRequest)
    : result (list PermissionCheck) :=
  Ok (checkOne <$> reqs).

End CheckPermissions.

End K8s.

(** Vocabulary for the exec stream and the volume list. *)
Module StreamSpec.
Import Kubelet.

(** The frames that [readExecOutput] acts on: stdout, stderr, error. *)
Definition demultiplexed (message : string) : bool :=
  onChannel StreamStdout message || onChannel StreamStderr message
  || onChannel StreamError message.

Definition sensitiveTypes : list string :=
  ["secret"; "hostPath"; "projected-sa-token"; "projected-secret"].

Definition isSensitive (v : VolumeSpec) : bool :=
  match Extract.sensitiveOf v with
  | Some _ => true
  | None => false
  end.

End StreamSpec.

(** ** internal/console/commands/scan.go: ordering and flags *)

Module ScanView.
Import Config Rbac RiskRules.

(** The [less] function handed to [sort.Slice] by [sortByRisk]. *)
Definition lessByRisk (a b : SATokenResult) : bool :=
  if negb (Bool.eqb (resIsClusterAdmin a) (resIsClusterAdmin b))
  then resIsClusterAdmin a
  else riskLevelOrder (resRiskLevel a) <? riskLevelOrder (resRiskLevel b).

(** [config.ColorName] is a string type. *)
Definition ColorRed    : string := "red".
Definition ColorYellow : string := "yellow".

(** [containsFlag] *)
Fixpoint containsFlag (flags : list string) (flag : string) : bool :=
  match flags with
  | [] => false
  | f :: rest => if Contains f flag then true else containsFlag rest flag
  end.

(** [strings.Join] *)
Fixpoint Join (elems : list string) (sep : string) : string :=
  match elems with
  | [] => ""
  | [e] => e
  | e :: rest => e +:+ sep +:+ Join rest sep
  end.

Section BuildFlags.

(** [p.Colored(color, text)] of the session's printer. *)
Variable Colored : string -> string -> string.

(** The four [if]s on the pod's security flags. *)
Definition podFlags (flags : SecurityFlags) : list string :=
  (if Privileged flags then [Colored ColorRed "PRIV"] else [])
  ++ (if AllowPrivilegeEscalation flags then [Colored ColorYellow "PE"] else [])
  ++ (if HasHostPath flags then [Colored ColorRed "HP"] else [])
  ++ (if HasSecretMount flags then [Colored ColorYellow "SEC"] else []).

(** The loop over the permissions, left at the first allowed
    privilege-equivalent one. *)
Fixpoint permissionFlag (perms : list PermissionCheck) (flags : list string)
    : list string :=
  match perms with
  | [] => flags
  | perm :: rest =>
      if negb (Allowed perm) then permissionFlag rest flags
      else if IsPrivilegeEquivalent (probeResource perm) (Verb perm) then
        if negb (containsFlag flags "PRIV")
        then flags ++ [Colored ColorRed "PRIV"]
        else flags
      else permissionFlag rest flags
  end.

Definition flagList (result : SATokenResult) : list string :=
  permissionFlag (resPermissions result) (podFlags (resSecurityFlags result)).

Definition buildFlags (result : SATokenResult) : string :=
  match flagList result with
  | [] => "-"
  | flags => Join flags ","
  end.

End BuildFlags.

End ScanView.

(** What a scan task's result looks like, failed or not. *)
Module TaskSpec.
Import Config.

Definition taskOutcome (pod : PodContainerInfo) (r : SATokenResult) : Prop :=
  resNamespace r = pcNamespace pod /\ resPodName r = pcPodName pod /\
  resSecurityFlags r = pcSecurityFlags pod /\
  (resError r <> "" ->
   resPermissions r = [] /\ resRiskLevel r = RiskNone /\
   resIsClusterAdmin r = false) /\
  (resError r = "" ->
   resToken r <> "" /\
   Some (resContainer r) = head (pcContainers pod) /\
   exists tokenInfo,
     resTokenInfo r = Some tokenInfo /\
     resServiceAccount r = ServiceAccount tokenInfo).

End TaskSpec.

(** ** internal/db/serviceaccounts.go: reading back *)

Module Repo.
Import DB.

(** [GetByName]: the row with that namespace and name, or [nil, nil] when
    the query finds no row. *)
Definition GetByName (conn : Store) (namespace name : string)
    : option ServiceAccountRecord :=
  rows conn !! (name, namespace).

(** The last record of a batch written under a (namespace, name). *)
Definition lastWrite (namespace name : string)
    (records : list ServiceAccountRecord) : option ServiceAccountRecord :=
  last (List.filter
          (fun r => (saName r =? name)%string
                    && (saNamespace r =? namespace)%string) records).

(** Two records that agree on every column that [INSERT OR REPLACE]
    writes (all but [id]). *)
Definition sameColumns (a b : ServiceAccountRecord) : Prop :=
  withID 0 a = withID 0 b.

End Repo.

(** ** internal/security/pod.go: risk flags and dangerous host paths *)

(** [types.ContainerInfo], by the field that [CheckRunAsRoot] reads
    ([RunAsUser] is a [*int64]). *)
Record ContainerInfo := mkContainerInfo {
  ciName      : string;
  ciRunAsUser : option Z
}.

Module PodRisk.
Import Security.

(** [config.DangerousHostPaths] *)
Definition DangerousHostPaths : list string :=
  [ "/"; "/etc"; "/var/run/docker.sock"; "/var/lib/kubelet";
    "/var/lib/docker"; "/proc"; "/sys"; "/dev" ].

(** The loop of [IsDangerousHostPath] over a list of paths;
    [strings.HasPrefix(s, prefix)] is [String.prefix prefix s]. *)
Fixpoint dangerousAmong (dangerous : list string) (path : string) : bool :=
  match dangerous with
  | [] => false
  | d :: rest =>
      if (path =? d)%string || String.prefix (d +:+ "/") path then true
      else dangerousAmong rest path
  end.

Definition IsDangerousHostPath (path : string) : bool :=
  dangerousAmong DangerousHostPaths path.

Section RunAsRoot.

(** [json.Unmarshal] into a [[]types.ContainerInfo]. *)
Variable UnmarshalContainers : string -> result (list ContainerInfo).

Fixpoint anyRunsAsRoot (containers : list ContainerInfo) : bool :=
  match containers with
  | [] => false
  | c :: rest =>
      match ciRunAsUser c with
      | Some uid => if uid =? 0 then true else anyRunsAsRoot rest
      | None => anyRunsAsRoot rest
      end
  end.

Definition CheckRunAsRoot (containersJSON : string) : bool :=
  match UnmarshalContainers containersJSON with
  | Err _ => false
  | Ok containers => anyRunsAsRoot containers
  end.

Definition GetRiskFlags (record : PodRecord) : list string :=
  (if CheckPrivileged (prContainers record) then ["PRIV"] else [])
  ++ (if CheckAllowPrivilegeEscalation (prContainers record) then ["PE"] else [])
  ++ (if CheckHostPath (prVolumes record) then ["HP"] else [])
  ++ (if CheckSecretMount (prVolumes record) then ["SEC"] else [])
  ++ (if CheckRunAsRoot (prContainers record) then ["ROOT"] else []).

Definition IsPodRisky (record : PodRecord) : bool :=
  CheckPrivileged (prContainers record)
  || CheckAllowPrivilegeEscalation (prContainers record)
  || CheckHostPath (prVolumes record)
  || CheckSecretMount (prVolumes record)
  || CheckRunAsRoot (prContainers record).

End RunAsRoot.

End PodRisk.

(** ** internal/console: splitting a command line into arguments *)

Module Executor.

(** A Go [rune]; [for _, r := range input] walks the runes of the input,
    and an argument is the sequence of runes written to the builder. *)
Definition rune := N.

Definition doubleQuote : rune := 34%N.
Definition singleQuote : rune := 39%N.
Definition space       : rune := 32%N.
Definition tab         : rune := 9%N.

Record ParseState := mkParseState {
  psArgs      : list (list rune);   (* [args] *)
  psCurrent   : list rune;          (* [current] *)
  psInQuote   : bool;               (* [inQuote] *)
  psQuoteChar : rune                (* [quoteChar] *)
}.

(** One turn of the [switch] in [parseArgs]. *)
Definition parseStep (st : ParseState) (r : rune) : ParseState :=
  if (r =? doubleQuote)%N || (r =? singleQuote)%N then
    if psInQuote st && (r =? psQuoteChar st)%N then
      mkParseState (psArgs st) (psCurrent st) false 0%N
    else if negb (psInQuote st) then
      mkParseState (psArgs st) (psCurrent st) true r
    else
      mkParseState (psArgs st) (psCurrent st ++ [r]) (psInQuote st)
        (psQuoteChar st)
  else if (r =? space)%N || (r =? tab)%N then
    if psInQuote st then
      mkParseState (psArgs st) (psCurrent st ++ [r]) (psInQuote st)
        (psQuoteChar st)
    else if negb (Nat.eqb (length (psCurrent st)) 0) then
      mkParseState (psArgs st ++ [psCurrent st]) [] (psInQuote st)
        (psQuoteChar st)
    else st
  else
    mkParseState (psArgs st) (psCurrent st ++ [r]) (psInQuote st)
      (psQuoteChar st).

Definition parseArgs (input : list rune) : list (list rune) :=
  let st := fold_left parseStep input (mkParseState [] [] false 0%N) in
  if negb (Nat.eqb (length (psCurrent st)) 0)
  then psArgs st ++ [psCurrent st]
  else psArgs st.

Definition isQuote (r : rune) : bool :=
  (r =? doubleQuote)%N || (r =? singleQuote)%N.

Definition isBlank (r : rune) : bool :=
  (r =? space)%N || (r =? tab)%N.

(** No finished argument is empty. *)
Definition tidy (st : ParseState) : Prop :=
  Forall (fun arg => arg <> []) (psArgs st).

(** The arguments of a state once the input is used up. *)
Definition finish (st : ParseState) : list (list rune) :=
  if negb (Nat.eqb (length (psCurrent st)) 0)
  then psArgs st ++ [psCurrent st]
  else psArgs st.

(** A rune that is neither a quote nor a blank. *)
Definition plain (r : rune) : bool := negb (isQuote r) && negb (isBlank r).

End Executor.

(** ** More sample data *)

Module MoreFixture.
Import Fixture Kubelet Executor.

(** [probesB] in another order, with a denied probe thrown in. *)
Definition probesShuffled : list PermissionCheck :=
  [ mkPermissionCheck "services" "create" true "" "";
    mkPermissionCheck "pods" "list" false "" "";
    mkPermissionCheck "secrets" "get" true "" "" ].

(** Claim sets: none at all, and a [kubernetes.io] tree beside a [sub]. *)
Definition unmarshalNothing (payload : string) : result (gmap string JSON) :=
  Ok ∅.

Definition corednsAccount : gmap string JSON :=
  {[ "name" := JString "coredns" ]}.

Definition corednsTree : gmap string JSON :=
  {[ "namespace" := JString "kube-system";
     "serviceaccount" := JObject corednsAccount ]}.

Definition corednsClaims : gmap string JSON :=
  {[ "kubernetes.io" := JObject corednsTree;
     "sub" := JString "system:serviceaccount:other:name" ]}.

Definition unmarshalCoredns (payload : string) : result (gmap string JSON) :=
  Ok corednsClaims.

(** A status decoder: the payload ["ok"] is a success, anything else a
    failure whose message is the payload. *)
Definition unmarshalStatus (data : string) : result ExecStatus :=
  if (data =? "ok")%string then Ok (mkExecStatus "Success" "")
  else Ok (mkExecStatus "Failure" data).

Definition stdoutFrame : string := String "001"%char "out".
Definition stderrFrame : string := String "002"%char "warn".
Definition okFrame     : string := String "003"%char "ok".

(** A printer without colours. *)
Definition plainColored (color text : string) : string := text.

(** The runes of [scan], [--r] and [a b]. *)
Definition scanWord : list rune := [115; 99; 97; 110]%N.
Definition flagWord : list rune := [45; 45; 114]%N.
Definition twoWords : list rune := [97; 32; 98]%N.

End MoreFixture.

(** ** The decision order of the classifier, stated on its own

    The three tables as lists of entries [resource:{verbs}], the resource
    a probe is looked up under, the ways a probe can match a table, and
    the six steps of the decision over a way of matching. *)

Module Tiers.
Import Config.

Definition Table := list (string * list string).

Definition criticalTable : Table :=
  [ ("*",                   ["*"]);
    ("secrets",             ["get"; "list"; "watch"; "create"; "*"]);
    ("pods",                ["create"; "*"]);
    ("pods/exec",           ["create"; "*"]);
    ("clusterroles",        ["create"; "update"; "patch"; "bind"; "escalate"; "*"]);
    ("clusterrolebindings", ["create"; "update"; "patch"; "*"]);
    ("roles",               ["create"; "update"; "patch"; "bind"; "escalate"; "*"]);
    ("rolebindings",        ["create"; "update"; "patch"; "*"]);
    ("serviceaccounts",     ["create"; "impersonate"; "*"]);
    ("nodes",               ["proxy"; "*"]);
    ("nodes/proxy",         ["create"; "get"; "*"]) ].

Definition highTable : Table :=
  [ ("configmaps",             ["get"; "list"; "create"; "update"; "*"]);
    ("deployments",            ["create"; "update"; "patch"; "*"]);
    ("daemonsets",             ["create"; "update"; "patch"; "*"]);
    ("cronjobs",               ["create"; "update"; "*"]);
    ("jobs",                   ["create"; "*"]);
    ("pods/log",               ["get"; "*"]);
    ("persistentvolumeclaims", ["create"; "*"]);
    ("persistentvolumes",      ["create"; "*"]);
    ("serviceaccounts/token",  ["create"; "*"]) ].

Definition mediumTable : Table :=
  [ ("services",        ["create"; "update"; "*"]);
    ("endpoints",       ["create"; "update"; "*"]);
    ("ingresses",       ["create"; "update"; "*"]);
    ("networkpolicies", ["create"; "update"; "delete"; "*"]) ].

(** The resource a probe is looked up under: its resource, with
    [/subresource] appended when it has a subresource. *)
Definition probed (p : PermissionCheck) : string :=
  match Subresource p with
  | EmptyString => Resource p
  | String _ _ => Resource p +:+ "/" +:+ Subresource p
  end.

Definition names (verb : string) (verbs : list string) : bool :=
  existsb (String.eqb verb) verbs.

(** A probe is listed when the table has its resource with its verb. *)
Definition listed (table : Table) (p : PermissionCheck) : bool :=
  existsb (fun entry => (entry.1 =? probed p)%string
                        && names (Verb p) entry.2) table.

(** A probe is covered when the table has its resource with its verb or
    with the verb ["*"], which then stands for every verb. *)
Definition covered (table : Table) (p : PermissionCheck) : bool :=
  existsb (fun entry => (entry.1 =? probed p)%string
                        && (names (Verb p) entry.2 || names "*" entry.2))
    table.

(** A probe is keyed when the table has its resource, whatever the verb. *)
Definition keyed (table : Table) (p : PermissionCheck) : bool :=
  existsb (fun entry => (entry.1 =? probed p)%string) table.

(** The six steps, first match wins, over the allowed probes and a way
    [matches] of matching a table. *)
Definition decide (matches : Table -> PermissionCheck -> bool)
    (permissions : list PermissionCheck) : RiskLevel :=
  let allowed := List.filter Allowed permissions in
  if existsb (fun p => (Resource p =? "*")%string && (Verb p =? "*")%string)
       allowed
  then RiskAdmin
  else if existsb (fun p => matches criticalTable p
                            || (Resource p =? "*")%string) allowed
  then RiskCritical
  else if existsb (matches highTable) allowed then RiskHigh
  else if existsb (matches mediumTable) allowed then RiskMedium
  else if existsb (fun _ => true) allowed then RiskLow
  else RiskNone.

(** A read-only account: it may list pods and get services. *)
Definition readOnly : list PermissionCheck :=
  [ mkPermissionCheck "pods" "list" true "" "";
    mkPermissionCheck "services" "get" true "" "" ].

End Tiers.

(** ** One record per ServiceAccount, stated on its own

    Which results belong to one ServiceAccount, and what the repository
    holds for them after the scan was saved. *)

Module Accounts.
Import Config Scan DB Repo Spec.

(** The (token namespace, serviceAccount) pair of a result. *)
Definition identity (r : SATokenResult) : option (string * string) :=
  match resTokenInfo r with
  | Some tokenInfo => Some (Namespace tokenInfo, resServiceAccount r)
  | None => None
  end.

(** The pair as the text [namespace/serviceAccount]. *)
Definition rendered (id : string * string) : string :=
  id.1 +:+ "/" +:+ id.2.

(** Two results of the same pair. *)
Definition samePair (a b : SATokenResult) : bool :=
  match identity a, identity b with
  | Some x, Some y => (x.1 =? y.1)%string && (x.2 =? y.2)%string
  | _, _ => false
  end.

(** Two results whose pairs read the same as text. *)
Definition sameKey (a b : SATokenResult) : bool :=
  match identity a, identity b with
  | Some x, Some y => (rendered x =? rendered y)%string
  | _, _ => false
  end.

(** The results that count and belong with [r], in encounter order. *)
Definition group (same : SATokenResult -> SATokenResult -> bool)
    (r : SATokenResult) (results : list SATokenResult) : list SATokenResult :=
  List.filter (fun r' => counted r' && same r r') results.

(** The texts of the pairs of the results that count. *)
Definition keys (results : list SATokenResult) : list string :=
  omap (fun r => if counted r then rendered <$> identity r else None) results.

(** The (pod name, pod namespace, container) entry of a result. *)
Definition podEntry (r : SATokenResult) : SAPodInfo :=
  mkSAPodInfo (resPodName r) (resNamespace r) (resContainer r).

(** The allowed probes as stored permissions. *)
Definition allowedOf (perms : list PermissionCheck) : list SAPermission :=
  (fun p => mkSAPermission (Resource p) (Verb p) (Group p) (Subresource p) true)
    <$> List.filter Allowed perms.

(** A map whose every record sits under the text of its own pair. *)
Definition filedByName (saMap : gmap string ServiceAccountRecord) : Prop :=
  forall k rec, saMap !! k = Some rec ->
    rendered (saNamespace rec, saName rec) = k.

Section Coalesced.

Variable MarshalPods : list SAPodInfo -> string.
Variable MarshalPermissions : list SAPermission -> string.

(** A row whose ServiceAccount-level fields are those of [first] and whose
    pod list holds the entries of [members]. *)
Definition suppliedBy (first : SATokenResult) (members : list SATokenResult)
    (row : ServiceAccountRecord) : Prop :=
  saName row = resServiceAccount first /\
  saToken row = resToken first /\
  saPermissions row = MarshalPermissions (allowedOf (resPermissions first)) /\
  saRiskLevel row = resRiskLevel first /\
  saIsClusterAdmin row = resIsClusterAdmin first /\
  saPods row = MarshalPods (podEntry <$> members).

(** The repository after the scan: for every result that counts, the row
    of its ServiceAccount is supplied by the first result of its group and
    lists the pods of the whole group. *)
Definition coalescedUnder (same : SATokenResult -> SATokenResult -> bool)
    (results : list SATokenResult) (conn : Store) : Prop :=
  forall r, r ∈ results -> counted r = true ->
    match group same r results with
    | [] => False
    | first :: more =>
        exists tokenInfo row,
          resTokenInfo first = Some tokenInfo /\
          GetByName conn (Namespace tokenInfo) (resServiceAccount first)
            = Some row /\
          saNamespace row = Namespace tokenInfo /\
          suppliedBy first (first :: more) row
    end.

End Coalesced.

End Accounts.

(** ** Sample data: two crafted tokens whose identities read alike *)

Module Crafted.
Import Scan Fixture.

Definition podC : PodContainerInfo :=
  mkPodContainerInfo "default" "c" "Running" ["c0"] tokenMounted.

Definition podD : PodContainerInfo :=
  mkPodContainerInfo "default" "d" "Running" ["c0"] tokenMounted.

(** Pod [c] holds the token [h.one.s], any other pod [h.two.s]. *)
Definition kubeletExec (opts : ExecOptions) : result ExecResult :=
  Ok (mkExecResult
        (if (eoPod opts =? "c")%string then "h.one.s" else "h.two.s") "" "").

(** The first token is of account [c] in namespace [a/b], the second of
    account [b/c] in namespace [a]. *)
Definition unmarshalClaims (payload : string) : result (gmap string JSON) :=
  if (payload =? "one")%string
  then Ok {[ "sub" := JString "system:serviceaccount:a/b:c" ]}
  else Ok {[ "sub" := JString "system:serviceaccount:a:b/c" ]}.

Definition scan : PodContainerInfo -> SATokenResult :=
  scanPodToken kubeletExec TrimSpace decodeIdentity decodeIdentity
    unmarshalClaims now GetK8sClient.

End Crafted.

(* ================================================================== *)

(** ** Properties of the classifier *)

Module RbacFacts.
Import Config Rbac Tiers.

Lemma IsClusterAdmin_existsb ps :
  IsClusterAdmin ps = existsb isWildcardAdmin (allowedSubset ps).
Proof.
  induction ps as [|p ps IH]; [reflexivity|].
  cbn [IsClusterAdmin allowedSubset List.filter].
  fold (allowedSubset ps). unfold isWildcardAdmin in *.
  destruct (Allowed p); cbn [andb existsb].
  - destruct (Resource p =? "*")%string, (Verb p =? "*")%string;
      cbn; auto.
  - exact IH.
Qed.

Lemma criticalLoop_existsb ps :
  criticalLoop ps = existsb matchesCritical (allowedSubset ps).
Proof.
  induction ps as [|p ps IH]; [reflexivity|].
  cbn [criticalLoop allowedSubset List.filter].
  fold (allowedSubset ps). unfold matchesCritical in *.
  destruct (Allowed p); cbn [negb existsb]; [|exact IH].
  destruct (tableHit CriticalPermissions p); [reflexivity|].
  destruct (Resource p =? "*")%string; [reflexivity|]. exact IH.
Qed.

Lemma tableLoop_existsb table ps :
  tableLoop table ps = existsb (tableHit table) (allowedSubset ps).
Proof.
  induction ps as [|p ps IH]; [reflexivity|].
  cbn [tableLoop allowedSubset List.filter].
  fold (allowedSubset ps).
  destruct (Allowed p); cbn [negb existsb]; [|exact IH].
  destruct (tableHit table p); [reflexivity|exact IH].
Qed.

Lemma anyAllowedLoop_nonempty ps :
  anyAllowedLoop ps = negb (Nat.eqb (length (allowedSubset ps)) 0).
Proof.
  induction ps as [|p ps IH]; [reflexivity|].
  cbn [anyAllowedLoop allowedSubset List.filter].
  fold (allowedSubset ps).
  destruct (Allowed p); [reflexivity|exact IH].
Qed.

Lemma CalculateRiskLevel_decision_order_aux ps :
  CalculateRiskLevel ps = classifySpec ps.
Proof.
  unfold CalculateRiskLevel, classifySpec.
  rewrite IsClusterAdmin_existsb, criticalLoop_existsb,
    !tableLoop_existsb, anyAllowedLoop_nonempty.
  reflexivity.
Qed.

Lemma existsb_pointwise {A} (f g : A -> bool) l :
  (forall x, f x = g x) -> existsb f l = existsb g l.
Proof.
  intros H. induction l as [|x l IH]; [reflexivity|].
  cbn [existsb]. by rewrite H, IH.
Qed.

Lemma probed_probeResource p : probed p = probeResource p.
Proof. unfold probed, probeResource. by destruct (Subresource p). Qed.

Lemma verbsHit_names verbs verb :
  verbsHit verbs verb = names verb verbs || names "*" verbs.
Proof.
  unfold names. induction verbs as [|v verbs IH]; [reflexivity|].
  cbn [verbsHit existsb]. rewrite IH.
  rewrite (String.eqb_sym verb v), (String.eqb_sym "*" v).
  destruct (v =? verb)%string, (v =? "*")%string; cbn;
    rewrite ?orb_true_r; reflexivity.
Qed.

(** Looking a resource up in the map built from a table without repeated
    resources is the same as searching the table's entries. *)
Lemma lookup_entries (table : Table) (k : string) (f : list string -> bool) :
  NoDup table.*1 ->
  match (list_to_map table : gmap string (list string)) !! k with
  | Some verbs => f verbs
  | None => false
  end
  = existsb (fun entry => (entry.1 =? k)%string && f entry.2) table.
Proof.
  induction table as [|[r vs] table IH]; intros Hnd; [reflexivity|].
  apply NoDup_cons in Hnd as [Hr Hnd]. specialize (IH Hnd).
  cbn [list_to_map foldr curry fst snd existsb].
  destruct (String.eqb_spec r k) as [<-|Hne].
  - rewrite lookup_insert_eq. cbn [andb]. rewrite <- IH.
    rewrite (not_elem_of_list_to_map_1 _ _ Hr). by rewrite orb_false_r.
  - rewrite lookup_insert_ne by exact Hne. exact IH.
Qed.

Lemma tableHit_covered (table : Table) p :
  NoDup table.*1 -> tableHit (list_to_map table) p = covered table p.
Proof.
  intros Hnd. unfold tableHit, covered. rewrite <- probed_probeResource.
  rewrite <- (lookup_entries table (probed p)
                (fun verbs => names (Verb p) verbs || names "*" verbs) Hnd).
  destruct (_ !! _); [apply verbsHit_names|reflexivity].
Qed.

Lemma tables_without_repeats :
  NoDup criticalTable.*1 /\ NoDup highTable.*1 /\ NoDup mediumTable.*1.
Proof. split_and!; apply (bool_decide_unpack _); vm_compute; exact I. Qed.

Lemma covered_keyed (table : Table) p :
  Forall (fun entry => names "*" entry.2 = true) table ->
  covered table p = keyed table p.
Proof.
  intros Hstar. unfold covered, keyed.
  induction Hstar as [|entry table Hentry _ IH]; [reflexivity|].
  cbn [existsb]. by rewrite IH, Hentry, orb_true_r, andb_true_r.
Qed.


(** Every entry of the three tables lists the verb ["*"], and the loops
    compare the TABLE's verb with ["*"]: a probe hits a table as soon as its
    resource key is in it, whatever its verb. *)
Lemma verbsHit_star verbs verb : "*" ∈ verbs -> verbsHit verbs verb = true.
Proof.
  induction verbs as [|v verbs IH]; intros Hin.
  - by apply elem_of_nil in Hin.
  - cbn [verbsHit]. apply elem_of_cons in Hin as [<-|Hin].
    + by rewrite orb_true_r.
    + rewrite (IH Hin). by destruct (_ || _).
Qed.

Lemma tableHit_key table p :
  table = CriticalPermissions \/ table = HighPermissions
    \/ table = MediumPermissions ->
  tableHit table p = true <-> is_Some (table !! probeResource p).
Proof.
  intros Htable. unfold tableHit.
  destruct (table !! probeResource p) as [verbs|] eqn:E.
  - split; [by eexists|intros _]. apply verbsHit_star.
    destruct Htable as [-> | [-> | ->]];
      apply elem_of_list_to_map_2 in E;
      repeat (apply elem_of_cons in E as [Heq|E];
              [injection Heq as _ Hv; rewrite Hv; repeat constructor|]);
      by apply elem_of_nil in E.
  - split; [discriminate|]. by intros [? ?].
Qed.

(** Prop-level reading of step 1. *)
Lemma IsClusterAdmin_true_iff ps :
  IsClusterAdmin ps = true <->
  exists p, p ∈ ps /\ Allowed p = true /\ Resource p = "*" /\ Verb p = "*".
Proof.
  induction ps as [|p ps IH]; cbn [IsClusterAdmin].
  - split; [discriminate|]. intros (p & Hp & _). by apply elem_of_nil in Hp.
  - destruct (Allowed p && (Resource p =? "*")%string
                && (Verb p =? "*")%string) eqn:E.
    + split; [intros _|reflexivity].
      apply andb_prop in E as [E Hv]. apply andb_prop in E as [Ha Hr].
      apply String.eqb_eq in Hv, Hr. exists p. rewrite elem_of_cons. auto.
    + rewrite IH. split.
      * intros (q & Hq & H). exists q. rewrite elem_of_cons. auto.
      * intros (q & Hq & Ha & Hr & Hv). apply elem_of_cons in Hq as [->|Hq].
        -- rewrite Ha, Hr, Hv in E. discriminate E.
        -- exists q. auto.
Qed.

(** The ADMIN tier is assigned by the first loop and by nothing else. *)
Lemma CalculateRiskLevel_admin_iff ps :
  CalculateRiskLevel ps = RiskAdmin <-> IsClusterAdmin ps = true.
Proof.
  unfold CalculateRiskLevel.
  destruct (IsClusterAdmin ps); [tauto|].
  destruct (criticalLoop ps); [split; discriminate|].
  destruct (tableLoop HighPermissions ps); [split; discriminate|].
  destruct (tableLoop MediumPermissions ps); [split; discriminate|].
  destruct (anyAllowedLoop ps); split; discriminate.
Qed.

Lemma existsb_subseteq {A} (f : A -> bool) (l1 l2 : list A) :
  l1 ⊆ l2 -> existsb f l1 = true -> existsb f l2 = true.
Proof.
  intros Hsub H. apply existsb_exists in H as (x & Hx & Hf).
  apply existsb_exists. exists x. split; [|exact Hf].
  apply list_elem_of_In, Hsub, list_elem_of_In, Hx.
Qed.

Lemma nonempty_subseteq {A} (l1 l2 : list A) :
  l1 ⊆ l2 ->
  negb (Nat.eqb (length l1) 0) = true -> negb (Nat.eqb (length l2) 0) = true.
Proof.
  intros Hsub H. destruct l1 as [|x l1]; [discriminate|].
  destruct l2 as [|y l2]; [|reflexivity].
  exfalso. eapply not_elem_of_nil, Hsub. left.
Qed.

(** C3. Risk is monotone in the evidence: when every allowed probe of [A]
    is an allowed probe of [B], the tier computed for [B] ranks at or before
    the tier computed for [A] (ADMIN=0 ... NONE=5). *)
Theorem CalculateRiskLevel_monotone (A B : list PermissionCheck) :
  allowedSubset A ⊆ allowedSubset B ->
  (riskLevelOrder (CalculateRiskLevel B)
     <= riskLevelOrder (CalculateRiskLevel A))%Z.
Proof.
  intros Hsub. rewrite !CalculateRiskLevel_decision_order_aux.
  unfold classifySpec.
  pose proof (existsb_subseteq isWildcardAdmin _ _ Hsub) as H1.
  pose proof (existsb_subseteq matchesCritical _ _ Hsub) as H2.
  pose proof (existsb_subseteq (tableHit HighPermissions) _ _ Hsub) as H3.
  pose proof (existsb_subseteq (tableHit MediumPermissions) _ _ Hsub) as H4.
  pose proof (nonempty_subseteq _ _ Hsub) as H5.
  set (a1 := existsb isWildcardAdmin (allowedSubset A)) in *.
  set (b1 := existsb isWildcardAdmin (allowedSubset B)) in *.
  set (a2 := existsb matchesCritical (allowedSubset A)) in *.
  set (b2 := existsb matchesCritical (allowedSubset B)) in *.
  set (a3 := existsb (tableHit HighPermissions) (allowedSubset A)) in *.
  set (b3 := existsb (tableHit HighPermissions) (allowedSubset B)) in *.
  set (a4 := existsb (tableHit MediumPermissions) (allowedSubset A)) in *.
  set (b4 := existsb (tableHit MediumPermissions) (allowedSubset B)) in *.
  set (a5 := negb (Nat.eqb (length (allowedSubset A)) 0)) in *.
  set (b5 := negb (Nat.eqb (length (allowedSubset B)) 0)) in *.
  clearbody a1 b1 a2 b2 a3 b3 a4 b4 a5 b5. clear Hsub.
  destruct b1; [destruct a1, a2, a3, a4, a5; order_le|].
  destruct a1; [discriminate (H1 eq_refl)|clear H1].
  destruct b2; [destruct a2, a3, a4, a5; order_le|].
  destruct a2; [discriminate (H2 eq_refl)|clear H2].
  destruct b3; [destruct a3, a4, a5; order_le|].
  destruct a3; [discriminate (H3 eq_refl)|clear H3].
  destruct b4; [destruct a4, a5; order_le|].
  destruct a4; [discriminate (H4 eq_refl)|clear H4].
  destruct b5; [destruct a5; order_le|].
  destruct a5; [discriminate (H5 eq_refl)|order_le].
Qed.

End RbacFacts.

(** ** Byte strings *)

Lemma append_cons c (a b : string) : String c a +:+ b = String c (a +:+ b).
Proof. reflexivity. Qed.

Lemma append_nil_r (a : string) : a +:+ "" = a.
Proof.
  induction a as [|x a IH]; [reflexivity|]. by rewrite append_cons, IH.
Qed.

Lemma append_assoc (a b c : string) : (a +:+ b) +:+ c = a +:+ (b +:+ c).
Proof.
  induction a as [|x a IH]; [reflexivity|]. by rewrite !append_cons, IH.
Qed.

(** ** Exec output demultiplexing *)

Module KubeletFacts.
Import Kubelet.

Section ReadExecOutput.

Variable UnmarshalExecStatus : string -> result ExecStatus.

Local Abbreviation onMessage := (onMessage UnmarshalExecStatus).
Local Abbreviation readLoop := (readLoop UnmarshalExecStatus).

Lemma onErrorChannel_streams data r :
  Stdout (onErrorChannel UnmarshalExecStatus data r) = Stdout r /\
  Stderr (onErrorChannel UnmarshalExecStatus data r) = Stderr r.
Proof.
  unfold onErrorChannel.
  destruct (UnmarshalExecStatus data) as [st|e]; [|by split].
  destruct (negb (Status st =? "Success")%string); [|by split].
  destruct (execError (withError (Message st) r) =? "")%string; by split.
Qed.

(** One frame extends exactly the stream its first byte names. *)
Lemma onMessage_Stdout message r :
  Stdout (onMessage message r) =
  Stdout r +:+ (if onChannel StreamStdout message then payload message else "").
Proof.
  destruct message as [|c data]; cbn [Kubelet.onMessage onChannel payload].
  - by rewrite append_nil_r.
  - unfold StreamStdout.
    destruct (nat_of_ascii c) as [|[|[|[|n]]]]; cbn;
      rewrite ?append_nil_r; try reflexivity.
    apply onErrorChannel_streams.
Qed.

Lemma onMessage_Stderr message r :
  Stderr (onMessage message r) =
  Stderr r +:+ (if onChannel StreamStderr message then payload message else "").
Proof.
  destruct message as [|c data]; cbn [Kubelet.onMessage onChannel payload].
  - by rewrite append_nil_r.
  - unfold StreamStderr.
    destruct (nat_of_ascii c) as [|[|[|[|n]]]]; cbn;
      rewrite ?append_nil_r; try reflexivity.
    apply onErrorChannel_streams.
Qed.

Lemma channelBytes_cons channel message frames :
  channelBytes channel (message :: frames) =
  (if onChannel channel message then payload message else "")
    +:+ channelBytes channel frames.
Proof.
  unfold channelBytes. cbn [List.filter].
  destruct (onChannel channel message); reflexivity.
Qed.

Lemma readLoop_Stdout frames closing r :
  Stdout (readLoop frames closing r) =
  Stdout r +:+ channelBytes StreamStdout frames.
Proof.
  revert r. induction frames as [|message frames IH]; intros r.
  - cbn [Kubelet.readLoop]. unfold channelBytes. cbn.
    rewrite append_nil_r.
    destruct (IsCloseError closing _); [reflexivity|].
    destruct (_ && _); reflexivity.
  - cbn [Kubelet.readLoop].
    rewrite IH, onMessage_Stdout, channelBytes_cons, append_assoc.
    reflexivity.
Qed.

Lemma readLoop_Stderr frames closing r :
  Stderr (readLoop frames closing r) =
  Stderr r +:+ channelBytes StreamStderr frames.
Proof.
  revert r. induction frames as [|message frames IH]; intros r.
  - cbn [Kubelet.readLoop]. unfold channelBytes. cbn.
    rewrite append_nil_r.
    destruct (IsCloseError closing _); [reflexivity|].
    destruct (_ && _); reflexivity.
  - cbn [Kubelet.readLoop].
    rewrite IH, onMessage_Stderr, channelBytes_cons, append_assoc.
    reflexivity.
Qed.

(** C5. For every frame sequence and every way the stream ends,
    [readExecOutput] returns a result (never a Go error) whose stdout is
    the concatenation, in arrival order, of the payloads of the frames
    with channel byte 1, and whose stderr is the same for channel byte 2.
    For the frames [0x01 "he"], [0x02 "err"], [0x01 "llo"] and a normal
    close: stdout "hello", stderr "err", empty error. *)
Theorem readExecOutput_demultiplexes :
  (forall frames closing,
     exists res,
       readExecOutput UnmarshalExecStatus frames closing = Ok res /\
       Stdout res = channelBytes StreamStdout frames /\
       Stderr res = channelBytes StreamStderr frames) /\
  (forall text,
     readExecOutput UnmarshalExecStatus
       [String "001"%char "he"; String "002"%char "err"; String "001"%char "llo"]
       (CloseError CloseNormalClosure text)
     = Ok (mkExecResult "hello" "err" "")).
Proof.
  split.
  - intros frames closing. eexists. split; [reflexivity|].
    rewrite readLoop_Stdout, readLoop_Stderr. by split.
  - intros text. reflexivity.
Qed.

End ReadExecOutput.

End KubeletFacts.

(** ** Security flags *)

Module SecurityFacts.
Import Security Spec.

(** C9. Whatever the record, [GetSecurityFlags] returns
    [HasSATokenMount = false]: it computes the privileged,
    allowPrivilegeEscalation, hostPath and secret-mount flags only, also
    for a record whose volumes include a projected-sa-token volume. *)
Theorem GetSecurityFlags_never_sets_SA_token_mount :
  (forall record, HasSATokenMount (GetSecurityFlags record) = false) /\
  Contains (prVolumes tokenPod)
    (dq +:+ "type" +:+ dq +:+ ":" +:+ dq +:+ "projected-sa-token" +:+ dq) = true /\
  GetSecurityFlags tokenPod = mkSecurityFlags false false false false false.
Proof. split; [reflexivity|split; vm_compute; reflexivity]. Qed.

End SecurityFacts.

(** ** The ServiceAccount repository *)

Module DBFacts.
Import DB.

Lemma writeAll_cons r records st :
  writeAll (r :: records) st = writeAll records (insertOrReplace r st).
Proof. reflexivity. Qed.

(** The loop never touches the committed store; it either runs through
    all statements, or stops at the first faulty one having counted the
    statements before it. *)
Lemma execLoop_spec f records : forall saved tx,
  match execLoop f records saved tx with
  | (tx', saved', err) =>
      txCommitted tx' = txCommitted tx /\ txDone tx' = txDone tx /\
      match err with
      | None =>
          txWorking tx' = writeAll records (txWorking tx) /\
          saved' = (saved + length records)%nat /\
          (forall n, (n < length records)%nat -> execErr f (saved + n) = None)
      | Some _ =>
          exists k, (k < length records)%nat /\ saved' = (saved + k)%nat /\
            execErr f (saved + k) <> None /\
            (forall j, (j < k)%nat -> execErr f (saved + j) = None)
      end
  end.
Proof.
  induction records as [|r records IH]; intros saved tx; cbn [execLoop].
  - split; [reflexivity|]. split; [reflexivity|]. cbn.
    split; [reflexivity|]. split; [lia|]. intros n Hn. lia.
  - unfold stmtExec. destruct (execErr f saved) as [e|] eqn:E.
    + split; [reflexivity|]. split; [reflexivity|].
      exists 0%nat. cbn [length]. rewrite Nat.add_0_r.
      split; [lia|]. split; [reflexivity|]. split; [congruence|].
      intros j Hj. lia.
    + specialize (IH (S saved)
        (mkTx (txCommitted tx) (insertOrReplace r (txWorking tx)) (txDone tx))).
      destruct (execLoop f records (S saved) _) as [[tx' saved'] err].
      destruct IH as (Hc & Hd & IH). cbn in Hc, Hd.
      split; [exact Hc|]. split; [exact Hd|].
      destruct err as [e|].
      * destruct IH as (k & Hk & Hs & He & Hj). exists (S k).
        cbn [length]. replace (saved + S k)%nat with (S saved + k)%nat by lia.
        split; [lia|]. split; [exact Hs|]. split; [exact He|].
        intros [|j] Hlt; [by rewrite Nat.add_0_r|].
        replace (saved + S j)%nat with (S saved + j)%nat by lia.
        apply Hj. lia.
      * destruct IH as (Hw & Hs & Hn). cbn in Hw. cbn [length].
        split; [exact Hw|]. split; [lia|].
        intros [|n] Hlt; [by rewrite Nat.add_0_r|].
        replace (saved + S n)%nat with (S saved + n)%nat by lia.
        apply Hn. cbn in Hlt. lia.
Qed.

(** C8. [SaveBatch] is atomic: afterwards the store either holds every
    record of the batch (and no error is returned), or is the store as it
    was (and an error is returned); the second is the case whenever some
    statement of the batch fails. *)
Theorem SaveBatch_atomic f conn records :
  match SaveBatch f conn records with
  | (conn', saved, err) =>
      ((conn' = writeAll records conn /\ saved = length records /\ err = None)
       \/ (conn' = conn /\ err <> None)) /\
      ((exists n, (n < length records)%nat /\ execErr f n <> None) ->
       conn' = conn /\ err <> None)
  end.
Proof.
  unfold SaveBatch, txBegin.
  destruct (beginErr f) as [e|]; [split; [right|]; by split|].
  destruct (prepareErr f) as [e|]; [split; [right|]; by split|].
  pose proof (execLoop_spec f records 0 (mkTx conn conn false)) as H.
  destruct (execLoop f records 0 _) as [[tx saved] err].
  destruct H as (Hc & Hd & H). cbn in Hc, Hd.
  destruct err as [e|].
  - unfold txRollback. rewrite Hc. split; [right|]; by split.
  - destruct H as (Hw & Hs & Hn). cbn in Hw, Hs.
    unfold txCommit. rewrite Hd.
    destruct (commitErr f) as [e|]; cbn.
    + rewrite Hc. split; [right|]; by split.
    + split; [left; by rewrite Hw|].
      intros (n & Hlt & Hne). exfalso. apply Hne, (Hn n Hlt).
Qed.

(** C10. When the [i]-th statement of the batch ([i >= 1]) is the first
    to fail, [SaveBatch] returns the count [i - 1] together with an error,
    while the store is left as it was: the count reports statements that
    ran, not rows that persist. *)
Theorem SaveBatch_count_on_failure f conn records (i : nat) :
  beginErr f = None ->
  prepareErr f = None ->
  (1 <= i <= length records)%nat ->
  (forall j, (j < i - 1)%nat -> execErr f j = None) ->
  execErr f (i - 1) <> None ->
  match SaveBatch f conn records with
  | (conn', saved, err) =>
      saved = (i - 1)%nat /\ err <> None /\ conn' = conn
  end.
Proof.
  intros Hb Hp Hi Hbefore Hfail. unfold SaveBatch, txBegin. rewrite Hb, Hp.
  pose proof (execLoop_spec f records 0 (mkTx conn conn false)) as H.
  destruct (execLoop f records 0 _) as [[tx saved] err].
  destruct H as (Hc & Hd & H). cbn in Hc, Hd.
  destruct err as [e|].
  - destruct H as (k & Hk & Hs & He & Hj). cbn in Hs, He, Hj. subst saved.
    unfold txRollback. rewrite Hc. split; [|by split].
    destruct (Nat.lt_trichotomy k (i - 1)) as [Hlt|[Heq|Hgt]]; [|exact Heq|].
    + exfalso. apply He, Hbefore, Hlt.
    + exfalso. apply Hfail, Hj, Hgt.
  - destruct H as (_ & _ & Hn). exfalso. apply Hfail, (Hn (i - 1)%nat). lia.
Qed.

End DBFacts.

(** ** Token parsing *)

Module TokenFacts.
Import Token.

(** A [float64] that lies before a clock reading after the epoch converts
    to whole seconds that lie before it too. *)
Lemma int64_of_float64_past (exp : Q) (now : Time) :
  0 < now ->
  (exp * 1000000000 < inject_Z now)%Q ->
  time_Unix (int64_of_float64 exp) 0 < now.
Proof.
  intros Hnow Hpast. destruct exp as [n d].
  unfold Qlt in Hpast. cbn in Hpast. rewrite Pos.mul_1_r in Hpast.
  unfold time_Unix, int64_of_float64. cbn [Qnum Qden].
  destruct ((- 2 ^ 63 <=? n ÷ Z.pos d) && (n ÷ Z.pos d <? 2 ^ 63)); [|lia].
  destruct (Z.le_gt_cases 0 n) as [Hn|Hn].
  - rewrite Z.quot_div_nonneg by lia.
    pose proof (Z.mul_div_le n (Z.pos d) ltac:(lia)). nia.
  - assert (n ÷ Z.pos d <= 0); [|lia].
    replace n with (- (- n)) by lia. rewrite Z.quot_opp_l by lia.
    pose proof (Z.quot_pos (- n) (Z.pos d) ltac:(lia) ltac:(lia)). lia.
Qed.

Section Parse.

Variable RawURLDecode : string -> result string.
Variable StdDecode : string -> result string.
Variable UnmarshalClaims : string -> result (gmap string JSON).
Variable now : Time.

Local Abbreviation Parse := (Parse RawURLDecode StdDecode UnmarshalClaims now).

(** Without a [kubernetes.io] claim, the claim tree contributes nothing. *)
Lemma readKubernetesClaim_absent claims i :
  claims !! "kubernetes.io" = None -> readKubernetesClaim claims i = i.
Proof. intros H. unfold readKubernetesClaim. by rewrite H. Qed.

Lemma readExpiry_names claims i :
  ServiceAccount (readExpiry now claims i) = ServiceAccount i /\
  Namespace (readExpiry now claims i) = Namespace i.
Proof.
  unfold readExpiry. destruct (claims !! "exp") as [[]|]; by split.
Qed.

Lemma readIssuer_names claims i :
  ServiceAccount (readIssuer claims i) = ServiceAccount i /\
  Namespace (readIssuer claims i) = Namespace i.
Proof.
  unfold readIssuer. destruct (claims !! "iss") as [[]|]; by split.
Qed.

Lemma readSubject_expiry claims i :
  IsExpired (readSubject claims i) = IsExpired i /\
  Expiration (readSubject claims i) = Expiration i.
Proof.
  unfold readSubject. destruct (ServiceAccount i =? "")%string; [|by split].
  destruct (claims !! "sub") as [[]|]; try by split.
  destruct (_ && _); by split.
Qed.


End Parse.

End TokenFacts.

(** ** The pod extractor *)

Module ExtractFacts.
Import Extract Spec.

Local Abbreviation named name := (fun vm => (vmName vm =? name)%string).

(** After the mounts are entered, a name maps to the path of its last
    mount, and is untouched when no mount has it. *)
Lemma addMounts_lookup mounts : forall m name,
  addMounts m mounts !! name =
  match last (List.filter (named name) mounts) with
  | Some vm => Some (vmMountPath vm)
  | None => m !! name
  end.
Proof.
  induction mounts as [|vm mounts IH]; intros m name; [reflexivity|].
  change (addMounts m (vm :: mounts))
    with (addMounts (<[vmName vm := vmMountPath vm]> m) mounts).
  rewrite IH. cbn [List.filter].
  destruct (vmName vm =? name)%string eqn:E.
  - apply String.eqb_eq in E. rewrite last_cons.
    destruct (last (List.filter (named name) mounts)); [reflexivity|].
    subst name. apply lookup_insert_eq.
  - apply String.eqb_neq in E.
    destruct (last (List.filter (named name) mounts)); [reflexivity|].
    by apply lookup_insert_ne.
Qed.

Lemma addMounts_app m l1 l2 :
  addMounts m (l1 ++ l2) = addMounts (addMounts m l1) l2.
Proof. unfold addMounts. apply fold_left_app. Qed.

Lemma buildMountPaths_allMounts containers : forall m,
  fold_left (fun m c => addMounts m (csVolumeMounts c)) containers m =
  addMounts m (allMounts containers).
Proof.
  induction containers as [|c containers IH]; intros m; [reflexivity|].
  cbn [fold_left]. rewrite IH. unfold allMounts.
  cbn [fmap list_fmap concat]. by rewrite addMounts_app.
Qed.

(** The lookup table of [extractSensitiveVolumes] is "last mount wins". *)
Lemma buildMountPaths_lookup name containers :
  buildMountPaths containers !! name = lastMountPath name containers.
Proof.
  unfold buildMountPaths, lastMountPath.
  rewrite buildMountPaths_allMounts, addMounts_lookup.
  destruct (last _); [reflexivity|]. apply lookup_empty.
Qed.

Lemma projectedLoop_name name sources sv :
  projectedLoop name sources = Some sv -> svName sv = name.
Proof.
  induction sources as [|src sources IH]; cbn [projectedLoop]; [discriminate|].
  destruct (psServiceAccountToken src); [by intros [= <-]|].
  destruct (psSecret src); [by intros [= <-]|exact IH].
Qed.

Lemma sensitiveOf_name v sv : sensitiveOf v = Some sv -> svName sv = vsName v.
Proof.
  unfold sensitiveOf.
  destruct (vsSecret v); [by intros [= <-]|].
  destruct (vsHostPath v); [by intros [= <-]|].
  destruct (vsProjected v); [apply projectedLoop_name|discriminate].
Qed.

(** The volume types that [sensitiveOf] produces. *)
Lemma sensitiveOf_type v sv :
  sensitiveOf v = Some sv ->
  svType sv = "secret" \/ svType sv = "hostPath" \/
  svType sv = "projected-sa-token" \/ svType sv = "projected-secret".
Proof.
  unfold sensitiveOf.
  destruct (vsSecret v); [intros [= <-]; auto|].
  destruct (vsHostPath v); [intros [= <-]; auto|].
  destruct (vsProjected v) as [sources|]; [|discriminate].
  induction sources as [|src sources IH]; cbn [projectedLoop]; [discriminate|].
  destruct (psServiceAccountToken src); [intros [= <-]; auto|].
  destruct (psSecret src); [intros [= <-]; auto|exact IH].
Qed.

Lemma volumesLoop_keeps mountPaths volumes : forall acc sv,
  sv ∈ acc -> sv ∈ volumesLoop mountPaths volumes acc.
Proof.
  induction volumes as [|v volumes IH]; intros acc sv Hin; [exact Hin|].
  cbn [volumesLoop]. destruct (sensitiveOf v); [|by apply IH].
  apply IH, elem_of_app. by left.
Qed.

Lemma volumesLoop_elem mountPaths volumes : forall acc v sv,
  v ∈ volumes -> sensitiveOf v = Some sv ->
  resolved mountPaths v sv ∈ volumesLoop mountPaths volumes acc.
Proof.
  induction volumes as [|w volumes IH]; intros acc v sv Hin Hs.
  - by apply elem_of_nil in Hin.
  - cbn [volumesLoop]. apply elem_of_cons in Hin as [<-|Hin].
    + rewrite Hs. apply volumesLoop_keeps, elem_of_app. right.
      apply list_elem_of_singleton. reflexivity.
    + destruct (sensitiveOf w); by apply IH.
Qed.

Lemma elem_of_allMounts c vm containers :
  c ∈ containers -> vm ∈ csVolumeMounts c -> vm ∈ allMounts containers.
Proof.
  intros Hc Hvm. unfold allMounts. apply list_elem_of_In, in_concat.
  exists (csVolumeMounts c). split; [|by apply list_elem_of_In].
  apply list_elem_of_In, list_elem_of_fmap_2, Hc.
Qed.

Lemma allMounts_elem vm containers :
  vm ∈ allMounts containers ->
  exists c, c ∈ containers /\ vm ∈ csVolumeMounts c.
Proof.
  unfold allMounts. intros H. apply list_elem_of_In, in_concat in H.
  destruct H as (l & Hl & Hvm). apply list_elem_of_In, list_elem_of_fmap in Hl.
  destruct Hl as (c & -> & Hc). exists c. split; [exact Hc|].
  by apply list_elem_of_In.
Qed.

(** A mounted name has a last mount, which is one of the pod's mounts. *)
Lemma lastMountPath_mounted c vm containers :
  c ∈ containers -> vm ∈ csVolumeMounts c ->
  exists c' vm',
    c' ∈ containers /\ vm' ∈ csVolumeMounts c' /\ vmName vm' = vmName vm /\
    lastMountPath (vmName vm) containers = Some (vmMountPath vm').
Proof.
  intros Hc Hvm. unfold lastMountPath.
  destruct (last (List.filter (named (vmName vm)) (allMounts containers)))
    as [vm'|] eqn:E.
  - apply last_Some_elem_of, list_elem_of_In, filter_In in E.
    destruct E as [Hin Hname]. apply String.eqb_eq in Hname.
    apply list_elem_of_In, allMounts_elem in Hin as (c' & Hc' & Hvm').
    by exists c', vm'.
  - exfalso. apply last_None in E.
    assert (In vm (List.filter (named (vmName vm)) (allMounts containers)))
      as Hin; [|by rewrite E in Hin].
    apply filter_In. split; [|apply String.eqb_refl].
    by apply list_elem_of_In, (elem_of_allMounts c).
Qed.


End ExtractFacts.

(** ** The scan: cluster-admin flag and tier *)

Module ScanFacts.
Import Config Rbac Scan Spec RbacFacts.

Section ScanPodToken.

Variable kubeletExec : ExecOptions -> result ExecResult.
Variable TrimSpace : string -> string.
Variable RawURLDecode : string -> result string.
Variable StdDecode : string -> result string.
Variable UnmarshalClaims : string -> result (gmap string JSON).
Variable now : Time.
Variable GetK8sClient :
  string -> result (string -> result (list PermissionCheck)).

Local Abbreviation scanPodToken :=
  (scanPodToken kubeletExec TrimSpace RawURLDecode StdDecode UnmarshalClaims
     now GetK8sClient).

Lemma assessed_failed r e :
  resIsClusterAdmin r = false -> resRiskLevel r = RiskNone ->
  resPermissions r = [] -> assessed (withResError e r).
Proof.
  intros Ha Hl Hp. unfold assessed. cbn. rewrite Ha, Hl, Hp.
  split; split; try discriminate.
  intros (p & Hin & _). by apply elem_of_nil in Hin.
Qed.

Lemma scanPodToken_assessed pod : assessed (scanPodToken pod).
Proof.
  unfold Scan.scanPodToken.
  destruct (pcContainers pod) as [|first rest];
    [by apply assessed_failed|].
  destruct (kubeletExec _) as [execResult|e]; [|by apply assessed_failed].
  destruct (negb (execError execResult =? "")%string);
    [by apply assessed_failed|].
  destruct (resToken _ =? "")%string; [by apply assessed_failed|].
  destruct (Token.Parse _ _ _ _ _) as [tokenInfo|e];
    [|by apply assessed_failed].
  destruct (GetK8sClient _) as [check|e]; [|by apply assessed_failed].
  destruct (check _) as [permissions|e]; [|by apply assessed_failed].
  unfold assessed. cbn. split; [|apply IsClusterAdmin_true_iff].
  destruct (IsClusterAdmin permissions) eqn:E; [tauto|].
  split; [discriminate|].
  intros H. apply CalculateRiskLevel_admin_iff in H. congruence.
Qed.

End ScanPodToken.

Section SaveResults.

Variable MarshalPods : list SAPodInfo -> string.
Variable UnmarshalPods : string -> list SAPodInfo.
Variable MarshalPermissions : list SAPermission -> string.
Variable MarshalSecurityFlags : SASecurityFlags -> string.
Variable FormatRFC3339 : Time -> string.
Variable clock : nat -> Time.
Variable kubeletIP : string.

Local Abbreviation newRecord :=
  (newRecord MarshalPods MarshalPermissions MarshalSecurityFlags FormatRFC3339
     clock kubeletIP).
Local Abbreviation appendPod := (appendPod MarshalPods UnmarshalPods).
Local Abbreviation coalesceLoop :=
  (coalesceLoop MarshalPods UnmarshalPods MarshalPermissions
     MarshalSecurityFlags FormatRFC3339 clock kubeletIP).
Local Abbreviation stemsFrom := (stemsFrom MarshalPermissions).

Lemma coalesceLoop_stemsFrom (P : SATokenResult -> Prop) results :
  forall i saMap saMap',
    Forall P results ->
    map_Forall (fun _ rec => exists r, P r /\ stemsFrom rec r) saMap ->
    coalesceLoop i results saMap = Some saMap' ->
    map_Forall (fun _ rec => exists r, P r /\ stemsFrom rec r) saMap'.
Proof.
  induction results as [|r results IH]; intros i saMap saMap' HP Hinv Hrun.
  - cbn in Hrun. by injection Hrun as <-.
  - cbn [Scan.coalesceLoop] in Hrun.
    apply Forall_cons in HP as [Hr HP].
    destruct (negb (resError r =? "")%string
              || (resServiceAccount r =? "")%string);
      [by eapply IH|].
    destruct (resTokenInfo r) as [tokenInfo|]; [|discriminate].
    destruct (saMap !! keyOf tokenInfo r) as [existing|] eqn:E.
    + eapply IH; [exact HP| |exact Hrun].
      apply map_Forall_insert_2; [|exact Hinv].
      destruct (Hinv _ _ E) as (r0 & Hr0 & Hs). exists r0. by split.
    + eapply IH; [exact HP| |exact Hrun].
      apply map_Forall_insert_2; [|exact Hinv].
      exists r. split; [exact Hr|]. by repeat split.
Qed.

End SaveResults.


End ScanFacts.

(** ** The scan: coalescing per ServiceAccount key *)

Module CoalesceFacts.
Import Config Scan Spec.

Lemma skip_counted r :
  negb (resError r =? "")%string || (resServiceAccount r =? "")%string
  = negb (counted r).
Proof.
  unfold counted.
  destruct (resError r =? "")%string, (resServiceAccount r =? "")%string;
    reflexivity.
Qed.

Lemma hits_app k l1 l2 : hits k (l1 ++ l2) = hits k l1 ++ hits k l2.
Proof. apply List.filter_app. Qed.

Section SaveResults.

Variable MarshalPods : list SAPodInfo -> string.
Variable UnmarshalPods : string -> list SAPodInfo.
Variable MarshalPermissions : list SAPermission -> string.
Variable MarshalSecurityFlags : SASecurityFlags -> string.
Variable FormatRFC3339 : Time -> string.
Variable clock : nat -> Time.
Variable kubeletIP : string.

(** [json.Unmarshal] reads back what [json.Marshal] wrote, and JSON text
    is never empty. *)
Hypothesis pods_round_trip : forall l, UnmarshalPods (MarshalPods l) = l.
Hypothesis pods_text_nonempty : forall l, MarshalPods l <> "".

Local Abbreviation newRecord :=
  (newRecord MarshalPods MarshalPermissions MarshalSecurityFlags FormatRFC3339
     clock kubeletIP).
Local Abbreviation appendPod := (appendPod MarshalPods UnmarshalPods).
Local Abbreviation coalesceLoop :=
  (coalesceLoop MarshalPods UnmarshalPods MarshalPermissions
     MarshalSecurityFlags FormatRFC3339 clock kubeletIP).
Local Abbreviation merged :=
  (merged MarshalPods MarshalPermissions MarshalSecurityFlags FormatRFC3339
     clock kubeletIP).
Local Abbreviation coalesced :=
  (coalesced MarshalPods MarshalPermissions MarshalSecurityFlags FormatRFC3339
     clock kubeletIP).

Lemma appendPod_merged rs rec r :
  merged rs rec -> merged (rs ++ [r]) (appendPod r rec).
Proof.
  destruct rs as [|first more]; [intros []|].
  intros (i & tokenInfo & Hti & ->). exists i, tokenInfo.
  split; [exact Hti|].
  unfold Scan.appendPod, withPods. cbn.
  destruct (MarshalPods _ =? "")%string eqn:E.
  - apply String.eqb_eq in E. by apply pods_text_nonempty in E.
  - rewrite pods_round_trip.
    change (podInfoOf first :: (podInfoOf <$> more))
      with (podInfoOf <$> first :: more).
    change (podInfoOf first :: (podInfoOf <$> more ++ [r]))
      with (podInfoOf <$> (first :: more) ++ [r]).
    by rewrite fmap_app.
Qed.

Lemma newRecord_merged i tokenInfo r :
  resTokenInfo r = Some tokenInfo -> merged [r] (newRecord i tokenInfo r).
Proof. intros H. exists i, tokenInfo. by split. Qed.

Lemma hits_singleton k r :
  hits k [r] = if counted r && hasKey k r then [r] else [].
Proof. unfold hits. cbn. by destruct (counted r && hasKey k r). Qed.

(** One turn of the loop on a counted result. *)
Lemma coalesced_step done saMap r tokenInfo :
  coalesced done saMap ->
  counted r = true -> resTokenInfo r = Some tokenInfo ->
  coalesced (done ++ [r])
    (match saMap !! keyOf tokenInfo r with
     | Some existing => <[keyOf tokenInfo r := appendPod r existing]> saMap
     | None =>
         <[keyOf tokenInfo r := newRecord (length done) tokenInfo r]> saMap
     end).
Proof.
  intros Hinv Hc Hti k. specialize (Hinv k) as Hk.
  rewrite hits_app, hits_singleton, Hc. unfold hasKey. rewrite Hti. cbn [andb].
  destruct (keyOf tokenInfo r =? k)%string eqn:E.
  - apply String.eqb_eq in E. subst k.
    destruct (hits (keyOf tokenInfo r) done) as [|first more] eqn:Hh.
    + rewrite Hk. cbn [app]. eexists. rewrite lookup_insert_eq.
      split; [reflexivity|]. by apply newRecord_merged.
    + destruct Hk as (rec & Hrec & Hm). rewrite Hrec.
      change ((first :: more) ++ [r]) with (first :: (more ++ [r])).
      eexists. rewrite lookup_insert_eq. split; [reflexivity|].
      change (first :: (more ++ [r])) with ((first :: more) ++ [r]).
      by apply appendPod_merged.
  - apply String.eqb_neq in E. rewrite app_nil_r.
    destruct (saMap !! keyOf tokenInfo r);
      rewrite lookup_insert_ne by exact E; exact Hk.
Qed.

Lemma coalesced_skip done saMap r :
  coalesced done saMap -> counted r = false -> coalesced (done ++ [r]) saMap.
Proof.
  intros Hinv Hc k. rewrite hits_app, hits_singleton, Hc. cbn [andb].
  rewrite app_nil_r. apply Hinv.
Qed.

Lemma coalesceLoop_coalesced rest : forall done saMap,
  coalesced done saMap ->
  (forall r, r ∈ rest -> counted r = true -> is_Some (resTokenInfo r)) ->
  exists saMap',
    coalesceLoop (length done) rest saMap = Some saMap' /\
    coalesced (done ++ rest) saMap'.
Proof.
  induction rest as [|r rest IH]; intros done saMap Hinv Hwf.
  - exists saMap. by rewrite app_nil_r.
  - cbn [Scan.coalesceLoop]. rewrite skip_counted.
    replace (done ++ r :: rest) with ((done ++ [r]) ++ rest)
      by by rewrite <- app_assoc.
    replace (S (length done)) with (length (done ++ [r]))
      by (rewrite length_app; cbn; lia).
    assert (forall r', r' ∈ rest -> counted r' = true ->
                       is_Some (resTokenInfo r')) as Hwf'.
    { intros r' Hin. apply Hwf. by right. }
    destruct (counted r) eqn:Hc; cbn [negb].
    + destruct (Hwf r ltac:(left) Hc) as [tokenInfo Hti]. rewrite Hti.
      pose proof (coalesced_step done saMap r tokenInfo Hinv Hc Hti) as Hstep.
      destruct (saMap !! keyOf tokenInfo r); by apply IH.
    + apply IH; [by apply coalesced_skip|exact Hwf'].
Qed.

End SaveResults.

End CoalesceFacts.

(** ** The stand-in encoders behave like a codec *)

Module FixtureFacts.
Import Fixture.

Lemma decodeText_encodeText s rest :
  decodeText (encodeText s rest) = Some (s, rest).
Proof.
  induction s as [|c s IH]; [reflexivity|].
  cbn [encodeText decodeText]. rewrite IH. reflexivity.
Qed.

Lemma encodeText_length s rest :
  (String.length rest <= String.length (encodeText s rest))%nat.
Proof.
  induction s as [|c s IH]; cbn [encodeText String.length]; lia.
Qed.

Lemma encodePods_length pods :
  (length pods <= String.length (encodePods pods))%nat.
Proof.
  induction pods as [|p pods IH]; cbn [encodePods String.length length]; [lia|].
  pose proof (encodeText_length (piName p)
    (encodeText (piNamespace p) (encodeText (piContainer p) (encodePods pods)))).
  pose proof (encodeText_length (piNamespace p)
    (encodeText (piContainer p) (encodePods pods))).
  pose proof (encodeText_length (piContainer p) (encodePods pods)).
  lia.
Qed.

Lemma decodePods_encodePods pods : forall fuel,
  (length pods <= fuel)%nat -> decodePods fuel (encodePods pods) = pods.
Proof.
  induction pods as [|p pods IH]; intros fuel Hfuel.
  - by destruct fuel.
  - destruct fuel as [|fuel]; [cbn in Hfuel; lia|].
    cbn [encodePods decodePods]. change (Ascii.eqb "," ",") with true.
    cbn match. rewrite !decodeText_encodeText.
    rewrite IH by (cbn in Hfuel; lia). by destruct p.
Qed.

Lemma pods_round_trip pods : UnmarshalPods (MarshalPods pods) = pods.
Proof. apply decodePods_encodePods, encodePods_length. Qed.

Lemma pods_text_nonempty pods : MarshalPods pods <> "".
Proof. discriminate. Qed.

End FixtureFacts.

(** ** The properties on the sample data *)

Module Samples.
Import Config Rbac Kubelet Extract Scan Spec Fixture.
Import RbacFacts TokenFacts ExtractFacts ScanFacts CoalesceFacts DBFacts.
Import FixtureFacts.

(** C3 on [probesA] (MEDIUM) and [probesB] (CRITICAL). *)
Lemma CalculateRiskLevel_monotone_sample :
  allowedSubset probesA ⊆ allowedSubset probesB /\
  (riskLevelOrder (CalculateRiskLevel probesB)
     <= riskLevelOrder (CalculateRiskLevel probesA))%Z.
Proof.
  assert (allowedSubset probesA ⊆ allowedSubset probesB) as Hsub.
  { intros p Hp. cbn in Hp. apply list_elem_of_singleton in Hp as ->.
    cbn. right. left. }
  split; [exact Hsub|]. exact (CalculateRiskLevel_monotone probesA probesB Hsub).
Defined.


Example Parse_expired_token :
  Token.Parse decodeIdentity decodeIdentity unmarshalFoo now "h.p.s"
  = Ok (mkTokenInfo "foo" "bar" "" (time_Unix 1700000000 0) true).
Proof. vm_compute. reflexivity. Qed.

(** The scan of the two-pod node: both tasks succeed with the same
    account, and the map holds one record. *)
Lemma coalesceLoop_two_pods :
  coalesceLoop MarshalPods UnmarshalPods MarshalPermissions
    MarshalSecurityFlags FormatRFC3339 clock kubeletIP 0
    (scan <$> [podA; podB]) ∅ = Some sharedMap.
Proof. vm_compute. reflexivity. Qed.


(** The scenario end to end: after the scan of the two pods, the
    repository holds exactly one row, for [default/shared], listing both
    pods. *)
Example saveResults_two_pods_one_row :
  saveResults MarshalPods UnmarshalPods MarshalPermissions
    MarshalSecurityFlags FormatRFC3339 clock kubeletIP
    (Some (noFaults, emptyStore)) (scan <$> [podA; podB])
  = Some (1%nat,
          Some (DB.mkStore
                  {[ ("shared", "default") := DB.withID 1 sharedRecord ]} 1)) /\
  UnmarshalPods (saPods sharedRecord)
  = [mkSAPodInfo "a" "default" "c0"; mkSAPodInfo "b" "default" "c0"].
Proof. split; vm_compute; reflexivity. Qed.



(** C10 on the batch of three whose second statement fails: count 1, an
    error, and the store as it was. *)
Lemma SaveBatch_count_on_failure_sample :
  match DB.SaveBatch secondFails emptyStore batch with
  | (conn', saved, err) =>
      saved = (2 - 1)%nat /\ err <> None /\ conn' = emptyStore
  end.
Proof.
  apply (SaveBatch_count_on_failure secondFails emptyStore batch 2).
  - reflexivity.
  - reflexivity.
  - cbn. lia.
  - intros [|j] Hj; [reflexivity|lia].
  - discriminate.
Defined.

Example SaveBatch_count_exceeds_persisted :
  DB.SaveBatch secondFails emptyStore batch
  = (emptyStore, 1%nat, Some "保存 SA default/two 失败: constraint failed").
Proof. vm_compute. reflexivity. Qed.


(** The tables at work: every table entry ends in ["*"], so a resource
    that is a key of a table hits it with any verb. *)
Example CalculateRiskLevel_samples :
  CalculateRiskLevel [wildcard] = RiskAdmin /\
  CalculateRiskLevel [mkPermissionCheck "nodes" "get" true "" "proxy"]
    = RiskCritical /\
  CalculateRiskLevel [mkPermissionCheck "pods" "list" true "" ""]
    = RiskCritical /\
  CalculateRiskLevel [mkPermissionCheck "pods" "get" true "" "log"]
    = RiskHigh /\
  CalculateRiskLevel [mkPermissionCheck "services" "get" true "" ""]
    = RiskMedium /\
  CalculateRiskLevel [mkPermissionCheck "nodes" "list" true "" "status"]
    = RiskLow /\
  CalculateRiskLevel [mkPermissionCheck "secrets" "get" false "" ""]
    = RiskNone.
Proof. repeat split; vm_compute; reflexivity. Qed.

End Samples.

(** ** Rule matching and the full assessment *)

Module AssessFacts.
Import Config Rbac RiskRules Assess AssessSpec RbacFacts.

Lemma firstMatch_not_admin rules p :
  forallb adminNeedsNoSubresource rules = true ->
  Subresource p <> "" ->
  (firstMatch rules p).1 <> PermLevelAdmin.
Proof.
  intros Hrules Hsub.
  induction rules as [|rule rules IH]; cbn [firstMatch]; [discriminate|].
  cbn [forallb] in Hrules. apply andb_prop in Hrules as [Hrule Hrules].
  destruct (matchRule p rule) eqn:Hm; [|by apply IH].
  cbn [fst]. unfold adminNeedsNoSubresource in Hrule.
  apply orb_prop in Hrule as [Hempty|Hlevel].
  - exfalso. apply String.eqb_eq in Hempty. unfold matchRule in Hm.
    rewrite Hempty in Hm. apply String.eqb_neq in Hsub.
    rewrite String.eqb_sym in Hsub. rewrite Hsub in Hm. cbn in Hm.
    repeat match type of Hm with
           | (if ?b then _ else _) = _ => destruct b; try discriminate
           end.
  - apply negb_true_iff, Z.eqb_neq in Hlevel. exact Hlevel.
Qed.

(** X1. [GetPermissionInfo] rates a probe as admin exactly when the probe has
    no subresource: the first rule's wildcards match every resource, verb
    and group, so every such probe gets the cluster-admin description. *)
Theorem GetPermissionInfo_admin_iff_no_subresource (p : PermissionCheck) :
  ((GetPermissionInfo p).1 = PermLevelAdmin <-> Subresource p = "") /\
  (Subresource p = "" ->
   GetPermissionInfo p = (PermLevelAdmin, "集群管理员权限 (cluster-admin)")).
Proof.
  assert (Subresource p = "" ->
          GetPermissionInfo p = (PermLevelAdmin, "集群管理员权限 (cluster-admin)"))
    as Hfirst.
  { intros Hsub. unfold GetPermissionInfo, PermissionRiskRules.
    cbn [firstMatch]. unfold matchRule. cbn. rewrite Hsub. reflexivity. }
  split; [|exact Hfirst]. split.
  - intros Hlevel. destruct (String.eqb_spec (Subresource p) "") as [|Hne];
      [assumption|].
    exfalso. revert Hlevel. apply firstMatch_not_admin; [|exact Hne].
    vm_compute. reflexivity.
  - intros Hsub. by rewrite (Hfirst Hsub).
Qed.

Lemma assessLoop_spec results : forall a,
  let a' := assessLoop results a in
  raLevel a' = raLevel a /\
  raIsClusterAdmin a' = raIsClusterAdmin a || existsb adminWildcard results /\
  raAdminPerms a' = raAdminPerms a ++ List.filter filedAdmin results /\
  raDangerousPerms a' = raDangerousPerms a ++ List.filter filedDangerous results /\
  raSensitivePerms a' = raSensitivePerms a ++ List.filter filedSensitive results /\
  raNormalPerms a' = raNormalPerms a ++ List.filter filedNormal results.
Proof.
  induction results as [|r results IH]; intros a; cbn [assessLoop].
  - cbn. rewrite orb_false_r, !app_nil_r. by repeat split.
  - cbn [List.filter existsb].
    unfold adminWildcard, filedAdmin, filedDangerous, filedSensitive, filedNormal.
    destruct (Allowed (pcrCheck r)); cbn [negb andb]; [|apply IH].
    specialize (IH (fileResult r a)). cbn zeta in IH.
    destruct IH as (H0 & H1 & H2 & H3 & H4 & H5).
    rewrite H0, H1, H2, H3, H4, H5. clear.
    unfold fileResult, PermLevelAdmin, PermLevelDangerous, PermLevelSensitive.
    destruct (pcrLevel r =? 3) eqn:E3.
    + apply Z.eqb_eq in E3. rewrite E3. cbn.
      rewrite <- !app_assoc. cbn.
      destruct ((Resource (pcrCheck r) =? "*")%string
                && (Verb (pcrCheck r) =? "*")%string);
        rewrite ?orb_true_r; by repeat split.
    + destruct (pcrLevel r =? 2) eqn:E2.
      * apply Z.eqb_eq in E2. rewrite E2. cbn.
        rewrite <- !app_assoc. by repeat split.
      * destruct (pcrLevel r =? 1) eqn:E1; cbn; rewrite <- !app_assoc;
          by repeat split.
Qed.

Lemma AssessRisk_fields results :
  raIsClusterAdmin (AssessRisk results) = existsb adminWildcard results /\
  raAdminPerms (AssessRisk results) = List.filter filedAdmin results /\
  raDangerousPerms (AssessRisk results) = List.filter filedDangerous results /\
  raSensitivePerms (AssessRisk results) = List.filter filedSensitive results /\
  raNormalPerms (AssessRisk results) = List.filter filedNormal results.
Proof.
  unfold AssessRisk. cbn.
  destruct (assessLoop_spec results (mkRiskAssessment RiskNone false [] [] [] []))
    as (_ & H1 & H2 & H3 & H4 & H5).
  by repeat split.
Qed.

Lemma filed_once r :
  Allowed (pcrCheck r) = true ->
  (length (List.filter filedAdmin [r]) + length (List.filter filedDangerous [r])
   + length (List.filter filedSensitive [r])
   + length (List.filter filedNormal [r]) = 1)%nat.
Proof.
  intros Ha. destruct r as [c level d]. cbn in Ha. cbn [List.filter].
  unfold filedAdmin, filedDangerous, filedSensitive, filedNormal.
  cbn [pcrCheck pcrLevel]. rewrite Ha.
  unfold PermLevelAdmin, PermLevelDangerous, PermLevelSensitive.
  destruct (Z.eqb_spec level 3) as [->|]; [reflexivity|].
  destruct (Z.eqb_spec level 2) as [->|]; [reflexivity|].
  destruct (Z.eqb_spec level 1) as [->|]; reflexivity.
Qed.

Lemma AssessRisk_files_each_allowed_once_aux results :
  let a := AssessRisk results in
  (length (raAdminPerms a) + length (raDangerousPerms a)
   + length (raSensitivePerms a) + length (raNormalPerms a)
   = length (List.filter (fun r => Allowed (pcrCheck r)) results))%nat.
Proof.
  cbn zeta. destruct (AssessRisk_fields results) as (_ & H2 & H3 & H4 & H5).
  rewrite H2, H3, H4, H5. clear H2 H3 H4 H5.
  induction results as [|r results IH]; [reflexivity|].
  cbn [List.filter].
  destruct (Allowed (pcrCheck r)) eqn:Ha.
  - pose proof (filed_once r Ha) as H1. cbn [List.filter] in H1.
    revert H1.
    destruct (filedAdmin r), (filedDangerous r), (filedSensitive r),
      (filedNormal r); cbn [length]; lia.
  - unfold filedAdmin, filedDangerous, filedSensitive, filedNormal.
    rewrite Ha. cbn [andb]. exact IH.
Qed.

(** X2. [AssessRisk] files every allowed result in exactly one of its four
    lists, keeping the input order within each list, and files no denied
    result: the four lists together hold as many results as were allowed. *)
Theorem AssessRisk_files_each_allowed_once (results : list PermissionCheckResult) :
  let a := AssessRisk results in
  raAdminPerms a = List.filter filedAdmin results /\
  raDangerousPerms a = List.filter filedDangerous results /\
  raSensitivePerms a = List.filter filedSensitive results /\
  raNormalPerms a = List.filter filedNormal results /\
  (length (raAdminPerms a) + length (raDangerousPerms a)
   + length (raSensitivePerms a) + length (raNormalPerms a)
   = length (List.filter (fun r => Allowed (pcrCheck r)) results))%nat.
Proof.
  cbn zeta. pose proof (AssessRisk_files_each_allowed_once_aux results) as Hsum.
  destruct (AssessRisk_fields results) as (_ & H2 & H3 & H4 & H5).
  cbn zeta in Hsum. by rewrite <- H2, <- H3, <- H4, <- H5.
Qed.

Lemma GetPermissionInfo_level p :
  (GetPermissionInfo p).1 = PermLevelAdmin <-> Subresource p = "".
Proof.
  split.
  - intros Hlevel. destruct (String.eqb_spec (Subresource p) "") as [|Hne];
      [assumption|].
    exfalso. revert Hlevel. apply firstMatch_not_admin; [|exact Hne].
    vm_compute. reflexivity.
  - intros Hsub. unfold GetPermissionInfo, PermissionRiskRules.
    cbn [firstMatch]. unfold matchRule. cbn. rewrite Hsub. reflexivity.
Qed.

Lemma toResult_allowed p : Allowed (pcrCheck (toResult p)) = Allowed p.
Proof. unfold toResult. by destruct (Allowed p) eqn:E. Qed.

Lemma toResult_check p : pcrCheck (toResult p) = p.
Proof. unfold toResult. by destruct (Allowed p). Qed.

Lemma filedAdmin_toResult p :
  filedAdmin (toResult p) = Allowed p && (Subresource p =? "")%string.
Proof.
  unfold filedAdmin. rewrite toResult_allowed.
  destruct (Allowed p) eqn:Ha; [|reflexivity]. cbn [andb].
  unfold toResult. rewrite Ha. cbn [pcrLevel].
  destruct (String.eqb_spec (Subresource p) "") as [Hs|Hs].
  - apply Z.eqb_eq. by apply GetPermissionInfo_level.
  - apply Z.eqb_neq. by rewrite GetPermissionInfo_level.
Qed.

Lemma allowed_toResult ps :
  List.filter (fun r => Allowed (pcrCheck r)) (toResult <$> ps)
  = toResult <$> allowedSubset ps.
Proof.
  induction ps as [|p ps IH]; [reflexivity|].
  cbn [fmap list_fmap List.filter allowedSubset].
  rewrite toResult_allowed. fold (allowedSubset ps).
  destruct (Allowed p); cbn [fmap list_fmap]; by rewrite <- IH.
Qed.

Lemma CalculateRiskLevel_none_iff ps :
  CalculateRiskLevel ps = RiskNone <-> allowedSubset ps = [].
Proof.
  rewrite CalculateRiskLevel_decision_order_aux. unfold classifySpec.
  split.
  - destruct (existsb isWildcardAdmin _); [discriminate|].
    destruct (existsb matchesCritical _); [discriminate|].
    destruct (existsb (tableHit HighPermissions) _); [discriminate|].
    destruct (existsb (tableHit MediumPermissions) _); [discriminate|].
    destruct (allowedSubset ps); [reflexivity|discriminate].
  - intros ->. reflexivity.
Qed.

Lemma existsb_adminWildcard ps :
  existsb adminWildcard (toResult <$> ps) = true <->
  exists p, p ∈ ps /\ Allowed p = true /\ Resource p = "*" /\ Verb p = "*"
            /\ Subresource p = "".
Proof.
  rewrite existsb_exists. split.
  - intros (r & Hin & Hr). apply list_elem_of_In, list_elem_of_fmap in Hin.
    destruct Hin as (p & -> & Hp). exists p. split; [exact Hp|].
    unfold adminWildcard in Hr. rewrite filedAdmin_toResult, toResult_check in Hr.
    apply andb_prop in Hr as [Hr Hv]. apply andb_prop in Hr as [Hr Hres].
    apply andb_prop in Hr as [Ha Hs].
    apply String.eqb_eq in Hv, Hres, Hs. auto.
  - intros (p & Hp & Ha & Hres & Hv & Hs). exists (toResult p). split.
    + by apply list_elem_of_In, list_elem_of_fmap_2.
    + unfold adminWildcard. rewrite filedAdmin_toResult, toResult_check.
      rewrite Ha, Hres, Hv, Hs. reflexivity.
Qed.

(** X3. The full assessment flags cluster-admin exactly when some allowed
    probe is [("*", "*")] with no subresource, which the quick
    [IsClusterAdmin] flags too; and its tier is ADMIN exactly when the flag
    is set. *)
Theorem AssessRiskFromPermissions_cluster_admin (ps : list PermissionCheck) :
  let a := AssessRiskFromPermissions ps in
  (raIsClusterAdmin a = true <->
   exists p, p ∈ ps /\ Allowed p = true /\ Resource p = "*" /\ Verb p = "*"
             /\ Subresource p = "") /\
  (raIsClusterAdmin a = true -> IsClusterAdmin ps = true) /\
  (raLevel a = RiskAdmin <-> raIsClusterAdmin a = true).
Proof.
  cbn zeta. unfold AssessRiskFromPermissions.
  destruct (AssessRisk_fields (toResult <$> ps)) as (H1 & _).
  assert (raIsClusterAdmin (AssessRisk (toResult <$> ps)) = true <->
          exists p, p ∈ ps /\ Allowed p = true /\ Resource p = "*"
                    /\ Verb p = "*" /\ Subresource p = "") as Hflag
    by (rewrite H1; apply existsb_adminWildcard).
  split; [exact Hflag|]. split.
  - intros Ha. apply Hflag in Ha as (p & Hp & Ha & Hr & Hv & _).
    apply IsClusterAdmin_true_iff. by exists p.
  - unfold AssessRisk at 1. cbn [raLevel]. unfold levelOf.
    change (raIsClusterAdmin (AssessRisk (toResult <$> ps)))
      with (raIsClusterAdmin
              (assessLoop (toResult <$> ps)
                 (mkRiskAssessment RiskNone false [] [] [] []))).
    destruct (assessLoop_spec (toResult <$> ps)
                (mkRiskAssessment RiskNone false [] [] [] [])) as (H0 & _).
    rewrite H0. cbn [raLevel].
    destruct (raIsClusterAdmin _); [tauto|].
    repeat match goal with
           | |- context [if ?b then _ else _] => destruct b
           end; split; discriminate.
Qed.

(** X4. The full assessment rates NONE exactly when the quick classifier does
    (no probe allowed); but one allowed probe without a subresource, of
    whatever resource and verb, already makes it CRITICAL or ADMIN. *)
Theorem AssessRiskFromPermissions_tiers (ps : list PermissionCheck) :
  let a := AssessRiskFromPermissions ps in
  (raLevel a = RiskNone <-> CalculateRiskLevel ps = RiskNone) /\
  ((exists p, p ∈ ps /\ Allowed p = true /\ Subresource p = "") ->
   raLevel a = RiskAdmin \/ raLevel a = RiskCritical).
Proof.
  cbn zeta. unfold AssessRiskFromPermissions.
  pose proof (AssessRisk_files_each_allowed_once_aux (toResult <$> ps)) as Hcount.
  destruct (AssessRisk_fields (toResult <$> ps)) as (_ & H2 & H3 & H4 & H5).
  unfold AssessRisk in *. cbn [raLevel raAdminPerms raDangerousPerms
    raSensitivePerms raNormalPerms] in *. unfold levelOf.
  destruct (assessLoop_spec (toResult <$> ps)
              (mkRiskAssessment RiskNone false [] [] [] [])) as (H0 & H1 & _).
  rewrite H0. cbn [raLevel raIsClusterAdmin orb] in *.
  set (a := assessLoop _ _) in *.
  rewrite allowed_toResult, length_fmap in Hcount.
  rewrite CalculateRiskLevel_none_iff.
  split.
  - split.
    + destruct (raIsClusterAdmin a); [discriminate|].
      destruct (raAdminPerms a); [|discriminate].
      destruct (raDangerousPerms a); [|discriminate].
      destruct (raSensitivePerms a); [|discriminate].
      destruct (raNormalPerms a); [|discriminate].
      intros _. cbn in Hcount. by destruct (allowedSubset ps).
    + intros Hnone. rewrite Hnone in Hcount. cbn in Hcount.
      rewrite H1.
      destruct (existsb adminWildcard (toResult <$> ps)) eqn:E.
      * apply existsb_adminWildcard in E as (p & Hp & Ha & _).
        assert (p ∈ allowedSubset ps) as Hin
          by (apply list_elem_of_In, filter_In; split;
              [by apply list_elem_of_In|exact Ha]).
        rewrite Hnone in Hin. by apply elem_of_nil in Hin.
      * destruct (raAdminPerms a); [|cbn in Hcount; lia].
        destruct (raDangerousPerms a); [|cbn in Hcount; lia].
        destruct (raSensitivePerms a); [|cbn in Hcount; lia].
        destruct (raNormalPerms a); [reflexivity|cbn in Hcount; lia].
  - intros (p & Hp & Ha & Hs).
    destruct (raIsClusterAdmin a); [by left|right].
    assert (toResult p ∈ raAdminPerms a) as Hin.
    { rewrite H2. apply list_elem_of_In, filter_In. split.
      - by apply list_elem_of_In, list_elem_of_fmap_2.
      - rewrite filedAdmin_toResult, Ha, Hs. reflexivity. }
    destruct (raAdminPerms a); [by apply elem_of_nil in Hin|reflexivity].
Qed.

End AssessFacts.

(** ** The quick classifier and the quick predicates *)

Module QuickFacts.
Import Config Rbac RiskRules RbacFacts.

Lemma verbListed_verbsHit verbs verb :
  verbListed verbs verb = verbsHit verbs verb.
Proof.
  induction verbs as [|v verbs IH]; [reflexivity|].
  cbn [verbListed verbsHit]. rewrite IH, orb_comm. reflexivity.
Qed.

Lemma inTable_tableHit table p :
  inTable table (probeResource p) (Verb p) = tableHit table p.
Proof.
  unfold inTable, tableHit.
  destruct (table !! probeResource p); [apply verbListed_verbsHit|reflexivity].
Qed.

Lemma elem_of_allowedSubset p ps :
  p ∈ allowedSubset ps <-> p ∈ ps /\ Allowed p = true.
Proof.
  unfold allowedSubset. rewrite !list_elem_of_In. apply filter_In.
Qed.

(** X5. The tier agrees with how the scan colours permissions: an allowed
    permission that [IsCriticalPermission] accepts makes the tier ADMIN or
    CRITICAL; and when the tier is HIGH, no allowed permission is critical
    and some allowed permission is accepted by [IsHighPermission]. *)
Theorem CalculateRiskLevel_matches_quick_predicates (ps : list PermissionCheck) :
  ((exists p, p ∈ ps /\ Allowed p = true /\
              IsCriticalPermission (probeResource p) (Verb p) = true) ->
   CalculateRiskLevel ps = RiskAdmin \/ CalculateRiskLevel ps = RiskCritical) /\
  (CalculateRiskLevel ps = RiskHigh ->
   (forall p, p ∈ ps -> Allowed p = true ->
              IsCriticalPermission (probeResource p) (Verb p) = false) /\
   (exists p, p ∈ ps /\ Allowed p = true /\
              IsHighPermission (probeResource p) (Verb p) = true)).
Proof.
  rewrite CalculateRiskLevel_decision_order_aux. unfold classifySpec.
  unfold IsCriticalPermission, IsHighPermission. split.
  - intros (p & Hp & Ha & Hc). rewrite inTable_tableHit in Hc.
    destruct (existsb isWildcardAdmin _); [by left|right].
    assert (existsb matchesCritical (allowedSubset ps) = true) as ->;
      [|reflexivity].
    apply existsb_exists. exists p. split.
    + by apply list_elem_of_In, elem_of_allowedSubset.
    + unfold matchesCritical. by rewrite Hc.
  - destruct (existsb isWildcardAdmin _); [discriminate|].
    destruct (existsb matchesCritical _) eqn:Ec; [discriminate|].
    destruct (existsb (tableHit HighPermissions) _) eqn:Eh.
    + intros _. split.
      * intros p Hp Ha. rewrite inTable_tableHit.
        destruct (tableHit CriticalPermissions p) eqn:Et; [|reflexivity].
        assert (existsb matchesCritical (allowedSubset ps) = true) as Hex;
          [|congruence].
        apply existsb_exists. exists p. split.
        -- by apply list_elem_of_In, elem_of_allowedSubset.
        -- unfold matchesCritical. by rewrite Et.
      * apply existsb_exists in Eh as (p & Hp & Hh).
        apply list_elem_of_In, elem_of_allowedSubset in Hp as [Hp Ha].
        exists p. by rewrite inTable_tableHit.
    + destruct (existsb (tableHit MediumPermissions) _); [discriminate|].
      destruct (negb _); discriminate.
Qed.

(** X6. The tier depends on the allowed probes only, not on their order or
    number of repetitions, nor on the denied probes: two probe lists with
    the same allowed probes get the same tier. *)
Theorem CalculateRiskLevel_same_allowed (A B : list PermissionCheck) :
  (forall p, Allowed p = true -> (p ∈ A <-> p ∈ B)) ->
  CalculateRiskLevel A = CalculateRiskLevel B.
Proof.
  intros Hsame.
  assert (allowedSubset A ⊆ allowedSubset B) as HAB.
  { intros p Hp. apply elem_of_allowedSubset in Hp as [Hp Ha].
    apply elem_of_allowedSubset. split; [by apply Hsame|exact Ha]. }
  assert (allowedSubset B ⊆ allowedSubset A) as HBA.
  { intros p Hp. apply elem_of_allowedSubset in Hp as [Hp Ha].
    apply elem_of_allowedSubset. split; [by apply Hsame|exact Ha]. }
  assert (forall f, existsb f (allowedSubset A) = existsb f (allowedSubset B))
    as Hex.
  { intros f. destruct (existsb f (allowedSubset A)) eqn:EA.
    - symmetry. by apply (existsb_subseteq f _ _ HAB).
    - destruct (existsb f (allowedSubset B)) eqn:EB; [|reflexivity].
      rewrite (existsb_subseteq f _ _ HBA EB) in EA. discriminate. }
  rewrite !CalculateRiskLevel_decision_order_aux. unfold classifySpec.
  rewrite !Hex.
  assert (negb (Nat.eqb (length (allowedSubset A)) 0)
          = negb (Nat.eqb (length (allowedSubset B)) 0)) as ->; [|reflexivity].
  destruct (negb (Nat.eqb (length (allowedSubset A)) 0)) eqn:EA.
  - symmetry. by apply (nonempty_subseteq _ _ HAB).
  - destruct (negb (Nat.eqb (length (allowedSubset B)) 0)) eqn:EB; [|reflexivity].
    rewrite (nonempty_subseteq _ _ HBA EB) in EA. discriminate.
Qed.

End QuickFacts.

(** ** Token parsing: format errors, claim precedence, truncation *)

Module TokenMoreFacts.
Import Token TokenDisplay TokenFacts.

Lemma Split_length s sep : length (Split s sep) = S (countByte sep s).
Proof.
  induction s as [|c s IH]; [reflexivity|].
  cbn [Split countByte]. destruct (Ascii.eqb c sep); cbn [length].
  - by rewrite IH.
  - destruct (Split s sep) as [|piece pieces]; [discriminate IH|].
    cbn [length] in *. lia.
Qed.

Lemma Split_no_separator s sep : countByte sep s = 0%nat -> Split s sep = [s].
Proof.
  induction s as [|c s IH]; [reflexivity|].
  cbn [Split countByte]. destruct (Ascii.eqb c sep); [discriminate|].
  intros H. by rewrite IH.
Qed.

Lemma Split_app a b sep :
  countByte sep a = 0%nat ->
  Split (a +:+ String sep b) sep = a :: Split b sep.
Proof.
  induction a as [|c a IH]; intros Hc.
  - change ("" +:+ String sep b) with (String sep b). cbn [Split].
    by rewrite Ascii.eqb_refl.
  - rewrite append_cons. cbn [Split countByte] in *.
    destruct (Ascii.eqb c sep); [discriminate|]. by rewrite IH.
Qed.

Section Parse.

Variable RawURLDecode : string -> result string.
Variable StdDecode : string -> result string.
Variable UnmarshalClaims : string -> result (gmap string JSON).
Variable now : Time.

Local Abbreviation Parse := (Parse RawURLDecode StdDecode UnmarshalClaims now).

(** X7. A token that does not have exactly two dots is refused with the
    format error, before any decoder is consulted. *)
Theorem Parse_invalid_format (token : string) :
  countByte "." token <> 2%nat ->
  Parse token = Err "无效的 JWT Token 格式".
Proof.
  intros Hdots. unfold Token.Parse. rewrite Split_length.
  destruct (countByte "." token) as [|[|[|n]]]; try reflexivity.
  by destruct Hdots.
Qed.

Lemma Parse_claims token payload claims :
  countByte "." token = 2%nat ->
  decodePayload RawURLDecode StdDecode (nth 1 (Split token ".") "") = Ok payload ->
  UnmarshalClaims payload = Ok claims ->
  Parse token =
    Ok (readSubject claims
          (readKubernetesClaim claims
             (readExpiry now claims (readIssuer claims emptyInfo)))).
Proof.
  intros Hdots Hdec Hjson. unfold Token.Parse.
  rewrite Split_length, Hdots. cbn [Nat.eqb negb]. by rewrite Hdec, Hjson.
Qed.




End Parse.

Lemma takeBytes_length n s :
  String.length (takeBytes n s) = Nat.min n (String.length s).
Proof.
  revert s. induction n as [|n IH]; intros [|c s]; cbn; try reflexivity.
  by rewrite IH.
Qed.

Lemma append_length (a b : string) :
  String.length (a +:+ b) = (String.length a + String.length b)%nat.
Proof.
  induction a as [|c a IH]; [reflexivity|].
  rewrite append_cons. cbn [String.length]. by rewrite IH.
Qed.

Lemma takeBytes_append n s t :
  (n <= String.length s)%nat ->
  takeBytes n (takeBytes n s +:+ t) = takeBytes n s.
Proof.
  revert s. induction n as [|n IH]; intros [|c s] Hn; cbn in *; try reflexivity.
  - lia.
  - rewrite append_cons. cbn. rewrite IH by lia. reflexivity.
Qed.

Lemma takeBytes_all n s : (String.length s <= n)%nat -> takeBytes n s = s.
Proof.
  revert s. induction n as [|n IH]; intros [|c s] Hn; cbn in *;
    try reflexivity; [lia|].
  rewrite IH by lia. reflexivity.
Qed.

(** X11. [Truncate] with a non-negative bound returns at most [maxLen + 3]
    bytes whose first [maxLen] bytes are those of the token; with a
    negative bound it panics on every token. *)
Theorem Truncate_bounded (token : string) (maxLen : Z) :
  (maxLen < 0 -> Truncate token maxLen = None) /\
  (0 <= maxLen ->
   exists out,
     Truncate token maxLen = Some out /\
     Z.of_nat (String.length out) <= maxLen + 3 /\
     takeBytes (Z.to_nat maxLen) out = takeBytes (Z.to_nat maxLen) token).
Proof.
  unfold Truncate. split.
  - intros Hneg.
    destruct (Z.leb_spec (Z.of_nat (String.length token)) maxLen); [lia|].
    destruct (Z.ltb_spec maxLen 0); [reflexivity|lia].
  - intros Hpos.
    destruct (Z.leb_spec (Z.of_nat (String.length token)) maxLen).
    + exists token. repeat split; lia.
    + destruct (Z.ltb_spec maxLen 0); [lia|].
      eexists. split; [reflexivity|]. split.
      * rewrite append_length, takeBytes_length. cbn. lia.
      * apply takeBytes_append. lia.
Qed.

End TokenMoreFacts.

(** ** The exec stream: ignored frames, error statuses, closing *)

Module StreamFacts.
Import Kubelet StreamSpec.

Section ReadExecOutput.

Variable UnmarshalExecStatus : string -> result ExecStatus.

Local Abbreviation onMessage := (onMessage UnmarshalExecStatus).
Local Abbreviation readLoop := (readLoop UnmarshalExecStatus).

Lemma onMessage_ignored message r :
  demultiplexed message = false -> onMessage message r = r.
Proof.
  destruct message as [|c data]; [reflexivity|].
  unfold demultiplexed, onChannel, StreamStdout, StreamStderr, StreamError.
  cbn [Kubelet.onMessage].
  destruct (nat_of_ascii c) as [|[|[|[|n]]]]; cbn; try discriminate;
    reflexivity.
Qed.

(** X12. Frames of any other channel (stdin, resize, unknown) and empty frames
    leave the result untouched: dropping them from the stream changes
    nothing. *)
Theorem readLoop_ignores_other_channels frames closing r :
  readLoop (List.filter demultiplexed frames) closing r
  = readLoop frames closing r.
Proof.
  revert r. induction frames as [|message frames IH]; intros r; [reflexivity|].
  cbn [List.filter Kubelet.readLoop].
  destruct (demultiplexed message) eqn:E.
  - cbn [Kubelet.readLoop]. apply IH.
  - rewrite (onMessage_ignored _ _ E). apply IH.
Qed.

Lemma onMessage_error_kept message r :
  onChannel StreamError message = false ->
  execError (onMessage message r) = execError r.
Proof.
  destruct message as [|c data]; [reflexivity|].
  unfold onChannel, StreamError. cbn [Kubelet.onMessage].
  destruct (nat_of_ascii c) as [|[|[|[|n]]]]; cbn; try discriminate;
    reflexivity.
Qed.

Lemma readLoop_error_kept frames closing : forall r,
  Forall (fun m => onChannel StreamError m = false) frames ->
  execError r <> "" ->
  execError (readLoop frames closing r) = execError r.
Proof.
  induction frames as [|message frames IH]; intros r Hno Hset.
  - cbn [Kubelet.readLoop].
    destruct (IsCloseError closing _); [reflexivity|].
    apply String.eqb_neq in Hset. rewrite Hset. reflexivity.
  - apply Forall_cons in Hno as [Hm Hno]. cbn [Kubelet.readLoop].
    rewrite IH; [by apply onMessage_error_kept|exact Hno|].
    by rewrite onMessage_error_kept.
Qed.

Lemma readLoop_app pre post closing r :
  readLoop (pre ++ post) closing r
  = readLoop post closing (fold_left (fun r m => onMessage m r) pre r).
Proof.
  revert r. induction pre as [|m pre IH]; intros r; [reflexivity|].
  cbn [app Kubelet.readLoop fold_left]. apply IH.
Qed.

(** X13. A status on the error channel that is not "Success" is surfaced: when
    it is the last error frame of the stream, the returned error is its
    message (or the frame's raw payload when the message is empty),
    however the stream is closed afterwards. *)
Theorem readLoop_surfaces_failure_status
    (pre post : list string) (data : string) (st : ExecStatus)
    closing r :
  UnmarshalExecStatus data = Ok st ->
  Status st <> "Success" ->
  Forall (fun m => onChannel StreamError m = false) post ->
  (if (Message st =? "")%string then data else Message st) <> "" ->
  execError (readLoop (pre ++ String "003"%char data :: post) closing r)
  = (if (Message st =? "")%string then data else Message st).
Proof.
  intros Hst Hfail Hpost Hne. rewrite readLoop_app. cbn [Kubelet.readLoop].
  set (r' := fold_left _ pre r).
  assert (execError (onMessage (String "003"%char data) r')
          = (if (Message st =? "")%string then data else Message st)) as Herr.
  { cbn [Kubelet.onMessage]. cbn. unfold onErrorChannel. rewrite Hst.
    apply String.eqb_neq in Hfail. rewrite Hfail. cbn [negb].
    cbn [withError execError]. by destruct (Message st =? "")%string. }
  rewrite readLoop_error_kept; [exact Herr|exact Hpost|by rewrite Herr].
Qed.

Lemma onMessage_success message r :
  (onChannel StreamError message = true ->
   exists st, UnmarshalExecStatus (payload message) = Ok st /\
              Status st = "Success") ->
  execError (onMessage message r) = execError r.
Proof.
  intros Hok. destruct (onChannel StreamError message) eqn:E;
    [|by apply onMessage_error_kept].
  destruct (Hok eq_refl) as (st & Hst & Hs).
  destruct message as [|c data]; [reflexivity|].
  unfold onChannel, StreamError in E. cbn [Kubelet.onMessage].
  destruct (nat_of_ascii c) as [|[|[|[|n]]]]; try discriminate E.
  cbn [payload] in Hst. unfold onErrorChannel. by rewrite Hst, Hs.
Qed.

(** X14. A stream whose error frames all carry a "Success" status reports no
    error when it closes normally or is going away, or when the read error
    mentions "close"; any other read error is reported verbatim. *)
Theorem readExecOutput_error_of_clean_stream frames closing :
  (forall m, m ∈ frames -> onChannel StreamError m = true ->
     exists st, UnmarshalExecStatus (payload m) = Ok st /\
                Status st = "Success") ->
  exists res,
    readExecOutput UnmarshalExecStatus frames closing = Ok res /\
    execError res =
      if IsCloseError closing [CloseNormalClosure; CloseGoingAway]
         || Contains (errorText closing) "close"
      then "" else errorText closing.
Proof.
  intros Hok. eexists. split; [reflexivity|].
  assert (forall r, execError r = "" ->
            execError (readLoop frames closing r) =
            if IsCloseError closing [CloseNormalClosure; CloseGoingAway]
               || Contains (errorText closing) "close"
            then "" else errorText closing) as H; [|by apply H].
  induction frames as [|m frames IH]; intros r Hr.
  - cbn [Kubelet.readLoop].
    destruct (IsCloseError closing _); [exact Hr|]. rewrite Hr. cbn.
    by destruct (Contains (errorText closing) "close").
  - cbn [Kubelet.readLoop]. apply IH.
    + intros m' Hin. apply Hok. by right.
    + rewrite onMessage_success; [exact Hr|]. apply Hok. by left.
Qed.

End ReadExecOutput.

End StreamFacts.

(** ** Batch permission checks feed the classifier *)

Module K8sFacts.
Import Config Rbac K8s RbacFacts.

Section CheckPermissions.

Variable CheckPermission : PermissionRequest -> result bool.

Lemma checkOne_allowed req :
  Allowed (checkOne CheckPermission req) = true <-> CheckPermission req = Ok true.
Proof.
  unfold checkOne. cbn. destruct (CheckPermission req) as [[]|e];
    split; congruence.
Qed.

(** X15. [CheckPermissions] never fails and answers request by request, in
    order; a probe counts as allowed only if its review succeeded and said
    so. Hence when every review fails or denies (an unreachable API server,
    say), the account is rated NONE and not cluster-admin. *)
Theorem CheckPermissions_fails_closed (reqs : list PermissionRequest) :
  exists results,
    CheckPermissions CheckPermission reqs = Ok results /\
    (fun p => (Resource p, Verb p, Group p, Subresource p)) <$> results
      = (fun q => (rqResource q, rqVerb q, rqGroup q, rqSubresource q)) <$> reqs /\
    (forall i req p, reqs !! i = Some req -> results !! i = Some p ->
       (Allowed p = true <-> CheckPermission req = Ok true)) /\
    ((forall req, req ∈ reqs -> CheckPermission req <> Ok true) ->
     CalculateRiskLevel results = RiskNone /\ IsClusterAdmin results = false).
Proof.
  eexists. split; [reflexivity|]. split; [|split].
  - rewrite <- list_fmap_compose. reflexivity.
  - intros i req p Hreq Hp. rewrite list_lookup_fmap, Hreq in Hp.
    injection Hp as <-. apply checkOne_allowed.
  - intros Hall.
    assert (allowedSubset (checkOne CheckPermission <$> reqs) = []) as Hnone.
    { induction reqs as [|req reqs' IH]; [reflexivity|].
      cbn [fmap list_fmap allowedSubset List.filter].
      destruct (Allowed (checkOne CheckPermission req)) eqn:E.
      - apply checkOne_allowed in E. exfalso. apply (Hall req); [left|exact E].
      - apply IH. intros req' Hin. apply Hall. by right. }
    split.
    + rewrite CalculateRiskLevel_decision_order_aux. unfold classifySpec.
      by rewrite Hnone.
    + by rewrite IsClusterAdmin_existsb, Hnone.
Qed.

End CheckPermissions.

End K8sFacts.

(** ** The sensitive-volume list, entry by entry *)

Module VolumeFacts.
Import Extract Spec StreamSpec ExtractFacts.

Lemma volumesLoop_spec mountPaths volumes : forall acc,
  volumesLoop mountPaths volumes acc =
  acc ++ omap (fun v => resolved mountPaths v <$> sensitiveOf v) volumes.
Proof.
  induction volumes as [|v volumes IH]; intros acc; cbn [volumesLoop omap list_omap].
  - by rewrite app_nil_r.
  - unfold resolved at 2. destruct (sensitiveOf v) as [sv|]; cbn [fmap option_fmap option_map].
    + rewrite IH, <- app_assoc. reflexivity.
    + apply IH.
Qed.

Lemma resolved_name mountPaths v sv :
  svName (resolved mountPaths v sv) = svName sv.
Proof. unfold resolved. by destruct (mountPaths !! vsName v). Qed.

Lemma resolved_type mountPaths v sv :
  svType (resolved mountPaths v sv) = svType sv.
Proof. unfold resolved. by destruct (mountPaths !! vsName v). Qed.

Lemma sensitiveOf_unmounted v sv :
  sensitiveOf v = Some sv -> svMountPath sv = "".
Proof.
  unfold sensitiveOf.
  destruct (vsSecret v); [by intros [= <-]|].
  destruct (vsHostPath v); [by intros [= <-]|].
  destruct (vsProjected v) as [sources|]; [|discriminate].
  induction sources as [|src sources IH]; cbn [projectedLoop]; [discriminate|].
  destruct (psServiceAccountToken src); [by intros [= <-]|].
  destruct (psSecret src); [by intros [= <-]|exact IH].
Qed.


End VolumeFacts.

(** ** Scan tasks: outcomes, what reaches the repository, ordering, flags *)

Module ScanMoreFacts.
Import Config Rbac RiskRules Scan Spec TaskSpec ScanView RbacFacts.

Lemma append_nonempty (a b : string) : a <> "" -> a +:+ b <> "".
Proof. destruct a; [congruence|]. by rewrite append_cons. Qed.

Section ScanPodToken.

Variable kubeletExec : ExecOptions -> result ExecResult.
Variable TrimSpace : string -> string.
Variable RawURLDecode : string -> result string.
Variable StdDecode : string -> result string.
Variable UnmarshalClaims : string -> result (gmap string JSON).
Variable now : Time.
Variable GetK8sClient :
  string -> result (string -> result (list PermissionCheck)).

Local Abbreviation scanPodToken :=
  (scanPodToken kubeletExec TrimSpace RawURLDecode StdDecode UnmarshalClaims
     now GetK8sClient).

Lemma failed_taskOutcome pod e base :
  e <> "" ->
  resNamespace base = pcNamespace pod -> resPodName base = pcPodName pod ->
  resSecurityFlags base = pcSecurityFlags pod ->
  resPermissions base = [] -> resRiskLevel base = RiskNone ->
  resIsClusterAdmin base = false ->
  taskOutcome pod (withResError e base).
Proof.
  intros He Hn Hp Hf Hperms Hlevel Hadmin. unfold taskOutcome. cbn.
  split; [exact Hn|]. split; [exact Hp|]. split; [exact Hf|].
  split; [by intros _|]. intros Heq. by destruct He.
Qed.

(** X17. Every task result names its pod and carries the pod's security
    flags. A failed task (non-empty error) reports no permissions, tier
    NONE and no cluster-admin flag; a successful one holds a non-empty
    token, its parsed token info, and that info's ServiceAccount. *)
Theorem scanPodToken_outcome (pod : PodContainerInfo) :
  let r := scanPodToken pod in
  resNamespace r = pcNamespace pod /\ resPodName r = pcPodName pod /\
  resSecurityFlags r = pcSecurityFlags pod /\
  (resError r <> "" ->
   resPermissions r = [] /\ resRiskLevel r = RiskNone /\
   resIsClusterAdmin r = false) /\
  (resError r = "" ->
   resToken r <> "" /\
   Some (resContainer r) = head (pcContainers pod) /\
   exists tokenInfo,
     resTokenInfo r = Some tokenInfo /\
     resServiceAccount r = ServiceAccount tokenInfo).
Proof.
  cbn zeta. change (taskOutcome pod (scanPodToken pod)).
  unfold Scan.scanPodToken.
  destruct (pcContainers pod) as [|first rest] eqn:Ec;
    [by apply failed_taskOutcome|].
  destruct (kubeletExec _) as [execResult|e];
    [|by apply failed_taskOutcome; [apply append_nonempty|..]].
  destruct (negb (execError execResult =? "")%string);
    [by apply failed_taskOutcome; [apply append_nonempty|..]|].
  destruct (resToken _ =? "")%string eqn:Etoken;
    [by apply failed_taskOutcome|].
  apply String.eqb_neq in Etoken.
  destruct (Token.Parse _ _ _ _ _) as [tokenInfo|e];
    [|by apply failed_taskOutcome; [apply append_nonempty|..]].
  destruct (GetK8sClient _) as [check|e];
    [|by apply failed_taskOutcome; [apply append_nonempty|..]].
  destruct (check _) as [permissions|e];
    [|by apply failed_taskOutcome; [apply append_nonempty|..]].
  unfold taskOutcome. cbn. rewrite Ec. cbn.
  split; [reflexivity|]. split; [reflexivity|]. split; [reflexivity|].
  split; [by intros []|]. intros _. split; [exact Etoken|].
  split; [reflexivity|]. by exists tokenInfo.
Qed.

Lemma scanPodToken_counted pod :
  counted (scanPodToken pod) = true -> is_Some (resTokenInfo (scanPodToken pod)).
Proof.
  intros Hc. unfold counted in Hc. apply andb_prop in Hc as [He _].
  apply String.eqb_eq in He. revert He. unfold Scan.scanPodToken.
  destruct (pcContainers pod) as [|first rest]; [discriminate|].
  destruct (kubeletExec _) as [execResult|e];
    [|by intros He; apply append_nonempty in He].
  destruct (negb (execError execResult =? "")%string);
    [by intros He; apply append_nonempty in He|].
  destruct (resToken _ =? "")%string; [discriminate|].
  destruct (Token.Parse _ _ _ _ _) as [tokenInfo|e];
    [|by intros He; apply append_nonempty in He].
  destruct (GetK8sClient _) as [check|e];
    [|by intros He; apply append_nonempty in He].
  destruct (check _) as [permissions|e];
    [|by intros He; apply append_nonempty in He].
  intros _. by exists tokenInfo.
Qed.

End ScanPodToken.

Section SaveResults.

Variable MarshalPods : list SAPodInfo -> string.
Variable UnmarshalPods : string -> list SAPodInfo.
Variable MarshalPermissions : list SAPermission -> string.
Variable MarshalSecurityFlags : SASecurityFlags -> string.
Variable FormatRFC3339 : Time -> string.
Variable clock : nat -> Time.
Variable kubeletIP : string.

Local Abbreviation coalesceLoop :=
  (coalesceLoop MarshalPods UnmarshalPods MarshalPermissions
     MarshalSecurityFlags FormatRFC3339 clock kubeletIP).

(** The keys of [saMap] grow by the keys of the counted results, and the
    loop only stops short on a counted result without token info. *)
Lemma coalesceLoop_keys results : forall i saMap,
  (forall r, r ∈ results -> counted r = true -> is_Some (resTokenInfo r)) ->
  exists saMap',
    coalesceLoop i results saMap = Some saMap' /\
    forall k, is_Some (saMap' !! k) <->
              is_Some (saMap !! k) \/
              exists r, r ∈ results /\ counted r = true /\ hasKey k r = true.
Proof.
  induction results as [|r results IH]; intros i saMap Hwf.
  - exists saMap. split; [reflexivity|]. intros k. split; [by left|].
    intros [H|(r & Hr & _)]; [exact H|by apply elem_of_nil in Hr].
  - cbn [Scan.coalesceLoop].
    assert (forall r', r' ∈ results -> counted r' = true ->
                       is_Some (resTokenInfo r')) as Hwf'
      by (intros r' Hin; apply Hwf; by right).
    destruct (negb (resError r =? "")%string
              || (resServiceAccount r =? "")%string) eqn:Eskip.
    + destruct (IH (S i) saMap Hwf') as (saMap' & Hrun & Hkeys).
      exists saMap'. split; [exact Hrun|]. intros k. rewrite Hkeys.
      split; (intros [H|(r' & Hr' & Hc & Hk)]; [by left|right]).
      * exists r'. split; [by right|by split].
      * apply elem_of_cons in Hr' as [->|Hr']; [|by exists r'].
        unfold counted in Hc. exfalso.
        destruct (resError r =? "")%string, (resServiceAccount r =? "")%string;
          discriminate.
    + assert (counted r = true) as Hc.
      { unfold counted.
        destruct (resError r =? "")%string, (resServiceAccount r =? "")%string;
          try discriminate; reflexivity. }
      destruct (Hwf r ltac:(left) Hc) as [tokenInfo Hti]. rewrite Hti.
      set (key := keyOf tokenInfo r).
      assert (forall (rec : ServiceAccountRecord) k,
                is_Some (<[key := rec]> saMap !! k) <->
                is_Some (saMap !! k) \/ hasKey k r = true) as Hins.
      { intros rec k. unfold hasKey. rewrite Hti. fold key.
        destruct (String.eqb_spec key k) as [<-|Hne].
        - rewrite lookup_insert_eq. split; [by right|by eexists].
        - rewrite lookup_insert_ne by exact Hne. split; [by left|].
          intros [H|H]; [exact H|discriminate]. }
      assert (forall saMap1,
                (forall k, is_Some (saMap1 !! k) <->
                           is_Some (saMap !! k) \/ hasKey k r = true) ->
                exists saMap',
                  coalesceLoop (S i) results saMap1 = Some saMap' /\
                  forall k, is_Some (saMap' !! k) <->
                    is_Some (saMap !! k) \/
                    exists r', r' ∈ r :: results /\ counted r' = true
                               /\ hasKey k r' = true) as Hstep.
      { intros saMap1 H1.
        destruct (IH (S i) saMap1 Hwf') as (saMap' & Hrun & Hkeys).
        exists saMap'. split; [exact Hrun|]. intros k. rewrite Hkeys, H1.
        split.
        - intros [[H|H]|(r' & Hr' & Hc' & Hk')]; [by left|right|right].
          + exists r. split; [left|by split].
          + exists r'. split; [by right|by split].
        - intros [H|(r' & Hr' & Hc' & Hk')]; [by left; left|].
          apply elem_of_cons in Hr' as [->|Hr']; [by left; right|].
          right. by exists r'. }
      destruct (saMap !! key); apply Hstep, Hins.
Qed.

End SaveResults.

(** X18. On the results of scan tasks, [saveResults] never reads through a
    nil token info, and the map it builds has a record for a key exactly
    when some task succeeded with a non-empty ServiceAccount under that
    key: failed tasks and tokens without identity leave no record. *)
Theorem saveResults_keeps_successful_tasks_only
    (kubeletExec : ExecOptions -> result ExecResult)
    (TrimSpace : string -> string)
    (RawURLDecode StdDecode : string -> result string)
    (UnmarshalClaims : string -> result (gmap string JSON))
    (now : Time)
    (GetK8sClient : string -> result (string -> result (list PermissionCheck)))
    (MarshalPods : list SAPodInfo -> string)
    (UnmarshalPods : string -> list SAPodInfo)
    (MarshalPermissions : list SAPermission -> string)
    (MarshalSecurityFlags : SASecurityFlags -> string)
    (FormatRFC3339 : Time -> string)
    (clock : nat -> Time)
    (kubeletIP : string)
    (pods : list PodContainerInfo) :
  let scan := scanPodToken kubeletExec TrimSpace RawURLDecode StdDecode
                UnmarshalClaims now GetK8sClient in
  exists saMap,
    coalesceLoop MarshalPods UnmarshalPods MarshalPermissions
      MarshalSecurityFlags FormatRFC3339 clock kubeletIP 0 (scan <$> pods) ∅
      = Some saMap /\
    forall k,
      is_Some (saMap !! k) <->
      exists pod tokenInfo,
        pod ∈ pods /\ resError (scan pod) = "" /\
        resServiceAccount (scan pod) <> "" /\
        resTokenInfo (scan pod) = Some tokenInfo /\
        k = Namespace tokenInfo +:+ "/" +:+ resServiceAccount (scan pod).
Proof.
  intros scan.
  destruct (coalesceLoop_keys MarshalPods UnmarshalPods MarshalPermissions
              MarshalSecurityFlags FormatRFC3339 clock kubeletIP
              (scan <$> pods) 0%nat ∅) as (saMap & Hrun & Hkeys).
  { intros r Hr Hc. apply list_elem_of_fmap in Hr as (pod & -> & _).
    by apply scanPodToken_counted. }
  exists saMap. split; [exact Hrun|]. intros k. rewrite Hkeys. split.
  - intros [H|(r & Hr & Hc & Hk)].
    { rewrite lookup_empty in H. by destruct H. }
    apply list_elem_of_fmap in Hr as (pod & -> & Hpod).
    unfold counted in Hc. apply andb_prop in Hc as [He Hs].
    apply String.eqb_eq in He. apply negb_true_iff, String.eqb_neq in Hs.
    unfold hasKey in Hk.
    destruct (resTokenInfo (scan pod)) as [tokenInfo|] eqn:Hti;
      [|discriminate].
    apply String.eqb_eq in Hk. exists pod, tokenInfo.
    split; [exact Hpod|]. split; [exact He|]. split; [exact Hs|].
    split; [exact Hti|]. symmetry. exact Hk.
  - intros (pod & tokenInfo & Hpod & He & Hs & Hti & ->). right.
    exists (scan pod). split; [by apply list_elem_of_fmap_2|]. split.
    + unfold counted. rewrite He. apply String.eqb_neq in Hs. by rewrite Hs.
    + unfold hasKey. rewrite Hti. apply String.eqb_refl.
Qed.

(** The order tiers are ranked by: every tier ranks in 0..5. *)
Lemma riskLevelOrder_range l : 0 <= riskLevelOrder l <= 5.
Proof.
  unfold riskLevelOrder.
  destruct (RiskLevelOrder !! l) as [n|] eqn:E; cbn; [|lia].
  apply elem_of_list_to_map_2 in E.
  repeat (apply elem_of_cons in E as [Heq|E];
          [injection Heq as _ ->; lia|]).
  by apply elem_of_nil in E.
Qed.

(** X19. The comparison that [sortByRisk] sorts by is a strict weak order:
    irreflexive, transitive, with a transitive "neither is less"; and it
    puts every cluster-admin result before every other result. *)
Theorem lessByRisk_strict_weak_order :
  (forall a, lessByRisk a a = false) /\
  (forall a b c, lessByRisk a b = true -> lessByRisk b c = true ->
                 lessByRisk a c = true) /\
  (forall a b c, lessByRisk a b = false -> lessByRisk b c = false ->
                 lessByRisk a c = false) /\
  (forall a b, resIsClusterAdmin a = true -> resIsClusterAdmin b = false ->
               lessByRisk a b = true /\ lessByRisk b a = false).
Proof.
  unfold lessByRisk. split; [|split; [|split]].
  - intros a. rewrite Bool.eqb_reflx. cbn. apply Z.ltb_irrefl.
  - intros a b c.
    destruct (resIsClusterAdmin a), (resIsClusterAdmin b),
      (resIsClusterAdmin c); cbn; try discriminate; try reflexivity;
      rewrite !Z.ltb_lt; lia.
  - intros a b c.
    destruct (resIsClusterAdmin a), (resIsClusterAdmin b),
      (resIsClusterAdmin c); cbn; try discriminate; try reflexivity;
      rewrite !Z.ltb_ge; lia.
  - intros a b Ha Hb. rewrite Ha, Hb. by split.
Qed.

Section BuildFlags.

Variable Colored : string -> string -> string.

(** The printer's colouring keeps the text it colours readable. *)
Hypothesis Colored_keeps_text :
  forall color text, Contains (Colored color text) text = true.

Lemma containsFlag_app flags more flag :
  containsFlag (flags ++ more) flag
  = containsFlag flags flag || containsFlag more flag.
Proof.
  induction flags as [|f flags IH]; [reflexivity|].
  cbn [app containsFlag]. destruct (Contains f flag); [reflexivity|exact IH].
Qed.

Lemma permissionFlag_keeps perms : forall flags flag,
  containsFlag flags flag = true ->
  containsFlag (permissionFlag Colored perms flags) flag = true.
Proof.
  induction perms as [|perm perms IH]; intros flags flag H; [exact H|].
  cbn [permissionFlag].
  destruct (negb (Allowed perm)); [by apply IH|].
  destruct (IsPrivilegeEquivalent _ _); [|by apply IH].
  destruct (negb (containsFlag flags "PRIV")); [|exact H].
  by rewrite containsFlag_app, H.
Qed.

Lemma permissionFlag_marks perms : forall flags p,
  p ∈ perms -> Allowed p = true ->
  IsPrivilegeEquivalent (probeResource p) (Verb p) = true ->
  containsFlag (permissionFlag Colored perms flags) "PRIV" = true.
Proof.
  induction perms as [|q perms IH]; intros flags p Hin Ha Heq.
  - by apply elem_of_nil in Hin.
  - cbn [permissionFlag].
    destruct (Allowed q) eqn:Eq; cbn [negb].
    + destruct (IsPrivilegeEquivalent (probeResource q) (Verb q)) eqn:Ep.
      * destruct (containsFlag flags "PRIV") eqn:E; cbn [negb]; [exact E|].
        rewrite containsFlag_app. cbn [containsFlag].
        by rewrite Colored_keeps_text, orb_true_r.
      * apply elem_of_cons in Hin as [->|Hin]; [congruence|].
        by apply (IH flags p).
    + apply elem_of_cons in Hin as [->|Hin]; [congruence|].
      by apply (IH flags p).
Qed.

(** X20. A privileged pod, or an allowed permission that
    [IsPrivilegeEquivalent] accepts (such as the cluster-admin probe,
    [nodes/proxy get], [pods/exec create]), puts a flag reading PRIV on the
    scan row. *)
Theorem buildFlags_marks_privilege (result : SATokenResult) :
  Privileged (resSecurityFlags result) = true \/
  (exists p, p ∈ resPermissions result /\ Allowed p = true /\
             IsPrivilegeEquivalent (probeResource p) (Verb p) = true) ->
  containsFlag (flagList Colored result) "PRIV" = true /\
  buildFlags Colored result = Join (flagList Colored result) ",".
Proof.
  intros H.
  assert (containsFlag (flagList Colored result) "PRIV" = true) as Hpriv.
  { unfold flagList. destruct H as [Hp|(p & Hin & Ha & Heq)].
    - apply permissionFlag_keeps. unfold podFlags. rewrite Hp.
      cbn [app containsFlag]. by rewrite Colored_keeps_text.
    - by apply (permissionFlag_marks _ _ p). }
  split; [exact Hpriv|]. unfold buildFlags.
  destruct (flagList Colored result); [discriminate Hpriv|reflexivity].
Qed.

End BuildFlags.

End ScanMoreFacts.

(** ** The repository: reading back a batch, failures around the loop *)

Module RepoFacts.
Import DB Repo DBFacts.

Lemma writeAll_lookup records : forall st namespace name,
  match lastWrite namespace name records with
  | Some r =>
      exists id, seq st < id /\
        rows (writeAll records st) !! (name, namespace) = Some (withID id r)
  | None =>
      rows (writeAll records st) !! (name, namespace)
      = rows st !! (name, namespace)
  end /\ seq st <= seq (writeAll records st).
Proof.
  unfold lastWrite.
  induction records as [|r records IH]; intros st namespace name.
  - cbn. split; [reflexivity|lia].
  - rewrite writeAll_cons. cbn [List.filter].
    destruct (IH (insertOrReplace r st) namespace name) as [IHl IHs].
    cbn [insertOrReplace seq] in IHs.
    split; [|cbn [insertOrReplace seq] in *; lia].
    destruct ((saName r =? name)%string && (saNamespace r =? namespace)%string)
      eqn:E.
    + apply andb_prop in E as [En Ens].
      apply String.eqb_eq in En, Ens. rewrite last_cons.
      destruct (last _) as [r'|].
      * destruct IHl as (id & Hid & Hl). exists id.
        cbn [insertOrReplace seq] in Hid. split; [lia|exact Hl].
      * rewrite IHl. cbn [insertOrReplace rows]. rewrite <- En, <- Ens.
        rewrite lookup_insert_eq. exists (seq st + 1). split; [lia|reflexivity].
    + destruct (last _) as [r'|].
      * destruct IHl as (id & Hid & Hl). exists id.
        cbn [insertOrReplace seq] in Hid. split; [lia|exact Hl].
      * rewrite IHl. cbn [insertOrReplace rows]. apply lookup_insert_ne.
        intros [= Hn Hns]. rewrite Hn, Hns, !String.eqb_refl in E.
        discriminate E.
Qed.

Lemma SaveBatch_no_fault f conn records :
  beginErr f = None -> prepareErr f = None -> commitErr f = None ->
  (forall n, (n < length records)%nat -> execErr f n = None) ->
  SaveBatch f conn records = (writeAll records conn, length records, None).
Proof.
  intros Hb Hp Hc He. unfold SaveBatch, txBegin. rewrite Hb, Hp.
  pose proof (execLoop_spec f records 0 (mkTx conn conn false)) as H.
  destruct (execLoop f records 0 _) as [[tx saved] err].
  destruct H as (Hcm & Hd & H). cbn in Hcm, Hd.
  destruct err as [e|].
  - destruct H as (k & Hk & _ & Hne & _). exfalso. apply Hne, He, Hk.
  - destruct H as (Hw & Hs & _). cbn in Hw, Hs. unfold txCommit.
    rewrite Hd, Hc. cbn. by rewrite Hw, Hs.
Qed.

(** X21. Round trip of a batch that goes through: afterwards [GetByName]
    returns, for a (namespace, name) written by the batch, the LAST record
    of the batch with that key, under a fresh id and with every other
    column as given; for any other key it returns what it returned
    before. *)
Theorem SaveBatch_then_GetByName f conn records namespace name :
  beginErr f = None -> prepareErr f = None -> commitErr f = None ->
  (forall n, (n < length records)%nat -> execErr f n = None) ->
  match SaveBatch f conn records with
  | (conn', saved, err) =>
      err = None /\ saved = length records /\
      match lastWrite namespace name records with
      | Some r =>
          exists stored,
            GetByName conn' namespace name = Some stored /\
            sameColumns stored r /\ seq conn < saID stored
      | None => GetByName conn' namespace name = GetByName conn namespace name
      end
  end.
Proof.
  intros Hb Hp Hc He. rewrite (SaveBatch_no_fault f conn records Hb Hp Hc He).
  split; [reflexivity|]. split; [reflexivity|].
  destruct (writeAll_lookup records conn namespace name) as [H _].
  unfold GetByName. destruct (lastWrite namespace name records) as [r|].
  - destruct H as (id & Hid & Hl). exists (withID id r).
    split; [exact Hl|]. split; [reflexivity|exact Hid].
  - exact H.
Qed.

(** X22. Failures around the loop: when [Begin] or [Prepare] fails, the count
    is 0; when every statement runs but [Commit] fails, the count is the
    full batch size although nothing was persisted. In all three cases an
    error is returned and the store is as it was. *)
Theorem SaveBatch_failure_outside_loop f conn records :
  (beginErr f <> None \/ (beginErr f = None /\ prepareErr f <> None) ->
   exists e, SaveBatch f conn records = (conn, 0%nat, Some e)) /\
  (beginErr f = None -> prepareErr f = None ->
   (forall n, (n < length records)%nat -> execErr f n = None) ->
   commitErr f <> None ->
   exists e, SaveBatch f conn records = (conn, length records, Some e)).
Proof.
  split.
  - unfold SaveBatch, txBegin. intros [Hb|[Hb Hp]].
    + destruct (beginErr f) as [e|]; [by eexists|by destruct Hb].
    + rewrite Hb. destruct (prepareErr f) as [e|]; [by eexists|by destruct Hp].
  - intros Hb Hp He Hc. unfold SaveBatch, txBegin. rewrite Hb, Hp.
    pose proof (execLoop_spec f records 0 (mkTx conn conn false)) as H.
    destruct (execLoop f records 0 _) as [[tx saved] err].
    destruct H as (Hcm & Hd & H). cbn in Hcm, Hd.
    destruct err as [e|].
    + destruct H as (k & Hk & _ & Hne & _). exfalso. apply Hne, He, Hk.
    + destruct H as (_ & Hs & _). cbn in Hs. unfold txCommit. rewrite Hd.
      destruct (commitErr f) as [e|]; [|by destruct Hc].
      cbn. rewrite Hcm, Hs. by eexists.
Qed.

End RepoFacts.

(** ** Pod risk flags and dangerous host paths *)

Module PodRiskFacts.
Import Security PodRisk.

Lemma prefix_nil (s : string) : String.prefix "" s = true.
Proof. by destruct s. Qed.

Lemma prefix_append_r (a b c : string) :
  String.prefix a b = true -> String.prefix a (b +:+ c) = true.
Proof.
  revert b. induction a as [|x a IH]; intros b H; [apply prefix_nil|].
  destruct b as [|y b]; [discriminate H|].
  rewrite append_cons. cbn [String.prefix] in *.
  destruct (ascii_dec x y); [by apply IH|discriminate H].
Qed.

Lemma prefix_append_self (a c : string) : String.prefix a (a +:+ c) = true.
Proof.
  induction a as [|x a IH]; [apply prefix_nil|].
  rewrite append_cons. cbn [String.prefix].
  destruct (ascii_dec x x); [exact IH|congruence].
Qed.

Lemma dangerousAmong_subpath dangerous path rest :
  dangerousAmong dangerous path = true ->
  dangerousAmong dangerous (path +:+ "/" +:+ rest) = true.
Proof.
  induction dangerous as [|d dangerous IH]; cbn [dangerousAmong];
    [discriminate|].
  destruct ((path =? d)%string || String.prefix (d +:+ "/") path) eqn:E.
  - intros _. apply orb_prop in E as [E|E].
    + apply String.eqb_eq in E. rewrite <- E.
      assert (String.prefix (path +:+ "/") (path +:+ "/" +:+ rest) = true)
        as ->; [|by rewrite orb_true_r].
      rewrite <- (append_assoc path "/" rest). apply prefix_append_self.
    + rewrite (prefix_append_r _ _ _ E), orb_true_r. reflexivity.
  - intros H. rewrite (IH H).
    match goal with |- (if ?b then _ else _) = _ => destruct b end;
      reflexivity.
Qed.

(** X23. Whatever lies under a dangerous host path is dangerous too: appending
    ["/..."] to a path that [IsDangerousHostPath] accepts keeps it
    accepted. The root entry ["/"] does not make every absolute path
    dangerous: it covers ["/"] itself and paths starting with ["//"]. *)
Theorem IsDangerousHostPath_subpaths (path rest : string) :
  (IsDangerousHostPath path = true ->
   IsDangerousHostPath (path +:+ "/" +:+ rest) = true) /\
  IsDangerousHostPath "/" = true /\
  IsDangerousHostPath "/data" = false /\
  IsDangerousHostPath "/etc/kubernetes/pki" = true /\
  IsDangerousHostPath "/etcd" = false.
Proof.
  split; [apply dangerousAmong_subpath|]. repeat split; vm_compute; reflexivity.
Qed.

Section RunAsRoot.

Variable UnmarshalContainers : string -> result (list ContainerInfo).

Local Abbreviation GetRiskFlags := (GetRiskFlags UnmarshalContainers).
Local Abbreviation IsPodRisky := (IsPodRisky UnmarshalContainers).
Local Abbreviation CheckRunAsRoot := (CheckRunAsRoot UnmarshalContainers).

(** X24. [IsPodRisky] holds exactly when [GetRiskFlags] lists a flag; the
    flags PRIV, PE, HP and SEC are listed exactly when [GetSecurityFlags]
    sets the matching field, and ROOT exactly when [CheckRunAsRoot] holds;
    flags come in the fixed order PRIV, PE, HP, SEC, ROOT. *)
Theorem IsPodRisky_iff_risk_flags (record : PodRecord) :
  (IsPodRisky record = true <-> GetRiskFlags record <> []) /\
  ("PRIV" ∈ GetRiskFlags record <->
   Privileged (GetSecurityFlags record) = true) /\
  ("PE" ∈ GetRiskFlags record <->
   AllowPrivilegeEscalation (GetSecurityFlags record) = true) /\
  ("HP" ∈ GetRiskFlags record <-> HasHostPath (GetSecurityFlags record) = true) /\
  ("SEC" ∈ GetRiskFlags record <->
   HasSecretMount (GetSecurityFlags record) = true) /\
  ("ROOT" ∈ GetRiskFlags record <->
   CheckRunAsRoot (prContainers record) = true) /\
  sublist (GetRiskFlags record) ["PRIV"; "PE"; "HP"; "SEC"; "ROOT"].
Proof.
  unfold PodRisk.IsPodRisky, PodRisk.GetRiskFlags, GetSecurityFlags.
  cbn [Privileged AllowPrivilegeEscalation HasHostPath HasSecretMount].
  destruct (CheckPrivileged _), (CheckAllowPrivilegeEscalation _),
    (CheckHostPath _), (CheckSecretMount _), (PodRisk.CheckRunAsRoot _ _);
    cbn [orb app]; split_and!;
    rewrite ?elem_of_cons, ?elem_of_nil;
    try (intuition congruence);
    repeat first
      [ apply sublist_nil | apply sublist_skip | apply sublist_cons ].
Qed.

End RunAsRoot.

End PodRiskFacts.

(** ** Command-line splitting *)

Module ExecutorFacts.
Import Executor.

Lemma parseStep_tidy st r : tidy st -> tidy (parseStep st r).
Proof.
  unfold tidy, parseStep. intros H.
  destruct ((r =? doubleQuote)%N || (r =? singleQuote)%N).
  - destruct (psInQuote st && (r =? psQuoteChar st)%N); [exact H|].
    destruct (negb (psInQuote st)); exact H.
  - destruct ((r =? space)%N || (r =? tab)%N); [|exact H].
    destruct (psInQuote st); [exact H|].
    destruct (psCurrent st) as [|x current] eqn:E; cbn; [exact H|].
    apply Forall_app. split; [exact H|]. by repeat constructor.
Qed.

Lemma fold_parseStep_tidy input : forall st,
  tidy st -> tidy (fold_left parseStep input st).
Proof.
  induction input as [|r input IH]; intros st H; [exact H|].
  cbn [fold_left]. by apply IH, parseStep_tidy.
Qed.

(** X25. [parseArgs] never returns an empty argument: blanks between
    arguments are dropped, and so is an empty pair of quotes. *)
Theorem parseArgs_no_empty_argument (input : list rune) :
  Forall (fun arg => arg <> []) (parseArgs input).
Proof.
  unfold parseArgs.
  pose proof (fold_parseStep_tidy input (mkParseState [] [] false 0%N)
                ltac:(constructor)) as H.
  set (st := fold_left _ _ _) in *. unfold tidy in H.
  destruct (psCurrent st) as [|x current] eqn:E; cbn; [exact H|].
  apply Forall_app. split; [exact H|]. by repeat constructor.
Qed.

Lemma parseStep_args_prefix args st r :
  parseStep (mkParseState (args ++ psArgs st) (psCurrent st) (psInQuote st)
               (psQuoteChar st)) r
  = let st' := parseStep st r in
    mkParseState (args ++ psArgs st') (psCurrent st') (psInQuote st')
      (psQuoteChar st').
Proof.
  destruct st as [done current inQuote quoteChar]. unfold parseStep. cbn.
  destruct ((r =? doubleQuote)%N || (r =? singleQuote)%N).
  - destruct (inQuote && (r =? quoteChar)%N); [reflexivity|].
    destruct (negb inQuote); reflexivity.
  - destruct ((r =? space)%N || (r =? tab)%N); [|reflexivity].
    destruct inQuote; [reflexivity|].
    destruct (negb (Nat.eqb (length current) 0)); cbn; [|reflexivity].
    by rewrite <- app_assoc.
Qed.

Lemma fold_parseStep_args_prefix input : forall args st,
  fold_left parseStep input
    (mkParseState (args ++ psArgs st) (psCurrent st) (psInQuote st)
       (psQuoteChar st))
  = let st' := fold_left parseStep input st in
    mkParseState (args ++ psArgs st') (psCurrent st') (psInQuote st')
      (psQuoteChar st').
Proof.
  induction input as [|r input IH]; intros args st; [reflexivity|].
  cbn [fold_left]. rewrite parseStep_args_prefix. cbn zeta. apply IH.
Qed.

Lemma fold_parseStep_word w : forall args current q,
  forallb plain w = true ->
  fold_left parseStep w (mkParseState args current false q)
  = mkParseState args (current ++ w) false q.
Proof.
  induction w as [|r w IH]; intros args current q Hw.
  - by rewrite app_nil_r.
  - cbn [forallb] in Hw. apply andb_prop in Hw as [Hr Hw].
    unfold plain, isQuote, isBlank in Hr. apply andb_prop in Hr as [Hq Hb].
    apply negb_true_iff in Hq, Hb.
    cbn [fold_left]. unfold parseStep at 2. rewrite Hq, Hb. cbn.
    rewrite IH by exact Hw. by rewrite <- app_assoc.
Qed.

Lemma parseStep_blank args current q blank :
  isBlank blank = true ->
  parseStep (mkParseState args current false q) blank
  = if negb (Nat.eqb (length current) 0)
    then mkParseState (args ++ [current]) [] false q
    else mkParseState args current false q.
Proof.
  intros Hblank.
  assert (isQuote blank = false) as Hq.
  { unfold isBlank, isQuote, space, tab, doubleQuote, singleQuote in *.
    apply orb_prop in Hblank as [H|H]; apply N.eqb_eq in H; by subst. }
  unfold isBlank in Hblank. unfold isQuote in Hq.
  unfold parseStep. rewrite Hq, Hblank. reflexivity.
Qed.

(** X26. Outside quotes, blanks separate arguments and nothing else does: a
    blank in front is skipped, and a non-empty word of plain runes (no
    quote, no blank) followed by a blank is one argument, after which the
    rest is split on its own; a plain word alone is the only argument. *)
Theorem parseArgs_splits_on_blanks (w rest : list rune) (blank : rune) :
  isBlank blank = true -> w <> [] -> forallb plain w = true ->
  parseArgs (blank :: rest) = parseArgs rest /\
  parseArgs (w ++ blank :: rest) = w :: parseArgs rest /\
  parseArgs w = [w].
Proof.
  intros Hblank Hne Hw. split; [|split].
  - unfold parseArgs. cbn [fold_left].
    by rewrite (parseStep_blank _ _ _ _ Hblank).
  - unfold parseArgs. rewrite fold_left_app. cbn [fold_left].
    rewrite fold_parseStep_word by exact Hw. cbn [app].
    rewrite (parseStep_blank _ _ _ _ Hblank).
    destruct w as [|r w]; [by destruct Hne|]. cbn [length Nat.eqb negb app].
    pose proof (fold_parseStep_args_prefix rest [r :: w]
                  (mkParseState [] [] false 0%N)) as H.
    cbn [psArgs psCurrent psInQuote psQuoteChar app] in H.
    rewrite H. cbn zeta.
    cbn [psArgs psCurrent psInQuote psQuoteChar].
    by destruct (negb _).
  - unfold parseArgs. rewrite fold_parseStep_word by exact Hw. cbn.
    by destruct w.
Qed.

(** X27. Quotes group: a non-empty text between two double quotes, holding
    no double quote itself, is one argument with its blanks and single
    quotes kept; the quotes themselves are removed. *)
Theorem parseArgs_quoted_text (body : list rune) :
  body <> [] -> forallb (fun r => negb (r =? doubleQuote)%N) body = true ->
  parseArgs (doubleQuote :: body ++ [doubleQuote]) = [body].
Proof.
  intros Hne Hbody. unfold parseArgs. cbn [fold_left].
  unfold parseStep at 2. cbn. rewrite fold_left_app.
  assert (forall current,
            fold_left parseStep body
              (mkParseState [] current true doubleQuote)
            = mkParseState [] (current ++ body) true doubleQuote) as Hfold.
  { clear Hne. induction body as [|r body IH]; intros current.
    - by rewrite app_nil_r.
    - cbn [forallb] in Hbody. apply andb_prop in Hbody as [Hr Hbody].
      apply negb_true_iff in Hr. cbn [fold_left].
      unfold parseStep at 2. cbn. rewrite Hr. cbn.
      assert (parseStepInside :
                (if (r =? singleQuote)%N
                 then mkParseState [] (current ++ [r]) true doubleQuote
                 else if (r =? space)%N || (r =? tab)%N
                      then mkParseState [] (current ++ [r]) true doubleQuote
                      else mkParseState [] (current ++ [r]) true doubleQuote)
                = mkParseState [] (current ++ [r]) true doubleQuote).
      { destruct (r =? singleQuote)%N; [reflexivity|].
        by destruct ((r =? space)%N || (r =? tab)%N). }
      rewrite parseStepInside, (IH Hbody). by rewrite <- app_assoc. }
  rewrite Hfold. cbn. destruct body; [by destruct Hne|reflexivity].
Qed.

End ExecutorFacts.

(** ** What [saveResults] reports *)

Module SaveCountFacts.
Import Config Scan Spec DB RepoFacts.

Section SaveResults.

Variable MarshalPods : list SAPodInfo -> string.
Variable UnmarshalPods : string -> list SAPodInfo.
Variable MarshalPermissions : list SAPermission -> string.
Variable MarshalSecurityFlags : SASecurityFlags -> string.
Variable FormatRFC3339 : Time -> string.
Variable clock : nat -> Time.
Variable kubeletIP : string.

Local Abbreviation coalesceLoop :=
  (coalesceLoop MarshalPods UnmarshalPods MarshalPermissions
     MarshalSecurityFlags FormatRFC3339 clock kubeletIP).
Local Abbreviation saveResults :=
  (saveResults MarshalPods UnmarshalPods MarshalPermissions
     MarshalSecurityFlags FormatRFC3339 clock kubeletIP).

Lemma coalesceLoop_size results : forall i saMap saMap',
  coalesceLoop i results saMap = Some saMap' ->
  (size saMap' <= size saMap + length results)%nat.
Proof.
  induction results as [|r results IH]; intros i saMap saMap' Hrun.
  - cbn in Hrun. injection Hrun as <-. lia.
  - cbn [Scan.coalesceLoop length] in *.
    destruct (negb (resError r =? "")%string
              || (resServiceAccount r =? "")%string).
    + apply IH in Hrun. lia.
    + destruct (resTokenInfo r) as [tokenInfo|]; [|discriminate].
      destruct (saMap !! keyOf tokenInfo r) as [existing|] eqn:E;
        apply IH in Hrun.
      * rewrite map_size_insert_Some in Hrun by eauto. lia.
      * rewrite map_size_insert_None in Hrun by exact E. lia.
Qed.


End SaveResults.

End SaveCountFacts.

(** ** One record per ServiceAccount in the repository *)

Module AccountFacts.
Import Config Rbac Scan DB Repo Spec Accounts.
Import DBFacts RepoFacts ScanFacts ScanMoreFacts CoalesceFacts.

Lemma append_nil_l (s : string) : "" +:+ s = s.
Proof. reflexivity. Qed.

(** A namespace without ["/"] can be read back from the rendered pair. *)
Lemma rendered_inj ns sa ns' sa' :
  countByte "/" ns = 0%nat -> countByte "/" ns' = 0%nat ->
  rendered (ns, sa) = rendered (ns', sa') -> ns = ns' /\ sa = sa'.
Proof.
  unfold rendered. cbn [fst snd]. revert ns'.
  induction ns as [|c ns IH]; intros [|c' ns'] H H';
    rewrite ?append_cons, ?append_nil_l; intros Heq.
  - injection Heq as ->. by split.
  - injection Heq as <- _. cbn in H'. discriminate H'.
  - injection Heq as -> _. cbn in H. discriminate H.
  - injection Heq as -> Heq. cbn [countByte] in H, H'.
    destruct (IH ns') as [-> ->]; [lia..|exact Heq|by split].
Qed.

Lemma hasKey_sameKey r r' x :
  identity r = Some x -> hasKey (rendered x) r' = sameKey r r'.
Proof.
  intros Hx. unfold hasKey, sameKey. rewrite Hx. unfold identity.
  destruct (resTokenInfo r') as [tokenInfo|]; [|reflexivity].
  apply String.eqb_sym.
Qed.

Lemma group_hits r x results :
  identity r = Some x -> group sameKey r results = hits (rendered x) results.
Proof.
  intros Hx. unfold group, hits. apply List.filter_ext. intros r'.
  by rewrite (hasKey_sameKey r r' x Hx).
Qed.

Lemma keys_hits k results : k ∈ keys results <-> hits k results <> [].
Proof.
  unfold keys, hits. rewrite list_elem_of_omap. split.
  - intros (r & Hr & Hk) Hnil.
    assert (r ∈ List.filter (fun r => counted r && hasKey k r) results) as Hin.
    { apply list_elem_of_In, filter_In. split; [by apply list_elem_of_In|].
      destruct (counted r); [|discriminate]. unfold hasKey.
      unfold identity in Hk. destruct (resTokenInfo r); [|discriminate].
      injection Hk as <-. apply String.eqb_refl. }
    rewrite Hnil in Hin. by apply elem_of_nil in Hin.
  - intros Hne.
    destruct (List.filter _ results) as [|r rs] eqn:E; [by destruct Hne|].
    assert (In r (List.filter (fun r => counted r && hasKey k r) results))
      as Hin by (rewrite E; by left).
    apply filter_In in Hin as [Hin Hr]. apply andb_prop in Hr as [Hc Hk].
    exists r. split; [by apply list_elem_of_In|]. rewrite Hc.
    unfold hasKey in Hk. unfold identity.
    destruct (resTokenInfo r); [|discriminate].
    apply String.eqb_eq in Hk. by rewrite <- Hk.
Qed.

Lemma allowedPermissions_allowedOf perms :
  allowedPermissions perms = allowedOf perms.
Proof.
  unfold allowedOf. induction perms as [|p perms IH]; [reflexivity|].
  cbn [allowedPermissions List.filter].
  destruct (Allowed p) eqn:E; cbn [fmap list_fmap]; by rewrite IH.
Qed.

Lemma elem_of_records (saMap : gmap string ServiceAccountRecord) rec :
  rec ∈ (map_to_list saMap).*2 <-> exists k, saMap !! k = Some rec.
Proof.
  rewrite list_elem_of_fmap. split.
  - intros ([k rec'] & -> & Hin). exists k. by apply elem_of_map_to_list.
  - intros (k & Hk). exists (k, rec). split; [reflexivity|].
    by apply elem_of_map_to_list.
Qed.

Lemma lastWrite_elem namespace name records r :
  lastWrite namespace name records = Some r ->
  r ∈ records /\ saName r = name /\ saNamespace r = namespace.
Proof.
  unfold lastWrite. intros Hlast. apply last_Some_elem_of in Hlast.
  apply list_elem_of_In, filter_In in Hlast as [Hin Hr].
  apply andb_prop in Hr as [Hn Hns]. apply String.eqb_eq in Hn, Hns.
  split; [by apply list_elem_of_In|by split].
Qed.

Lemma lastWrite_filed saMap k rec :
  filedByName saMap -> saMap !! k = Some rec ->
  lastWrite (saNamespace rec) (saName rec) (map_to_list saMap).*2 = Some rec.
Proof.
  intros Hfiled Hk.
  destruct (lastWrite _ _ _) as [r|] eqn:Hlast.
  - apply lastWrite_elem in Hlast as (Hin & Hn & Hns).
    apply elem_of_records in Hin as (k' & Hk').
    pose proof (Hfiled _ _ Hk') as E'. pose proof (Hfiled _ _ Hk) as E.
    rewrite Hn, Hns, E in E'. subst k'. congruence.
  - exfalso. unfold lastWrite in Hlast.
    assert (is_Some (last (List.filter
              (fun r => (saName r =? saName rec)%string
                        && (saNamespace r =? saNamespace rec)%string)
              (map_to_list saMap).*2))) as [r Hr]; [|congruence].
    apply last_is_Some. intros Hnil.
    assert (In rec (List.filter
              (fun r => (saName r =? saName rec)%string
                        && (saNamespace r =? saNamespace rec)%string)
              (map_to_list saMap).*2)) as Hin.
    { apply filter_In. split.
      - apply list_elem_of_In, elem_of_records. by exists k.
      - by rewrite !String.eqb_refl. }
    rewrite Hnil in Hin. destruct Hin.
Qed.

Lemma lastWrite_absent saMap namespace name :
  filedByName saMap -> saMap !! rendered (namespace, name) = None ->
  lastWrite namespace name (map_to_list saMap).*2 = None.
Proof.
  intros Hfiled Hnone.
  destruct (lastWrite _ _ _) as [r|] eqn:Hlast; [|reflexivity].
  apply lastWrite_elem in Hlast as (Hin & Hn & Hns).
  apply elem_of_records in Hin as (k' & Hk').
  pose proof (Hfiled _ _ Hk') as E'. rewrite Hn, Hns in E'. subst k'.
  congruence.
Qed.

(** Where no token namespace holds ["/"], results read alike only when
    their pairs are the same. *)
Lemma samePair_sameKey (results : list SATokenResult) r r' :
  (forall r tokenInfo, r ∈ results -> resTokenInfo r = Some tokenInfo ->
     countByte "/" (Namespace tokenInfo) = 0%nat) ->
  r ∈ results -> r' ∈ results -> samePair r r' = sameKey r r'.
Proof.
  intros Hslash Hr Hr'. unfold samePair, sameKey, identity.
  destruct (resTokenInfo r) as [ti|] eqn:E; [|reflexivity].
  destruct (resTokenInfo r') as [ti'|] eqn:E'; [|reflexivity].
  cbn [fst snd].
  destruct (String.eqb_spec (rendered (Namespace ti, resServiceAccount r))
              (rendered (Namespace ti', resServiceAccount r'))) as [Heq|Hne].
  - apply rendered_inj in Heq as [-> ->]; eauto.
    by rewrite !String.eqb_refl.
  - destruct (String.eqb_spec (Namespace ti) (Namespace ti')) as [En|];
      [|reflexivity].
    destruct (String.eqb_spec (resServiceAccount r) (resServiceAccount r'))
      as [Es|]; [|reflexivity].
    destruct Hne. by rewrite En, Es.
Qed.

Section SaveResults.

Variable kubeletExec : ExecOptions -> result ExecResult.
Variable TrimSpace : string -> string.
Variable RawURLDecode : string -> result string.
Variable StdDecode : string -> result string.
Variable UnmarshalClaims : string -> result (gmap string JSON).
Variable now : Time.
Variable GetK8sClient :
  string -> result (string -> result (list PermissionCheck)).
Variable MarshalPods : list SAPodInfo -> string.
Variable UnmarshalPods : string -> list SAPodInfo.
Variable MarshalPermissions : list SAPermission -> string.
Variable MarshalSecurityFlags : SASecurityFlags -> string.
Variable FormatRFC3339 : Time -> string.
Variable clock : nat -> Time.
Variable kubeletIP : string.

(** [json.Unmarshal] reads back what [json.Marshal] wrote, and JSON text
    is never empty. *)
Hypothesis pods_round_trip : forall l, UnmarshalPods (MarshalPods l) = l.
Hypothesis pods_text_nonempty : forall l, MarshalPods l <> "".

Local Abbreviation scan :=
  (scanPodToken kubeletExec TrimSpace RawURLDecode StdDecode UnmarshalClaims
     now GetK8sClient).
Local Abbreviation coalesceLoop :=
  (coalesceLoop MarshalPods UnmarshalPods MarshalPermissions
     MarshalSecurityFlags FormatRFC3339 clock kubeletIP).
Local Abbreviation saveResults :=
  (saveResults MarshalPods UnmarshalPods MarshalPermissions
     MarshalSecurityFlags FormatRFC3339 clock kubeletIP).
Local Abbreviation coalesced :=
  (coalesced MarshalPods MarshalPermissions MarshalSecurityFlags FormatRFC3339
     clock kubeletIP).
Local Abbreviation coalescedUnder :=
  (coalescedUnder MarshalPods MarshalPermissions).

(** The map of the first loop on the results of scan tasks. *)
Lemma coalesceLoop_scan pods :
  exists saMap,
    coalesceLoop 0 (scan <$> pods) ∅ = Some saMap /\
    coalesced (scan <$> pods) saMap.
Proof.
  destruct (coalesceLoop_coalesced MarshalPods UnmarshalPods MarshalPermissions
              MarshalSecurityFlags FormatRFC3339 clock kubeletIP
              pods_round_trip pods_text_nonempty (scan <$> pods) [] ∅)
    as (saMap & Hrun & Hinv).
  - intros k. cbn. apply lookup_empty.
  - intros r Hr Hc. apply list_elem_of_fmap in Hr as (pod & -> & _).
    by apply scanPodToken_counted.
  - by exists saMap.
Qed.

Lemma coalesced_filed results saMap :
  coalesced results saMap -> filedByName saMap.
Proof.
  intros Hinv k rec Hk. specialize (Hinv k).
  destruct (hits k results) as [|first more] eqn:Hh; [congruence|].
  destruct Hinv as (rec' & Hk' & i & tokenInfo & Hti & Hrec).
  assert (rec' = rec) as -> by congruence. subst rec. cbn.
  assert (In first (hits k results)) as Hin by (rewrite Hh; by left).
  apply filter_In in Hin as [_ Hfirst]. apply andb_prop in Hfirst as [_ Hkey].
  unfold hasKey in Hkey. rewrite Hti in Hkey. by apply String.eqb_eq in Hkey.
Qed.

Lemma coalesced_dom results saMap :
  coalesced results saMap ->
  size saMap = size (list_to_set (keys results) : gset string).
Proof.
  intros Hinv. rewrite <- (size_dom (D := gset string) saMap). f_equal.
  apply set_eq. intros k. rewrite elem_of_dom, elem_of_list_to_set, keys_hits.
  specialize (Hinv k). destruct (hits k results) as [|first more].
  - rewrite Hinv. split; [by intros []|by intros []].
  - destruct Hinv as (rec & -> & _). split; [discriminate|by eexists].
Qed.

(** The row of a counted scan result in the store that the batch leaves. *)
Lemma written_row pods saMap conn r x :
  coalesced (scan <$> pods) saMap ->
  r ∈ scan <$> pods -> counted r = true -> identity r = Some x ->
  match hits (rendered x) (scan <$> pods) with
  | [] => False
  | first :: more =>
      exists tokenInfo row,
        resTokenInfo first = Some tokenInfo /\
        GetByName (writeAll (map_to_list saMap).*2 conn)
          (Namespace tokenInfo) (resServiceAccount first) = Some row /\
        saNamespace row = Namespace tokenInfo /\
        suppliedBy MarshalPods MarshalPermissions first (first :: more) row
  end.
Proof.
  intros Hinv Hr Hc Hx.
  pose proof (coalesced_filed _ _ Hinv) as Hfiled.
  specialize (Hinv (rendered x)).
  destruct (hits (rendered x) (scan <$> pods)) as [|first more] eqn:Hh.
  - assert (In r (hits (rendered x) (scan <$> pods))) as Hin.
    { apply filter_In. split; [by apply list_elem_of_In|].
      rewrite Hc. cbn [andb]. unfold hasKey. unfold identity in Hx.
      destruct (resTokenInfo r); [|discriminate].
      injection Hx as <-. apply String.eqb_refl. }
    rewrite Hh in Hin. destruct Hin.
  - destruct Hinv as (rec & Hk & i & tokenInfo & Hti & Hrec).
    pose proof (lastWrite_filed saMap _ rec Hfiled Hk) as Hlast.
    destruct (writeAll_lookup (map_to_list saMap).*2 conn
                (saNamespace rec) (saName rec)) as [Hrow _].
    rewrite Hlast in Hrow. destruct Hrow as (id & _ & Hrow).
    assert (In first (hits (rendered x) (scan <$> pods))) as Hin
      by (rewrite Hh; by left).
    apply filter_In in Hin as [Hin _].
    apply list_elem_of_In, list_elem_of_fmap in Hin as (pod & Hpod & _).
    pose proof (scanPodToken_assessed kubeletExec TrimSpace RawURLDecode
                  StdDecode UnmarshalClaims now GetK8sClient pod)
      as [Hadmin _].
    rewrite <- Hpod in Hadmin.
    exists tokenInfo, (withID id rec). subst rec. cbn in Hrow |- *.
    split; [exact Hti|]. split; [exact Hrow|]. split; [reflexivity|].
    unfold suppliedBy. cbn. split_and!; try reflexivity.
    + by rewrite allowedPermissions_allowedOf.
    + destruct (resIsClusterAdmin first) eqn:E; [|reflexivity].
      symmetry. by apply Hadmin.
Qed.

(** C6, as amended. Saving the results of scan tasks into a repository
    that meets no error leaves one row per ServiceAccount key, the text
    [namespace/serviceAccount] of the token: the count returned is the
    number of distinct keys; for every counted result, the row of its key
    has the name, token, allowed permissions, risk level and cluster-admin
    flag of the first result with that key, and its pod list holds the
    (pod name, pod namespace, container) entries of all results with that
    key, in encounter order; rows of other accounts are left as they were.
    Where no token namespace holds ["/"], the key is the
    (token namespace, serviceAccount) pair. *)
Theorem saveResults_coalesces_by_key
    (f : Faults) (conn : Store) (pods : list PodContainerInfo) :
  beginErr f = None -> prepareErr f = None -> commitErr f = None ->
  (forall n, execErr f n = None) ->
  let results := scan <$> pods in
  exists conn',
    saveResults (Some (f, conn)) results
      = Some (size (list_to_set (keys results) : gset string), Some conn') /\
    coalescedUnder sameKey results conn' /\
    (forall namespace name,
       rendered (namespace, name) ∉ keys results ->
       GetByName conn' namespace name = GetByName conn namespace name) /\
    ((forall r tokenInfo, r ∈ results -> resTokenInfo r = Some tokenInfo ->
        countByte "/" (Namespace tokenInfo) = 0%nat) ->
     coalescedUnder samePair results conn').
Proof.
  intros Hb Hp Hc He results.
  destruct (coalesceLoop_scan pods) as (saMap & Hrun & Hinv).
  fold results in Hrun, Hinv.
  exists (writeAll (map_to_list saMap).*2 conn).
  assert (coalescedUnder sameKey results
            (writeAll (map_to_list saMap).*2 conn)) as Hkey.
  { intros r Hr Hcount.
    assert (is_Some (resTokenInfo r)) as [tokenInfo Hti].
    { apply list_elem_of_fmap in Hr as (pod & -> & _).
      by apply scanPodToken_counted. }
    assert (identity r = Some (Namespace tokenInfo, resServiceAccount r))
      as Hx by (unfold identity; by rewrite Hti).
    rewrite (group_hits r _ results Hx).
    exact (written_row pods saMap conn r _ Hinv Hr Hcount Hx). }
  split_and!.
  - unfold Scan.saveResults. rewrite Hrun.
    rewrite (SaveBatch_no_fault f conn _ Hb Hp Hc) by (intros n _; apply He).
    rewrite length_fmap, length_map_to_list.
    by rewrite (coalesced_dom _ _ Hinv).
  - exact Hkey.
  - intros namespace name Hnot. unfold GetByName.
    destruct (writeAll_lookup (map_to_list saMap).*2 conn namespace name)
      as [Hrow _].
    rewrite lastWrite_absent in Hrow; [exact Hrow|by eapply coalesced_filed|].
    specialize (Hinv (rendered (namespace, name))).
    destruct (hits _ results) eqn:Hh; [exact Hinv|].
    exfalso. apply Hnot, keys_hits. by rewrite Hh.
  - intros Hslash r Hr Hcount. specialize (Hkey r Hr Hcount).
    assert (group samePair r results = group sameKey r results) as ->;
      [|exact Hkey].
    unfold group. apply List.filter_ext_in. intros r' Hr'. f_equal.
    apply (samePair_sameKey results); [exact Hslash|exact Hr|].
    by apply list_elem_of_In.
Qed.

End SaveResults.

End AccountFacts.

(** ** The further properties on sample data *)

Module MoreSamples.
Import Config Rbac RiskRules Kubelet Scan ScanView Repo Executor.
Import Fixture MoreFixture.
Import QuickFacts TokenMoreFacts StreamFacts ScanMoreFacts RepoFacts
  ExecutorFacts PodRiskFacts SaveCountFacts.

Lemma CalculateRiskLevel_same_allowed_sample :
  CalculateRiskLevel probesB = CalculateRiskLevel probesShuffled.
Proof.
  apply CalculateRiskLevel_same_allowed.
  intros p Ha. unfold probesB, probesShuffled.
  rewrite !elem_of_cons, !elem_of_nil.
  split; intros H; repeat destruct H as [H|H]; subst;
    try discriminate Ha; tauto.
Defined.

Lemma Parse_invalid_format_sample :
  Token.Parse decodeIdentity decodeIdentity unmarshalFoo now "h.p"
  = Err "无效的 JWT Token 格式".
Proof.
  apply Parse_invalid_format. cbn. lia.
Defined.




Lemma readLoop_surfaces_failure_status_sample :
  execError
    (readLoop unmarshalStatus
       ([stdoutFrame] ++ String "003"%char "container not found" :: [stderrFrame])
       (OtherError "EOF") (mkExecResult "" "" ""))
  = (if (Message (mkExecStatus "Failure" "container not found") =? "")%string
     then "container not found"
     else Message (mkExecStatus "Failure" "container not found")).
Proof.
  apply (readLoop_surfaces_failure_status unmarshalStatus [stdoutFrame]
           [stderrFrame] "container not found"
           (mkExecStatus "Failure" "container not found")).
  - reflexivity.
  - discriminate.
  - repeat constructor.
  - discriminate.
Defined.

Lemma readExecOutput_error_of_clean_stream_sample :
  exists res,
    readExecOutput unmarshalStatus [stdoutFrame; okFrame]
      (OtherError "i/o timeout") = Ok res /\
    execError res =
      if IsCloseError (OtherError "i/o timeout")
           [CloseNormalClosure; CloseGoingAway]
         || Contains (errorText (OtherError "i/o timeout")) "close"
      then "" else errorText (OtherError "i/o timeout").
Proof.
  apply readExecOutput_error_of_clean_stream.
  intros m Hm Hchannel.
  apply elem_of_cons in Hm as [->|Hm]; [discriminate Hchannel|].
  apply list_elem_of_singleton in Hm as ->.
  exists (mkExecStatus "Success" ""). by split.
Defined.

Lemma Contains_refl (s : string) : Contains s s = true.
Proof.
  assert (String.prefix s s = true) as H.
  { rewrite <- (append_nil_r s) at 2. apply prefix_append_self. }
  destruct s; cbn [Contains]; by rewrite H.
Qed.

Lemma buildFlags_marks_privilege_sample :
  containsFlag (flagList plainColored (scan podA)) "PRIV" = true /\
  buildFlags plainColored (scan podA)
  = Join (flagList plainColored (scan podA)) ",".
Proof.
  apply (buildFlags_marks_privilege plainColored).
  - intros color text. apply Contains_refl.
  - right. exists wildcard. split; [left|]. split; vm_compute; reflexivity.
Defined.

Lemma SaveBatch_then_GetByName_sample :
  match DB.SaveBatch noFaults emptyStore batch with
  | (conn', saved, err) =>
      err = None /\ saved = length batch /\
      match lastWrite "default" "two" batch with
      | Some r =>
          exists stored,
            GetByName conn' "default" "two" = Some stored /\
            sameColumns stored r /\ DB.seq emptyStore < saID stored
      | None =>
          GetByName conn' "default" "two" = GetByName emptyStore "default" "two"
      end
  end.
Proof.
  apply (SaveBatch_then_GetByName noFaults emptyStore batch "default" "two");
    reflexivity.
Defined.

Lemma parseArgs_splits_on_blanks_sample :
  parseArgs (space :: flagWord) = parseArgs flagWord /\
  parseArgs (scanWord ++ space :: flagWord) = scanWord :: parseArgs flagWord /\
  parseArgs scanWord = [scanWord].
Proof.
  apply parseArgs_splits_on_blanks; [reflexivity|discriminate|reflexivity].
Defined.

Lemma parseArgs_quoted_text_sample :
  parseArgs (doubleQuote :: twoWords ++ [doubleQuote]) = [twoWords].
Proof.
  apply parseArgs_quoted_text; [discriminate|reflexivity].
Defined.


(** The two classifiers side by side: one allowed [events list] is LOW
    for the quick classifier and CRITICAL for the full assessment. *)
Example classifiers_disagree :
  CalculateRiskLevel [mkPermissionCheck "events" "list" true "" ""] = RiskLow /\
  raLevel (Assess.AssessRiskFromPermissions
             [mkPermissionCheck "events" "list" true "" ""]) = RiskCritical.
Proof. split; vm_compute; reflexivity. Qed.

End MoreSamples.

(** ** The repository after two scans *)

Module AccountSamples.
Import Config Scan DB Repo Spec Accounts Fixture FixtureFacts AccountFacts.

(** C6 as amended, on the two pods that mount the token of
    [default/shared] and an empty repository. *)
Lemma saveResults_coalesces_by_key_sample :
  let results := scan <$> [podA; podB] in
  exists conn',
    saveResults MarshalPods UnmarshalPods MarshalPermissions
      MarshalSecurityFlags FormatRFC3339 clock kubeletIP
      (Some (noFaults, emptyStore)) results
      = Some (size (list_to_set (keys results) : gset string), Some conn') /\
    coalescedUnder MarshalPods MarshalPermissions sameKey results conn' /\
    (forall namespace name,
       rendered (namespace, name) ∉ keys results ->
       GetByName conn' namespace name = GetByName emptyStore namespace name) /\
    ((forall r tokenInfo, r ∈ results -> resTokenInfo r = Some tokenInfo ->
        countByte "/" (Namespace tokenInfo) = 0%nat) ->
     coalescedUnder MarshalPods MarshalPermissions samePair results conn').
Proof.
  apply (saveResults_coalesces_by_key kubeletExec TrimSpace decodeIdentity
           decodeIdentity unmarshalShared now GetK8sClient MarshalPods
           UnmarshalPods MarshalPermissions MarshalSecurityFlags FormatRFC3339
           clock kubeletIP pods_round_trip pods_text_nonempty noFaults
           emptyStore [podA; podB]); reflexivity.
Defined.

(** C6 as worded fails on two crafted tokens: account [c] of namespace
    [a/b] and account [b/c] of namespace [a] are different pairs, yet
    both read [a/b/c], so the scan leaves one row, that of the first, with
    both pods in its list, and no row for the second account. *)
Lemma saveResults_merges_accounts_that_read_alike :
  exists conn',
    saveResults MarshalPods UnmarshalPods MarshalPermissions
      MarshalSecurityFlags FormatRFC3339 clock kubeletIP
      (Some (noFaults, emptyStore)) (Crafted.scan <$> [Crafted.podC; Crafted.podD])
      = Some (1%nat, Some conn') /\
    GetByName conn' "a" "b/c" = None /\
    (exists row,
       GetByName conn' "a/b" "c" = Some row /\
       UnmarshalPods (saPods row)
       = [mkSAPodInfo "c" "default" "c0"; mkSAPodInfo "d" "default" "c0"]) /\
    ~ coalescedUnder MarshalPods MarshalPermissions samePair
        (Crafted.scan <$> [Crafted.podC; Crafted.podD]) conn'.
Proof.
  let out := eval vm_compute in
      (saveResults MarshalPods UnmarshalPods MarshalPermissions
         MarshalSecurityFlags FormatRFC3339 clock kubeletIP
         (Some (noFaults, emptyStore))
         (Crafted.scan <$> [Crafted.podC; Crafted.podD])) in
  match out with
  | Some (_, Some ?c) => exists c
  end.
  split; [vm_compute; reflexivity|].
  split; [vm_compute; reflexivity|].
  split; [eexists; split; vm_compute; reflexivity|].
  intros H. unfold coalescedUnder in H.
  assert (Crafted.scan Crafted.podD
          ∈ Crafted.scan <$> [Crafted.podC; Crafted.podD]) as Hin
    by (right; left).
  assert (counted (Crafted.scan Crafted.podD) = true) as Hcount
    by (vm_compute; reflexivity).
  assert (group samePair (Crafted.scan Crafted.podD)
            (Crafted.scan <$> [Crafted.podC; Crafted.podD])
          = [Crafted.scan Crafted.podD]) as Hgroup
    by (vm_compute; reflexivity).
  pose proof (H _ Hin Hcount) as Hrow. rewrite Hgroup in Hrow.
  destruct Hrow as (tokenInfo & row & Hti & Hrow & _).
  vm_compute in Hti. injection Hti as <-.
  vm_compute in Hrow. discriminate Hrow.
Qed.

End AccountSamples.
